(** * MMTP: a shallow embedding of the protocol engine, the mailbox server
      and the client's request correlator.

    Source files embedded here:
    - the protocol engine (class [MMTPProtocol]): address validation, the
      integrity hash, the HashCash search and check, tag processing and
      filtering, packet creation and packet processing;
    - the server (class [MMTPServer]): the SEND, RECEIVE, RECEIVE_FILTERED and
      CHECK handlers over the mailbox table, the connection handler with its
      per-address counters, and the REGISTER_KEY and REQUEST_PUBLIC_KEY
      handlers over the key store;
    - the client (class [MMTPClient]): the table of outstanding requests, the
      timeouts and the response handler;
    - the SMTP gateway (classes [BMTPBridge] and [MMTPBridgeExtension]): the
      address conversions and the SEND handler that relays to SMTP.

    Conventions of the embedding.
    - A JavaScript string is the sequence of bytes of its UTF-8 encoding
      (what [crypto]'s [update] feeds to the hash); strings holding lone
      surrogates have no such encoding and are outside the model.
    - [Date.now()] values, the difficulty and the HashCash counter are
      integer-valued Numbers; they are [N] or [nat] here and print in decimal,
      as the template literals of the source print them below 10^21.
    - A JavaScript object used as a dictionary (the mailbox table, a tag
      mapping, a filter mapping) is a [gmap] over its own keys; keys that
      collide with the members of [Object.prototype] are outside the model
      ([Js.inherited] names them, for the statements that have to exclude
      them and for the one lookup of the gateway that they decide).
    - The OpenPGP engine and the key files are outside the repository: what
      the protocol engine observes of them is a record of oracles. *)

From Stdlib Require Import NArith ZArith List Ascii String Lia DecimalString.
From stdpp Require Import base gmap strings list.

(** ** SHA-256 (FIPS 180-4), the digest behind [crypto.createHash('sha256')] *)

Module Sha256.
Local Open Scope N_scope.

Definition mask32 : N := 0xFFFFFFFF.

Definition add32 (x y : N) : N := N.land (x + y) mask32.

Definition rotr (n x : N) : N :=
  N.lor (N.shiftr x n) (N.land (N.shiftl x (32 - n)) mask32).

Definition shr (n x : N) : N := N.shiftr x n.

Definition not32 (x : N) : N := N.lxor x mask32.

Definition Ch (x y z : N) : N := N.lxor (N.land x y) (N.land (not32 x) z).

Definition Maj (x y z : N) : N :=
  N.lxor (N.lxor (N.land x y) (N.land x z)) (N.land y z).

Definition Sum0 (x : N) : N := N.lxor (N.lxor (rotr 2 x) (rotr 13 x)) (rotr 22 x).

Definition Sum1 (x : N) : N := N.lxor (N.lxor (rotr 6 x) (rotr 11 x)) (rotr 25 x).

Definition sig0 (x : N) : N := N.lxor (N.lxor (rotr 7 x) (rotr 18 x)) (shr 3 x).

Definition sig1 (x : N) : N := N.lxor (N.lxor (rotr 17 x) (rotr 19 x)) (shr 10 x).

(** The sixty-four round constants. *)
Definition round_constants : list N :=
  [ 0x428A2F98; 0x71374491; 0xB5C0FBCF; 0xE9B5DBA5;
    0x3956C25B; 0x59F111F1; 0x923F82A4; 0xAB1C5ED5;
    0xD807AA98; 0x12835B01; 0x243185BE; 0x550C7DC3;
    0x72BE5D74; 0x80DEB1FE; 0x9BDC06A7; 0xC19BF174;
    0xE49B69C1; 0xEFBE4786; 0x0FC19DC6; 0x240CA1CC;
    0x2DE92C6F; 0x4A7484AA; 0x5CB0A9DC; 0x76F988DA;
    0x983E5152; 0xA831C66D; 0xB00327C8; 0xBF597FC7;
    0xC6E00BF3; 0xD5A79147; 0x06CA6351; 0x14292967;
    0x27B70A85; 0x2E1B2138; 0x4D2C6DFC; 0x53380D13;
    0x650A7354; 0x766A0ABB; 0x81C2C92E; 0x92722C85;
    0xA2BFE8A1; 0xA81A664B; 0xC24B8B70; 0xC76C51A3;
    0xD192E819; 0xD6990624; 0xF40E3585; 0x106AA070;
    0x19A4C116; 0x1E376C08; 0x2748774C; 0x34B0BCB5;
    0x391C0CB3; 0x4ED8AA4A; 0x5B9CCA4F; 0x682E6FF3;
    0x748F82EE; 0x78A5636F; 0x84C87814; 0x8CC70208;
    0x90BEFFFA; 0xA4506CEB; 0xBEF9A3F7; 0xC67178F2 ].

(** The eight chaining words, in the order a b c d e f g h. *)
Record chain : Type := Chain
  { ca : N; cb : N; cc : N; cd : N; ce : N; cf : N; cg : N; ch : N }.

Definition initial_chain : chain :=
  Chain 0x6A09E667 0xBB67AE85 0x3C6EF372 0xA54FF53A
        0x510E527F 0x9B05688C 0x1F83D9AB 0x5BE0CD19.

(** Padding: the byte 0x80, zero bytes up to 56 modulo 64, and the bit length
    as a 64-bit big-endian integer. *)
Definition be_bytes (width : nat) (x : N) : list N :=
  map (fun i => N.land (N.shiftr x (8 * N.of_nat i)) 0xFF) (rev (seq 0 width)).

Definition pad (msg : list N) : list N :=
  let len := N.of_nat (length msg) in
  let zeros := N.to_nat ((64 - (len + 9) mod 64) mod 64) in
  msg ++ 0x80 :: repeat 0 zeros ++ be_bytes 8 (8 * len).

Fixpoint words_of_bytes (bs : list N) : list N :=
  match bs with
  | b3 :: b2 :: b1 :: b0 :: rest =>
      N.lor (N.shiftl b3 24) (N.lor (N.shiftl b2 16) (N.lor (N.shiftl b1 8) b0))
        :: words_of_bytes rest
  | _ => []
  end.

(** The message schedule, kept newest word first while it grows. *)
Fixpoint extend_schedule (n : nat) (newest_first : list N) : list N :=
  match n with
  | O => newest_first
  | S n' =>
      let w := add32 (add32 (sig1 (nth 1 newest_first 0)) (nth 6 newest_first 0))
                     (add32 (sig0 (nth 14 newest_first 0)) (nth 15 newest_first 0)) in
      extend_schedule n' (w :: newest_first)
  end.

Definition schedule (block : list N) : list N :=
  rev (extend_schedule 48 (rev block)).

Definition round (s : chain) (kw : N * N) : chain :=
  let t1 := add32 (add32 (add32 (ch s) (Sum1 (ce s))) (Ch (ce s) (cf s) (cg s)))
                  (add32 (fst kw) (snd kw)) in
  let t2 := add32 (Sum0 (ca s)) (Maj (ca s) (cb s) (cc s)) in
  Chain (add32 t1 t2) (ca s) (cb s) (cc s) (add32 (cd s) t1) (ce s) (cf s) (cg s).

Definition compress (h : chain) (block : list N) : chain :=
  let s := fold_left round (combine round_constants (schedule block)) h in
  Chain (add32 (ca h) (ca s)) (add32 (cb h) (cb s)) (add32 (cc h) (cc s))
        (add32 (cd h) (cd s)) (add32 (ce h) (ce s)) (add32 (cf h) (cf s))
        (add32 (cg h) (cg s)) (add32 (ch h) (ch s)).

Fixpoint hash_blocks (n : nat) (ws : list N) (h : chain) : chain :=
  match n with
  | O => h
  | S n' => hash_blocks n' (skipn 16 ws) (compress h (firstn 16 ws))
  end.

Definition digest (msg : list N) : chain :=
  let ws := words_of_bytes (pad msg) in
  hash_blocks (Nat.div (length ws) 16) ws initial_chain.

(** Lower-case hexadecimal, as [digest('hex')] prints. *)
Definition hex_digit (d : N) : ascii :=
  if d <? 10 then ascii_of_N (48 + d) else ascii_of_N (87 + d).

Definition hex_of_word (w : N) : string :=
  fold_right (fun i acc => String (hex_digit (N.land (N.shiftr w (4 * N.of_nat i)) 0xF)) acc)
             EmptyString (rev (seq 0 8)).

Definition hex_of_chain (h : chain) : string :=
  String.concat EmptyString
    (map hex_of_word [ca h; cb h; cc h; cd h; ce h; cf h; cg h; ch h]).

Definition bytes_of_string (s : string) : list N :=
  map N_of_ascii (list_ascii_of_string s).

Definition sha256_hex (s : string) : string :=
  hex_of_chain (digest (bytes_of_string s)).

End Sha256.

(** ** JavaScript primitives used by the engine *)

Module Js.

(** [s.startsWith(p)] *)
Definition startsWith (s p : string) : bool := String.prefix p s.

(** [c.repeat(n)] *)
Fixpoint repeat (c : string) (n : nat) : string :=
  match n with
  | O => EmptyString
  | S n' => c +:+ repeat c n'
  end.

(** [hay.includes(needle)] *)
Fixpoint includes (hay needle : string) : bool :=
  String.prefix needle hay
  || match hay with
     | EmptyString => false
     | String _ rest => includes rest needle
     end.

(** [`${n}`] for an integer-valued Number below 10^21: its decimal digits. *)
Definition Number_toString (n : N) : string :=
  NilEmpty.string_of_uint (N.to_uint n).

(** The largest value [counter++] reaches from 0: Numbers are IEEE doubles,
    2^53 + 1 rounds back to 2^53. *)
Definition two53 : N := 9007199254740992.

(** [counter++] on an integer-valued Number between 0 and 2^53. *)
Definition increment (c : N) : N :=
  if (c =? two53)%N then c else (c + 1)%N.

(** Truthiness of a string that may be absent. *)
Definition truthy (s : option string) : bool :=
  match s with
  | Some s => negb (String.eqb s EmptyString)
  | None => false
  end.

(** The property names every object inherits from [Object.prototype]. On an
    object with no own property of that name, [o[name]] is a function (for
    __proto__ the prototype itself) for each of them, and undefined for every
    other name. *)
Definition inherited_names : list string :=
  ["constructor"; "__defineGetter__"; "__defineSetter__"; "hasOwnProperty";
   "__lookupGetter__"; "__lookupSetter__"; "isPrototypeOf"; "propertyIsEnumerable";
   "toString"; "valueOf"; "__proto__"; "toLocaleString"].

Definition inherited (name : string) : bool :=
  existsb (String.eqb name) inherited_names.

(** The number of leading '0' characters of a string. *)
Fixpoint leading_zeros (s : string) : nat :=
  match s with
  | String c rest => if Ascii.eqb c "0" then S (leading_zeros rest) else O
  | EmptyString => O
  end.

End Js.

(** ** [JSON.stringify] on packet content *)

Module Json.

Definition dquote : ascii := "034"%char.
Definition backslash : ascii := "092"%char.

(** Two lower-case hexadecimal digits of a code below 256. *)
Definition hex2 (n : N) : string :=
  String (Sha256.hex_digit (N.shiftr n 4))
    (String (Sha256.hex_digit (N.land n 15)) EmptyString).

(** The escape of one code unit inside a JSON string literal. *)
Definition escape_char (c : ascii) : string :=
  let n := N_of_ascii c in
  if (n =? 34)%N then String backslash (String dquote EmptyString)
  else if (n =? 92)%N then String backslash (String backslash EmptyString)
  else if (n =? 8)%N then String backslash "b"
  else if (n =? 12)%N then String backslash "f"
  else if (n =? 10)%N then String backslash "n"
  else if (n =? 13)%N then String backslash "r"
  else if (n =? 9)%N then String backslash "t"
  else if (n <? 32)%N then String backslash ("u00" +:+ hex2 n)
  else String c EmptyString.

Fixpoint escape (s : string) : string :=
  match s with
  | EmptyString => EmptyString
  | String c rest => escape_char c +:+ escape rest
  end.

(** [JSON.stringify(s)] for a string [s]. *)
Definition quote (s : string) : string :=
  String dquote (escape s +:+ String dquote EmptyString).

(** Reading a JSON string literal back: the inverse of [escape] up to the
    closing quote, with what follows it. *)
Definition unhex (c : ascii) : option N :=
  let n := N_of_ascii c in
  if ((48 <=? n) && (n <=? 57))%N then Some (n - 48)%N
  else if ((97 <=? n) && (n <=? 102))%N then Some (n - 87)%N
  else None.

Definition push_char (d : ascii) (r : option (string * string)) : option (string * string) :=
  match r with
  | Some (body, after) => Some (String d body, after)
  | None => None
  end.

Fixpoint unescape (s : string) : option (string * string) :=
  match s with
  | EmptyString => None
  | String c rest =>
      if Ascii.eqb c dquote then Some (EmptyString, rest)
      else if Ascii.eqb c backslash then
        match rest with
        | String e rest' =>
            if Ascii.eqb e dquote then push_char dquote (unescape rest')
            else if Ascii.eqb e backslash then push_char backslash (unescape rest')
            else if Ascii.eqb e "b" then push_char "008" (unescape rest')
            else if Ascii.eqb e "f" then push_char "012" (unescape rest')
            else if Ascii.eqb e "n" then push_char "010" (unescape rest')
            else if Ascii.eqb e "r" then push_char "013" (unescape rest')
            else if Ascii.eqb e "t" then push_char "009" (unescape rest')
            else if Ascii.eqb e "u" then
              match rest' with
              | String _ (String _ (String h1 (String h0 rest''))) =>
                  match unhex h1, unhex h0 with
                  | Some a, Some b => push_char (ascii_of_N (16 * a + b)) (unescape rest'')
                  | _, _ => None
                  end
              | _ => None
              end
            else None
        | EmptyString => None
        end
      else push_char c (unescape rest)
  end.

End Json.

(** ** The protocol engine (class MMTPProtocol) *)

Module Protocol.

(** *** Data model *)

Abbreviation TagMap := (gmap string (list string)).

Record HashCashToken : Type := MkToken
  { token : string; counter : N }.

(** [content] is [{subject, body}], or [{encrypted}] once encryption has
    replaced it. *)
Inductive Content : Type :=
  | Plain (subject body : string)
  | Ciphertext (armored : string).

Record Meta : Type := MkMeta
  { type : string;
    messageId : string;
    timestamp : N;
    hashcashToken : HashCashToken;
    encrypted : bool;
    signed : bool;
    signatureVerified : option bool;   (* absent until a verification ran *)
    decrypted : bool;                  (* absent reads as false *)
    tags : option TagMap }.

Record Verification : Type := MkVerification
  { messageHash : string; signature : option string }.

Record Packet : Type := MkPacket
  { meta : Meta;
    sender : string;
    recipient : string;
    content : Content;
    verification : Verification }.

(** What the engine observes of the key files and of the OpenPGP engine. *)
Inductive SignOutcome : Type :=
  | NoPrivateKey                    (* the private key file does not exist *)
  | Signature (armored : string)    (* a detached signature *)
  | SignThrows (message : string).  (* reading the key or signing threw *)

Record KeyStore : Type := MkKeyStore
  { (* sender address, text to sign *)
    sign_with : string -> string -> SignOutcome;
    (* recipient address, text: None when no public key is found or the
       engine throws *)
    encrypt_for : string -> string -> option string;
    (* recipient address, armored message: the parsed plaintext, None when
       the private key file is missing or anything throws *)
    decrypt_for : string -> string -> option Content;
    (* sender address, text, signature: None when no public key is found,
       Some false when anything throws, Some true when verified *)
    verify_from : string -> string -> string -> option bool;
    (* address, armored key: None when the key is read and written,
       the error message when reading or writing throws *)
    import_key : string -> string -> option string }.

(** The fields of an engine instance the embedded methods read. *)
Record MMTPProtocol : Type := MkProtocol
  { difficulty : nat;
    usePGP : bool;
    keys : KeyStore }.

(** *** validateEmailFormat: /^\([a-zA-Z0-9._-]+\)%\([a-zA-Z0-9.-]+\)$/ *)

Definition alnum (c : ascii) : bool :=
  let n := N_of_ascii c in
  ((48 <=? n) && (n <=? 57) || (65 <=? n) && (n <=? 90) || (97 <=? n) && (n <=? 122))%N.

Definition local_char (c : ascii) : bool :=
  alnum c || Ascii.eqb c "." || Ascii.eqb c "_" || Ascii.eqb c "-".

Definition domain_char (c : ascii) : bool :=
  alnum c || Ascii.eqb c "." || Ascii.eqb c "-".

(** The longest prefix of characters of a class, and the rest. *)
Fixpoint span (p : ascii -> bool) (s : string) : string * string :=
  match s with
  | String c rest =>
      if p c then let (taken, after) := span p rest in (String c taken, after)
      else (EmptyString, s)
  | EmptyString => (EmptyString, EmptyString)
  end.

(** [s] without the literal [lit] at its start. *)
Fixpoint expect (lit s : string) : option string :=
  match lit, s with
  | EmptyString, _ => Some s
  | String a lit', String b s' => if Ascii.eqb a b then expect lit' s' else None
  | String _ _, EmptyString => None
  end.

Definition validateEmailFormat (email : string) : bool :=
  match expect "(" email with
  | None => false
  | Some r1 =>
      let (local_part, r2) := span local_char r1 in
      if String.eqb local_part EmptyString then false
      else match expect ")%(" r2 with
           | None => false
           | Some r3 =>
               let (domain, r4) := span domain_char r3 in
               if String.eqb domain EmptyString then false
               else String.eqb r4 ")"
           end
  end.

(** *** generateSHA256 *)

Definition generateSHA256 (data : string) : string := Sha256.sha256_hex data.
Arguments generateSHA256 : simpl never.

(** [JSON.stringify(packet.content)] *)
Definition stringify_content (c : Content) : string :=
  match c with
  | Plain subject body =>
      "{" +:+ Json.quote "subject" +:+ ":" +:+ Json.quote subject +:+ ","
          +:+ Json.quote "body" +:+ ":" +:+ Json.quote body +:+ "}"
  | Ciphertext armored =>
      "{" +:+ Json.quote "encrypted" +:+ ":" +:+ Json.quote armored +:+ "}"
  end.

(** *** verifyMessageIntegrity *)

Definition verifyMessageIntegrity (packet : Packet) : bool :=
  if encrypted (meta packet) then true
  else
    let calculatedHash := generateSHA256 (stringify_content (content packet)) in
    String.eqb calculatedHash (messageHash (verification packet)).

(** *** generateHashCash *)

Definition version : N := 1.

(** The token string built on each turn of the loop. *)
Definition token_string (d : nat) (sender recipient : string) (timestamp counter : N) : string :=
  let resource := sender +:+ ":" +:+ recipient +:+ ":" +:+ Js.Number_toString timestamp in
  Js.Number_toString version +:+ ":" +:+ Js.Number_toString (N.of_nat d) +:+ ":"
    +:+ Js.Number_toString timestamp +:+ ":" +:+ resource +:+ "::"
    +:+ Js.Number_toString counter +:+ ":".

(** The test of the loop: [hash.startsWith('0'.repeat(difficulty))]. *)
Definition meets_difficulty (d : nat) (tok : string) : bool :=
  Js.startsWith (generateSHA256 tok) (Js.repeat "0" d).

(** The [while (true)] loop, from a given counter; [fuel] bounds the number
    of turns and [None] is a loop still running when it is spent. *)
Fixpoint generateHashCash_from (fuel : nat) (P : MMTPProtocol)
    (sender recipient : string) (timestamp counter : N) : option HashCashToken :=
  match fuel with
  | O => None
  | S fuel' =>
      let tok := token_string (difficulty P) sender recipient timestamp counter in
      if meets_difficulty (difficulty P) tok then Some (MkToken tok counter)
      else generateHashCash_from fuel' P sender recipient timestamp (Js.increment counter)
  end.

Definition generateHashCash (fuel : nat) (P : MMTPProtocol)
    (sender recipient : string) (timestamp : N) : option HashCashToken :=
  generateHashCash_from fuel P sender recipient timestamp 0.

(** *** verifyHashCash *)

Definition verifyHashCash (P : MMTPProtocol) (packet : Packet) : bool :=
  let tok := token (hashcashToken (meta packet)) in
  let hash := generateSHA256 tok in
  Js.startsWith hash (Js.repeat "0" (difficulty P)).

(** *** processTags *)

(** The closed vocabularies of [tagCategories]. *)
Definition closed_vocabulary (category : string) : option (list string) :=
  if String.eqb category "priority" then Some ["high"; "medium"; "low"]
  else if String.eqb category "category" then
    Some ["personal"; "work"; "finance"; "social"; "promotion"; "coupon"; "shop";
          "notification"]
  else if String.eqb category "status" then
    Some ["urgent"; "important"; "information"; "action_required"]
  else None.

(** [arr.includes(x)] on an array of strings. *)
Definition array_includes (arr : list string) (x : string) : bool :=
  existsb (String.eqb x) arr.

(** The [tags] option of a call: absent, an array, or a mapping. *)
Inductive TagInput : Type :=
  | TagsAbsent
  | TagsArray (l : list string)
  | TagsObject (m : TagMap).

Definition processTags (input : TagInput) : TagMap :=
  match input with
  | TagsAbsent => ∅
  | TagsArray [] => ∅
  | TagsArray l => {[ "custom" := l ]}
  | TagsObject m =>
      map_imap (fun category tagList =>
                  if String.eqb category "custom" then Some tagList
                  else match closed_vocabulary category with
                       | Some vocabulary =>
                           Some (List.filter (array_includes vocabulary) tagList)
                       | None => None
                       end) m
  end.

(** *** filterMessagesByTags *)

(** [Object.keys(o).length === 0] *)
Definition no_keys (m : TagMap) : bool := bool_decide (m = ∅).

(** The body of the loop over [Object.entries(tagFilters)] for one entry:
    true when the loop goes on, false when it returns false. *)
Definition category_passes (messageTagMap : TagMap) (entry : string * list string) : bool :=
  let (category, filterTags) := entry in
  let messageTags := default [] (messageTagMap !! category) in
  if (0 <? length filterTags)%nat && (length messageTags =? 0)%nat then false
  else existsb (fun tag => array_includes messageTags tag) filterTags.

(** The callback given to [messages.filter]. *)
Definition message_passes (tagFilters : TagMap) (message : Packet) : bool :=
  match tags (meta message) with
  | None => false
  | Some messageTagMap =>
      if no_keys messageTagMap then false
      else forallb (category_passes messageTagMap) (map_to_list tagFilters)
  end.

Definition filterMessagesByTags (messages : list Packet) (tagFilters : option TagMap)
    : list Packet :=
  match tagFilters with
  | None => messages
  | Some filters =>
      if no_keys filters then messages
      else List.filter (message_passes filters) messages
  end.

(** *** createMessagePacket *)

(** The options of a call. *)
Record Options : Type := MkOptions
  { opt_tags : TagInput; opt_sign : bool; opt_encrypt : bool }.

(** How a call ends: it returns, or it throws (an async method rejects). *)
Inductive Outcome (A : Type) : Type :=
  | Returns (a : A)
  | Throws (message : string).
Arguments Returns {A} a.
Arguments Throws {A} message.

Definition set_signature (sig : string) (packet : Packet) : Packet :=
  let m := meta packet in
  MkPacket
    (MkMeta (type m) (messageId m) (timestamp m) (hashcashToken m) (encrypted m)
            true (signatureVerified m) (decrypted m) (tags m))
    (sender packet) (recipient packet) (content packet)
    (MkVerification (messageHash (verification packet)) (Some sig)).

Definition set_encrypted (armored : string) (packet : Packet) : Packet :=
  let m := meta packet in
  MkPacket
    (MkMeta (type m) (messageId m) (timestamp m) (hashcashToken m) true
            (signed m) (signatureVerified m) (decrypted m) (tags m))
    (sender packet) (recipient packet) (Ciphertext armored) (verification packet).

(** [now] is the value of [Date.now()] and [fresh] the sixteen random bytes in
    hexadecimal; [None] is a HashCash search still running when the fuel is
    spent. *)
Definition createMessagePacket (fuel : nat) (P : MMTPProtocol) (now : N) (fresh : string)
    (from to subject body type : string) (options : Options)
    : option (Outcome Packet) :=
  if negb (validateEmailFormat from) || negb (validateEmailFormat to) then
    Some (Throws "Invalid email format. Must be (name)%(domain)")
  else
    let timestamp := now in
    let messageId := fresh in
    let messageContent := Plain subject body in
    let messageHash := generateSHA256 (stringify_content messageContent) in
    match generateHashCash fuel P from to timestamp with
    | None => None
    | Some hashcashToken =>
        let tags := processTags (opt_tags options) in
        let packet :=
          MkPacket
            (MkMeta type messageId timestamp hashcashToken false false None false
                    (Some tags))
            from to messageContent (MkVerification messageHash None) in
        let signing :=
          if opt_sign options && usePGP P then
            match sign_with (keys P) from (stringify_content messageContent) with
            | NoPrivateKey => Returns packet
            | Signature sig => Returns (set_signature sig packet)
            | SignThrows message => Throws message
            end
          else Returns packet in
        match signing with
        | Throws message => Some (Throws message)
        | Returns packet =>
            if opt_encrypt options && usePGP P then
              match encrypt_for (keys P) to (stringify_content messageContent) with
              | Some armored => Some (Returns (set_encrypted armored packet))
              | None => Some (Returns packet)
              end
            else Some (Returns packet)
        end
    end.

(** *** processPacket *)

(** The checks a call of [processPacket] evaluates, in the order it calls
    them. *)
Inductive Check : Type := IntegrityCheck | HashCashCheck.

Inductive ProcessResult : Type :=
  | Failure (error : string)      (* { success: false, error } *)
  | Success (packet : Packet).    (* { success: true, packet } *)

Definition set_decrypted (c : Content) (packet : Packet) : Packet :=
  let m := meta packet in
  MkPacket
    (MkMeta (type m) (messageId m) (timestamp m) (hashcashToken m) (encrypted m)
            (signed m) (signatureVerified m) true (tags m))
    (sender packet) (recipient packet) c (verification packet).

Definition set_signatureVerified (b : bool) (packet : Packet) : Packet :=
  let m := meta packet in
  MkPacket
    (MkMeta (type m) (messageId m) (timestamp m) (hashcashToken m) (encrypted m)
            (signed m) (Some b) (decrypted m) (tags m))
    (sender packet) (recipient packet) (content packet) (verification packet).

(** The decryption block: the packet is left as it is when the content holds
    no armored message, the key is missing or the engine throws. *)
Definition try_decrypt (P : MMTPProtocol) (recipientEmail : option string) (packet : Packet)
    : Packet :=
  match recipientEmail with
  | Some email =>
      if encrypted (meta packet) && usePGP P && Js.truthy (Some email) then
        match content packet with
        | Ciphertext armored =>
            match decrypt_for (keys P) email armored with
            | Some c => set_decrypted c packet
            | None => packet
            end
        | Plain _ _ => packet
        end
      else packet
  | None => packet
  end.

(** The signature block. *)
Definition try_verify (P : MMTPProtocol) (packet : Packet) : Packet :=
  if signed (meta packet) && Js.truthy (signature (verification packet)) && usePGP P then
    match signature (verification packet) with
    | Some sig =>
        match verify_from (keys P) (sender packet) (stringify_content (content packet)) sig with
        | Some verified => set_signatureVerified verified packet
        | None => packet
        end
    | None => packet
    end
  else packet.

(** [processPacket(packet, { recipientEmail })], with the checks it ran. *)
Definition processPacket (P : MMTPProtocol) (packet : Packet) (recipientEmail : option string)
    : list Check * ProcessResult :=
  if negb (verifyMessageIntegrity packet) then
    ([IntegrityCheck], Failure "Message integrity check failed")
  else if negb (verifyHashCash P packet) then
    ([IntegrityCheck; HashCashCheck],
     Failure "HashCash verification failed - potential spam")
  else
    ([IntegrityCheck; HashCashCheck],
     Success (try_verify P (try_decrypt P recipientEmail packet))).

(** *** importPublicKey

    The armored key is read, written to the key store and cached; the store
    after the call is not tracked. *)
Definition importPublicKey (P : MMTPProtocol) (email publicKeyArmored : string)
    : Outcome unit :=
  if negb (usePGP P) then Throws "PGP support is not enabled"
  else match import_key (keys P) email publicKeyArmored with
       | None => Returns tt
       | Some message => Throws message
       end.

(** *** The address regex with its two captures

    [email.match(/^\(([a-zA-Z0-9._-]+)\)%\(([a-zA-Z0-9.-]+)\)$/)], as
    generateKeyPair and the gateway's convertToSMTPAddress use it: the local
    part and the domain, or no match. *)
Definition match_address (email : string) : option (string * string) :=
  match expect "(" email with
  | None => None
  | Some r1 =>
      let (local_part, r2) := span local_char r1 in
      if String.eqb local_part EmptyString then None
      else match expect ")%(" r2 with
           | None => None
           | Some r3 =>
               let (domain, r4) := span domain_char r3 in
               if String.eqb domain EmptyString then None
               else if String.eqb r4 ")" then Some (local_part, domain)
               else None
           end
  end.

(** *** generateKeyPair, up to the call of the OpenPGP engine: the identity
    the key pair is generated for. *)
Definition generateKeyPair_identity (P : MMTPProtocol) (mmtpEmail standardEmail : string)
    : Outcome string :=
  if negb (usePGP P) then Throws "PGP support is not enabled"
  else if negb (validateEmailFormat mmtpEmail) then
    Throws "Invalid MMTP email format. Must be (name)%(domain)"
  else if Js.truthy (Some standardEmail) then Returns standardEmail
  else match match_address mmtpEmail with
       | Some (localPart, domain) => Returns (localPart +:+ "@" +:+ domain)
       | None => Throws "Failed to extract standard email format from MMTP email"
       end.

(** *** createReplyPacket *)

(** [if (!options.tags && originalPacket.meta.tags) options.tags = ...] *)
Definition inherit_tags (originalPacket : Packet) (options : Options) : Options :=
  match opt_tags options, tags (meta originalPacket) with
  | TagsAbsent, Some originalTags =>
      MkOptions (TagsObject originalTags) (opt_sign options) (opt_encrypt options)
  | _, _ => options
  end.

(** [`RE: ${encrypted ? 'Encrypted Message' : content.subject}`]; a content
    without a subject field prints as undefined. *)
Definition reply_subject (originalPacket : Packet) : string :=
  "RE: " +:+ (if encrypted (meta originalPacket) then "Encrypted Message"
              else match content originalPacket with
                   | Plain subject _ => subject
                   | Ciphertext _ => "undefined"
                   end).

Definition createReplyPacket (fuel : nat) (P : MMTPProtocol) (now : N) (fresh : string)
    (originalPacket : Packet) (from body : string) (options : Options)
    : option (Outcome Packet) :=
  createMessagePacket fuel P now fresh from (sender originalPacket)
    (reply_subject originalPacket) body "REPLY" (inherit_tags originalPacket options).

(** What the loop of processTags does with one entry of a mapping. *)
Definition keep_entry (category : string) (tagList : list string) : option (list string) :=
  if String.eqb category "custom" then Some tagList
  else match closed_vocabulary category with
       | Some vocabulary => Some (List.filter (array_includes vocabulary) tagList)
       | None => None
       end.

(** *** addCustomTag, on [this.tagCategories.custom] *)
Definition addCustomTag (tag : string) (custom : list string) : list string :=
  if array_includes custom tag then custom else custom ++ [tag].

End Protocol.

(** ** The server (class MMTPServer): the mailbox handlers *)

Module Server.
Import Protocol.

(** [this.mailboxes]: address to queue, oldest packet first. *)
Abbreviation Mailboxes := (gmap string (list Packet)).

Abbreviation TagCounts := (gmap string (gmap string nat)).

(** The fields of a server the handlers read besides the mailboxes. *)
Record MMTPServer : Type := MkServer
  { protocol : MMTPProtocol; usePGP : bool }.

(** What a handler writes to the socket. *)
Inductive Response : Type :=
  | Error (message : string)
  | Delivered (messageId : string) (encrypted signed : bool)
  | Messages (messages : list Packet) (count : nat)
  | FilteredMessages (messages : list Packet) (count : nat) (tagFilters : option TagMap)
  | Checked (count totalCount : nat) (tagCounts : TagCounts).

(** *** handleSendMail *)

Definition handleSendMail (S : MMTPServer) (mailboxes : Mailboxes) (packet : Packet)
    : Mailboxes * Response :=
  match snd (processPacket (protocol S) packet None) with
  | Failure error => (mailboxes, Error error)
  | Success packet =>
      let recipient := recipient packet in
      let queue := default [] (mailboxes !! recipient) in
      (<[recipient := queue ++ [packet]]> mailboxes,
       Delivered (messageId (meta packet)) (encrypted (meta packet)) (signed (meta packet)))
  end.

(** One turn of the loop that decrypts the queued entries in place. *)
Definition decrypt_entry (S : MMTPServer) (email : string) (packet : Packet) : Packet :=
  if encrypted (meta packet) then
    match snd (processPacket (protocol S) packet (Some email)) with
    | Success processed => processed
    | Failure _ => packet
    end
  else packet.

Definition decrypt_pass (S : MMTPServer) (email : string) (queue : list Packet) : list Packet :=
  if usePGP S then map (decrypt_entry S email) queue else queue.

(** *** handleReceiveMail *)

Definition handleReceiveMail (S : MMTPServer) (mailboxes : Mailboxes) (email : string)
    : Mailboxes * Response :=
  if negb (validateEmailFormat email) then (mailboxes, Error "Invalid email format")
  else
    match mailboxes !! email with
    | None | Some [] => (mailboxes, Messages [] 0)
    | Some queue =>
        let queue := decrypt_pass S email queue in
        (delete email mailboxes, Messages queue (length queue))
    end.

(** *** handleReceiveFilteredMail *)

(** [tagFilters && Object.keys(tagFilters).length > 0] *)
Definition has_filters (tagFilters : option TagMap) : bool :=
  match tagFilters with
  | Some filters => negb (no_keys filters)
  | None => false
  end.

Definition same_messageId (m message : Packet) : bool :=
  String.eqb (messageId (meta m)) (messageId (meta message)).

Definition handleReceiveFilteredMail (S : MMTPServer) (mailboxes : Mailboxes)
    (email : string) (tagFilters : option TagMap) : Mailboxes * Response :=
  if negb (validateEmailFormat email) then (mailboxes, Error "Invalid email format")
  else
    match mailboxes !! email with
    | None | Some [] => (mailboxes, FilteredMessages [] 0 tagFilters)
    | Some queue =>
        let queue := decrypt_pass S email queue in
        if has_filters tagFilters then
          let filteredMessages := filterMessagesByTags queue tagFilters in
          let remaining :=
            List.filter (fun message =>
                           negb (existsb (fun m => same_messageId m message) filteredMessages))
                        queue in
          (<[email := remaining]> mailboxes,
           FilteredMessages filteredMessages (length filteredMessages) tagFilters)
        else
          (delete email mailboxes, FilteredMessages queue (length queue) tagFilters)
    end.

(** *** countMessagesByTags *)

Definition count_tag (counts : gmap string nat) (tag : string) : gmap string nat :=
  <[tag := default 0 (counts !! tag) + 1]> counts.

Definition count_category (counts : TagCounts) (entry : string * list string) : TagCounts :=
  let (category, tagList) := entry in
  <[category := fold_left count_tag tagList (default ∅ (counts !! category))]> counts.

Definition count_message (counts : TagCounts) (message : Packet) : TagCounts :=
  match tags (meta message) with
  | Some messageTagMap =>
      if no_keys messageTagMap then counts
      else fold_left count_category (map_to_list messageTagMap) counts
  | None => counts
  end.

Definition countMessagesByTags (messages : list Packet) : TagCounts :=
  fold_left count_message messages ∅.

(** *** handleCheckMail *)

Definition handleCheckMail (S : MMTPServer) (mailboxes : Mailboxes)
    (email : string) (tagFilters : option TagMap) : Mailboxes * Response :=
  if negb (validateEmailFormat email) then (mailboxes, Error "Invalid email format")
  else
    let messages := default [] (mailboxes !! email) in
    let tagCounts :=
      if (0 <? length messages)%nat then countMessagesByTags messages else ∅ in
    let filteredCount :=
      if (0 <? length messages)%nat && has_filters tagFilters
      then length (filterMessagesByTags messages tagFilters)
      else length messages in
    (mailboxes, Checked filteredCount (length messages) tagCounts).

(** *** handleRequest

    The dispatch on [request.action], for the four actions that read or write
    the mailboxes and for an unknown action. REGISTER_KEY, REQUEST_PUBLIC_KEY
    and GET_TAG_CATEGORIES leave the mailboxes alone and are not embedded. *)
Inductive Request : Type :=
  | SEND (packet : Packet)
  | RECEIVE (email : string)
  | RECEIVE_FILTERED (email : string) (tagFilters : option TagMap)
  | CHECK (email : string) (tagFilters : option TagMap)
  | UNKNOWN (action : string).

Definition handleRequest (S : MMTPServer) (mailboxes : Mailboxes) (request : Request)
    : Mailboxes * Response :=
  match request with
  | SEND packet => handleSendMail S mailboxes packet
  | RECEIVE email => handleReceiveMail S mailboxes email
  | RECEIVE_FILTERED email tagFilters => handleReceiveFilteredMail S mailboxes email tagFilters
  | CHECK email tagFilters => handleCheckMail S mailboxes email tagFilters
  | UNKNOWN _ => (mailboxes, Error "Unknown action")
  end.

(** Requests handled one after the other, with the responses in order. *)
Fixpoint handleRequests (S : MMTPServer) (mailboxes : Mailboxes) (requests : list Request)
    : Mailboxes * list Response :=
  match requests with
  | [] => (mailboxes, [])
  | request :: rest =>
      let (mailboxes', response) := handleRequest S mailboxes request in
      let (final, responses) := handleRequests S mailboxes' rest in
      (final, response :: responses)
  end.

(** *** handleConnection, with the 'close' and 'error' listeners it installs

    [connectionLimits] counts per remote address; [clients] is the set of
    registered sockets; [listeners] holds, for every socket whose 'close' and
    'error' listeners are installed and that has not closed yet, the
    [clientIp] the listeners closed over. A socket is named by a number;
    [remoteAddress] is the textual address [net] reports for it. *)
Record Socket : Type := MkSocket
  { socket_id : nat; remoteAddress : string; socket_encrypted : bool }.

Record Connections : Type := MkConnections
  { connectionLimits : gmap string Z;
    clients : gset nat;
    listeners : list (nat * string) }.

(** The frame written to a socket on connection. *)
Inductive Greeting : Type :=
  | RateLimited                          (* the error frame, then socket.end() *)
  | Ready (secure : bool) (tls pgp : bool).

Definition handleConnection (S : MMTPServer) (useTLS : bool) (st : Connections)
    (socket : Socket) : Connections * Greeting :=
  let clientIp := remoteAddress socket in
  let isEncrypted := socket_encrypted socket in
  let count := (default 0 (connectionLimits st !! clientIp) + 1)%Z in
  let limits := <[clientIp := count]> (connectionLimits st) in
  if (5 <? count)%Z then
    (MkConnections limits (clients st) (listeners st), RateLimited)
  else
    (MkConnections limits ({[socket_id socket]} ∪ clients st)
                   ((socket_id socket, clientIp) :: listeners st),
     Ready isEncrypted useTLS (usePGP S)).

(** The 'close' listener of a socket, if it has one. *)
Definition on_close (st : Connections) (sid : nat) : Connections :=
  match List.find (fun l => Nat.eqb (fst l) sid) (listeners st) with
  | Some (_, clientIp) =>
      MkConnections
        (<[clientIp := (default 0 (connectionLimits st !! clientIp) - 1)%Z]>
           (connectionLimits st))
        (clients st ∖ {[sid]})
        (List.filter (fun l => negb (Nat.eqb (fst l) sid)) (listeners st))
  | None => st
  end.

(** The 'error' listener of a socket, if it has one. *)
Definition on_error (st : Connections) (sid : nat) : Connections :=
  match List.find (fun l => Nat.eqb (fst l) sid) (listeners st) with
  | Some _ => MkConnections (connectionLimits st) (clients st ∖ {[sid]}) (listeners st)
  | None => st
  end.

Inductive SocketEvent : Type :=
  | Connects (socket : Socket)
  | Closes (sid : nat)
  | Fails (sid : nat).

(** The events of a run, one after the other, with the greeting of every
    connection. *)
Fixpoint handleEvents (S : MMTPServer) (useTLS : bool) (st : Connections)
    (events : list SocketEvent) : Connections * list (Socket * Greeting) :=
  match events with
  | [] => (st, [])
  | Connects socket :: rest =>
      let (st', greeting) := handleConnection S useTLS st socket in
      let (final, greetings) := handleEvents S useTLS st' rest in
      (final, (socket, greeting) :: greetings)
  | Closes sid :: rest => handleEvents S useTLS (on_close st sid) rest
  | Fails sid :: rest => handleEvents S useTLS (on_error st sid) rest
  end.

(** A server that has seen no connection. *)
Definition no_connections : Connections := MkConnections ∅ ∅ [].

(** The open connections of an address, and the connections of an address a
    run refused. *)
Definition open_from (ip : string) (st : Connections) : nat :=
  length (List.filter (fun l => String.eqb (snd l) ip) (listeners st)).

(** One for the refusal of a connection of the address, zero otherwise. *)
Definition refusal (ip : string) (socket : Socket) (greeting : Greeting) : nat :=
  if String.eqb (remoteAddress socket) ip
     && match greeting with RateLimited => true | Ready _ _ _ => false end
  then 1 else 0.

Definition refused_from (ip : string) (greetings : list (Socket * Greeting)) : nat :=
  length (List.filter
            (fun g => String.eqb (remoteAddress (fst g)) ip
                      && match snd g with RateLimited => true | Ready _ _ _ => false end)
            greetings).

(** What a run keeps true: the sockets with listeners are all different, no
    address has more than five of them, and the counter of an address is the
    number of its sockets with listeners plus the number of its connections
    refused so far. *)
Definition accounted (st : Connections) (refused : string -> nat) : Prop :=
  NoDup (map fst (listeners st))
  /\ forall ip : string,
       default 0%Z (connectionLimits st !! ip)
       = (Z.of_nat (open_from ip st) + Z.of_nat (refused ip))%Z
       /\ open_from ip st <= 5.

(** The sockets that connect in a run. *)
Fixpoint connecting (events : list SocketEvent) : list nat :=
  match events with
  | [] => []
  | Connects socket :: rest => socket_id socket :: connecting rest
  | _ :: rest => connecting rest
  end.

(** A run of CHECK requests, each an address and its optional filters. *)
Definition checks (l : list (string * option TagMap)) : list Request :=
  map (fun q => CHECK (fst q) (snd q)) l.

End Server.

(** ** The client (class MMTPClient): the request correlator *)

Module Client.
Import Protocol.

(** What [waitingResponses] keeps of a call: the promise its [resolve] and
    [reject] settle, and the timer of its timeout. *)
Record Tracker : Type := MkTracker
  { promise : nat; timeout : nat }.

(** A JavaScript [Map] from action name to tracker: one entry per key, in
    the order the keys were first set. *)
Abbreviation WaitingResponses := (list (string * Tracker)).

(** [map.set(key, value)]: an existing key keeps its place. *)
Fixpoint Map_set (key : string) (value : Tracker) (m : WaitingResponses) : WaitingResponses :=
  match m with
  | [] => [(key, value)]
  | (k, v) :: rest =>
      if String.eqb k key then (k, value) :: rest
      else (k, v) :: Map_set key value rest
  end.

(** [map.delete(key)] *)
Definition Map_delete (key : string) (m : WaitingResponses) : WaitingResponses :=
  List.filter (fun entry => negb (String.eqb (fst entry) key)) m.

(** A parsed frame of the server. *)
Record Response : Type := MkResponse
  { status : string;
    message : option string;
    email : option string;
    publicKey : option string;
    messages : option (list Packet);
    tagFilters : option TagMap;
    features : option (bool * bool) }.

Definition set_messages (l : list Packet) (r : Response) : Response :=
  MkResponse (status r) (message r) (email r) (publicKey r) (Some l) (tagFilters r)
             (features r).

(** What a handler does to the promises and timers. *)
Inductive Effect : Type :=
  | ClearTimeout (timer : nat)
  | Resolve (promise : nat) (value : Response)
  | Reject (promise : nat) (error : string)
  | ResolveConnect (features : option (bool * bool)).

Record MMTPClient : Type := MkClient
  { protocol : MMTPProtocol;
    waitingResponses : WaitingResponses;
    serverFeatures : option (bool * bool) }.

Definition set_waitingResponses (m : WaitingResponses) (C : MMTPClient) : MMTPClient :=
  MkClient (protocol C) m (serverFeatures C).

(** The last statement of the executor of every request builder ([sendMail]
    with 'SEND', [checkMail] with 'CHECK', ...):
    [this.waitingResponses.set(action, { resolve, reject, timeout })]. *)
Definition track (action : string) (t : Tracker) (C : MMTPClient) : MMTPClient :=
  set_waitingResponses (Map_set action t (waitingResponses C)) C.

(** The callback of [setTimeout]: it rejects and leaves the table as it is. *)
Definition timeout_fires (t : Tracker) (C : MMTPClient) : MMTPClient * list Effect :=
  (C, [Reject (promise t) "Request timed out"]).

(** *** handleResponse

    The loop over [waitingResponses.entries()] breaks at the end of its first
    turn. The settlement after [importPublicKey] happens when that promise
    settles; it is recorded at once here. *)
Definition settle (C : MMTPClient) (action : string) (t : Tracker) (response : Response)
    : list Effect :=
  if String.eqb (status response) "ERROR" then
    [Reject (promise t) (default EmptyString (message response))]
  else if String.eqb action "REQUEST_PUBLIC_KEY" && Js.truthy (publicKey response) then
    match importPublicKey (protocol C) (default "undefined" (email response))
                          (default EmptyString (publicKey response)) with
    | Returns _ => [Resolve (promise t) response]
    | Throws error => [Reject (promise t) error]
    end
  else if String.eqb action "RECEIVE_FILTERED" then
    match messages response with
    | Some l =>
        match tagFilters response with
        | Some filters =>
            [Resolve (promise t)
                     (set_messages (filterMessagesByTags l (Some filters)) response)]
        | None => [Resolve (promise t) response]
        end
    | None => [Resolve (promise t) response]
    end
  else [Resolve (promise t) response].

Definition handleResponse (C : MMTPClient) (response : Response)
    : MMTPClient * list Effect :=
  match waitingResponses C with
  | [] => (C, [])
  | (action, t) :: _ =>
      (set_waitingResponses (Map_delete action (waitingResponses C)) C,
       ClearTimeout (timeout t) :: settle C action t response)
  end.

(** *** The 'data' handler installed by setupSocketHandlers *)

Definition is_welcome (response : Response) : bool :=
  String.eqb (status response) "OK"
  && Js.truthy (message response)
  && Js.includes (default EmptyString (message response)) "MMTP Server Ready".

Definition on_data (C : MMTPClient) (response : Response) : MMTPClient * list Effect :=
  if is_welcome response then
    (MkClient (protocol C) (waitingResponses C) (features response),
     [ResolveConnect (features response)])
  else handleResponse C response.

(** *** Promises

    The first call of the [resolve] or [reject] of a promise settles it;
    later calls do nothing. *)
Definition settles (p : nat) (e : Effect) : bool :=
  match e with
  | Resolve q _ | Reject q _ => Nat.eqb q p
  | ClearTimeout _ | ResolveConnect _ => false
  end.

Definition settlement (p : nat) (effects : list Effect) : option Effect :=
  List.find (settles p) effects.

End Client.

(** ** The gateway (classes BMTPBridge and MMTPBridgeExtension) *)

Module Bridge.
Import Protocol.

(** [s.split(sep)] for a separator of one character. *)
Fixpoint split (sep : ascii) (s : string) : list string :=
  match s with
  | EmptyString => [EmptyString]
  | String c rest =>
      if Ascii.eqb c sep then EmptyString :: split sep rest
      else match split sep rest with
           | piece :: more => String c piece :: more
           | [] => [String c EmptyString]
           end
  end.

(** [const [username, domain] = smtpAddress.split('@')]; a missing piece
    prints as undefined. *)
Definition convertToMMTPAddress (smtpAddress : string) : string :=
  let pieces := split "@" smtpAddress in
  let username := nth 0 pieces "undefined" in
  let domain := nth 1 pieces "undefined" in
  "(" +:+ username +:+ ")%(" +:+ domain +:+ ")".

Definition convertToSMTPAddress (mmtpAddress : string) : Outcome string :=
  match match_address mmtpAddress with
  | Some (username, domain) => Returns (username +:+ "@" +:+ domain)
  | None => Throws ("Invalid MMTP address format: " +:+ mmtpAddress)
  end.

Definition convertMMTPPriorityToSMTP (priority : string) : string :=
  if String.eqb priority "high" then "1"
  else if String.eqb priority "medium" then "3"
  else if String.eqb priority "low" then "5"
  else "3".

End Bridge.

(** ** The key store: the public key files and the cache of parsed keys

    getPublicKey and importPublicKey of the protocol engine, and the
    REGISTER_KEY and REQUEST_PUBLIC_KEY handlers of the server, over the state
    they share. A file of the key store directory is named by its name in that
    directory: for an address validateEmailFormat accepts, which holds no path
    separator, [path.join(keyStorePath, name)] is that file. Reading and
    writing the directory succeed; [openpgp.readKey] is an oracle that returns
    the parsed key or the message of the error it throws. *)

Module Keys.
Import Protocol.

Section Engine.
Context {Key : Type}.
Variable readKey : string -> Key + string.

Record Store : Type := MkStore
  { files : gmap string string;          (* the files of keyStorePath *)
    publicKeys : gmap string Key }.      (* this.publicKeys, a Map *)

Definition getPublicKeyPath (email : string) : string := email +:+ ".pub.asc".

Definition getPrivateKeyPath (email : string) : string := email +:+ ".priv.asc".

Definition getPublicKey (P : MMTPProtocol) (st : Store) (email : string)
    : Store * Outcome (option Key) :=
  if negb (usePGP P) then (st, Returns None)
  else
    match publicKeys st !! email with
    | Some publicKey => (st, Returns (Some publicKey))
    | None =>
        match files st !! getPublicKeyPath email with
        | Some publicKeyArmored =>
            match readKey publicKeyArmored with
            | inl publicKey =>
                (MkStore (files st) (<[email := publicKey]> (publicKeys st)),
                 Returns (Some publicKey))
            | inr message => (st, Throws message)
            end
        | None => (st, Returns None)
        end
    end.

Definition importPublicKey (P : MMTPProtocol) (st : Store) (email publicKeyArmored : string)
    : Store * Outcome unit :=
  if negb (usePGP P) then (st, Throws "PGP support is not enabled")
  else
    match readKey publicKeyArmored with
    | inl publicKey =>
        (MkStore (<[getPublicKeyPath email := publicKeyArmored]> (files st))
                 (<[email := publicKey]> (publicKeys st)),
         Returns tt)
    | inr message => (st, Throws message)
    end.

(** What the two handlers write to the socket. *)
Inductive KeyResponse : Type :=
  | KeyError (message : string)
  | Registered                              (* 'Public key registered successfully' *)
  | PublicKey (email publicKey : string).

Definition handleRegisterKey (S : Server.MMTPServer) (st : Store) (email publicKey : string)
    : Store * KeyResponse :=
  if negb (Server.usePGP S) then
    (st, KeyError "PGP support is not enabled on this server")
  else if negb (validateEmailFormat email) then (st, KeyError "Invalid email format")
  else
    match importPublicKey (Server.protocol S) st email publicKey with
    | (st', Returns _) => (st', Registered)
    | (st', Throws message) => (st', KeyError ("Failed to register key: " +:+ message))
    end.

Definition handleRequestPublicKey (S : Server.MMTPServer) (st : Store) (email : string)
    : Store * KeyResponse :=
  if negb (Server.usePGP S) then
    (st, KeyError "PGP support is not enabled on this server")
  else if negb (validateEmailFormat email) then (st, KeyError "Invalid email format")
  else
    match files st !! getPublicKeyPath email with
    | None => (st, KeyError "Public key not found for this email")
    | Some publicKey => (st, PublicKey email publicKey)
    end.

(** What getPublicKey answers when it goes to the file. *)
Definition read_through (st : Store) (email : string) : Outcome (option Key) :=
  match files st !! getPublicKeyPath email with
  | Some publicKeyArmored =>
      match readKey publicKeyArmored with
      | inl publicKey => Returns (Some publicKey)
      | inr message => Throws message
      end
  | None => Returns None
  end.

(** The operations on the key store a server runs: a REGISTER_KEY request,
    a REQUEST_PUBLIC_KEY request, and a getPublicKey of the engine. *)
Inductive KeyOp : Type :=
  | Registers (email publicKey : string)
  | Requests (email : string)
  | Looks (email : string).

Definition step (S : Server.MMTPServer) (st : Store) (op : KeyOp) : Store :=
  match op with
  | Registers email publicKey => fst (handleRegisterKey S st email publicKey)
  | Requests email => fst (handleRequestPublicKey S st email)
  | Looks email => fst (getPublicKey (Server.protocol S) st email)
  end.

Definition run (S : Server.MMTPServer) (st : Store) (ops : list KeyOp) : Store :=
  fold_left (step S) ops st.

(** The addresses a run looks up are addresses validateEmailFormat accepts. *)
Definition valid_op (op : KeyOp) : bool :=
  match op with
  | Looks email => validateEmailFormat email
  | Registers _ _ | Requests _ => true
  end.

(** Every cached key is the parsed content of the file of its address. *)
Definition coherent (st : Store) : Prop :=
  forall (email : string) (publicKey : Key),
    publicKeys st !! email = Some publicKey ->
    validateEmailFormat email = true
    /\ exists publicKeyArmored : string,
         files st !! getPublicKeyPath email = Some publicKeyArmored
         /\ readKey publicKeyArmored = inl publicKey.

End Engine.

Arguments Store Key : clear implicits.

End Keys.

(** ** The gateway extension of the server: SEND with a relay to SMTP *)

Module Extension.
Import Protocol Server.

(** The message handed to [smtpTransporter.sendMail]; an absent field is
    undefined in the source. *)
Record SmtpMessage : Type := MkSmtpMessage
  { from : string;
    to : string;
    subject : option string;
    text : option string;
    X_MMTP_MessageId : string;
    X_MMTP_Timestamp : N;
    X_MMTP_Signature : string;
    X_Priority : option string;
    X_MMTP_Category : option string }.

(** [sendMail] is the transporter: [None] when it accepts the message, the
    message of the error when it throws. *)
Record MMTPBridgeExtension : Type := MkExtension
  { server : MMTPServer;
    domainMapping : gmap string bool;
    sendMail : SmtpMessage -> option string }.

(** [this.domainMapping[domain]] as a condition: the own property when there
    is one, and a function, which is truthy, for an inherited name. *)
Definition mapped (E : MMTPBridgeExtension) (domain : string) : bool :=
  match domainMapping E !! domain with
  | Some flag => flag
  | None => Js.inherited domain
  end.

(** [arr.join(', ')] *)
Fixpoint join (l : list string) : string :=
  match l with
  | [] => EmptyString
  | [x] => x
  | x :: rest => x +:+ ", " +:+ join rest
  end.

(** [o.tags[category]] when it is a non-empty array. *)
Definition listed (packet : Packet) (category : string) : option (list string) :=
  match tags (meta packet) with
  | Some m =>
      match m !! category with
      | Some (tag :: more) => Some (tag :: more)
      | Some [] | None => None
      end
  | None => None
  end.

(** The message sendToSMTP builds, or the error it throws before it has one. *)
Definition smtp_message (mmtpPacket : Packet) : Outcome SmtpMessage :=
  match Bridge.convertToSMTPAddress (sender mmtpPacket) with
  | Throws message => Throws message
  | Returns smtpSender =>
      match Bridge.convertToSMTPAddress (recipient mmtpPacket) with
      | Throws message => Throws message
      | Returns smtpRecipient =>
          if encrypted (meta mmtpPacket) then
            Throws "Cannot send encrypted MMTP messages to SMTP recipients"
          else
            let (subject, body) :=
              match content mmtpPacket with
              | Plain subject body => (Some subject, Some body)
              | Ciphertext _ => (None, None)
              end in
            Returns
              (MkSmtpMessage smtpSender smtpRecipient subject body
                 (messageId (meta mmtpPacket)) (timestamp (meta mmtpPacket))
                 (if signed (meta mmtpPacket) then "Verified" else "Unsigned")
                 (match listed mmtpPacket "priority" with
                  | Some (first :: _) => Some (Bridge.convertMMTPPriorityToSMTP first)
                  | _ => None
                  end)
                 (match listed mmtpPacket "category" with
                  | Some l => Some (join l)
                  | None => None
                  end))
      end
  end.

(** sendToSMTP: the messages handed to the transporter, and how the call
    ends. *)
Definition sendToSMTP (E : MMTPBridgeExtension) (mmtpPacket : Packet)
    : list SmtpMessage * Outcome unit :=
  match smtp_message mmtpPacket with
  | Throws message => ([], Throws message)
  | Returns message =>
      match sendMail E message with
      | None => ([message], Returns tt)
      | Some error => ([message], Throws error)
      end
  end.

(** What the handler writes to the socket: a frame of the server's own
    handler, or the frame of a relayed message. *)
Inductive Answer : Type :=
  | Local (response : Response)
  | ViaSMTP (messageId : string) (encrypted signed : bool).

Definition handleSendMail (E : MMTPBridgeExtension) (mailboxes : Mailboxes) (packet : Packet)
    : Mailboxes * list SmtpMessage * Answer :=
  match snd (processPacket (protocol (server E)) packet None) with
  | Failure error => (mailboxes, [], Local (Error error))
  | Success packet =>
      let recipient := recipient packet in
      match match_address recipient with
      | None => (mailboxes, [], Local (Error "Invalid recipient format"))
      | Some (username, domain) =>
          if mapped E domain then
            match sendToSMTP E packet with
            | (sent, Returns _) =>
                (mailboxes, sent,
                 ViaSMTP (messageId (meta packet)) (encrypted (meta packet))
                         (signed (meta packet)))
            | (sent, Throws message) =>
                (mailboxes, sent, Local (Error ("SMTP delivery failed: " +:+ message)))
            end
          else
            let queue := default [] (mailboxes !! recipient) in
            (<[recipient := queue ++ [packet]]> mailboxes, [],
             Local (Delivered (messageId (meta packet)) (encrypted (meta packet))
                              (signed (meta packet))))
      end
  end.

End Extension.

(** ** The address syntax, spelled out *)

Module AddressSpec.

(** Every character of a string is of a class. *)
Fixpoint all_of (p : ascii -> bool) (s : string) : bool :=
  match s with
  | EmptyString => true
  | String c rest => p c && all_of p rest
  end.

(** Where a span stops: at the end, or before a character outside the
    class. *)
Definition stops (p : ascii -> bool) (s : string) : Prop :=
  match s with
  | EmptyString => True
  | String c _ => p c = false
  end.

(** [(local)%(domain)] with a non-empty local part over [a-zA-Z0-9._-] and a
    non-empty domain over [a-zA-Z0-9.-]. *)
Definition well_formed (email localPart domain : string) : Prop :=
  email = "(" +:+ localPart +:+ ")%(" +:+ domain +:+ ")"
  /\ localPart <> EmptyString /\ domain <> EmptyString
  /\ all_of Protocol.local_char localPart = true
  /\ all_of Protocol.domain_char domain = true.

End AddressSpec.

(** ** Tag matching, in the words of the specification *)

Module TagSpec.
Import Protocol.

(** The tags a message has in a category: none when it has no tag mapping or
    the mapping lacks the category. *)
Definition message_tags (message : Packet) (category : string) : list string :=
  match tags (meta message) with
  | Some messageTagMap => default [] (messageTagMap !! category)
  | None => []
  end.

(** At least one tag in common. *)
Definition shares_tag (messageTags filterTags : list string) : Prop :=
  exists tag : string, tag ∈ filterTags /\ tag ∈ messageTags.

(** A message matches iff, for every filter category, it has at least one tag
    in common with that category's filter values. *)
Definition matches (filters : TagMap) (message : Packet) : Prop :=
  forall (category : string) (filterTags : list string),
    filters !! category = Some filterTags ->
    shares_tag (message_tags message category) filterTags.

(** A message with no tags at all. *)
Definition has_no_tags (message : Packet) : Prop :=
  forall category : string, message_tags message category = [].

(** How many times a tag occurs in a list of tags. *)
Fixpoint occurrences (tag : string) (l : list string) : nat :=
  match l with
  | [] => 0
  | x :: rest => (if String.eqb x tag then 1 else 0) + occurrences tag rest
  end.

(** How many times the messages of a list carry a tag in a category. *)
Fixpoint tag_total (category tag : string) (messages : list Packet) : nat :=
  match messages with
  | [] => 0
  | message :: rest =>
      occurrences tag (message_tags message category) + tag_total category tag rest
  end.

(** The count a histogram holds for a tag of a category, 0 when it holds
    none. *)
Definition count_at (counts : gmap string (gmap string nat)) (category tag : string) : nat :=
  default 0 (counts !! category ≫= fun inner => inner !! tag).

(** Every count a histogram holds is at least one. *)
Definition positive_counts (counts : gmap string (gmap string nat)) : Prop :=
  forall (category tag : string) (n : nat),
    counts !! category ≫= (fun inner => inner !! tag) = Some n -> 0 < n.

(** No category of a mapping bears an inherited name. *)
Definition own_categories (m : TagMap) : bool :=
  forallb (fun entry : string * list string => negb (Js.inherited (fst entry)))
          (map_to_list m).

Definition own_input (input : TagInput) : bool :=
  match input with
  | TagsObject m => own_categories m
  | TagsAbsent | TagsArray _ => true
  end.

Definition own_filters (tagFilters : option TagMap) : bool :=
  match tagFilters with
  | Some filters => own_categories filters
  | None => true
  end.

(** Neither a category nor a tag of a message bears an inherited name. *)
Definition plain_tags (m : TagMap) : bool :=
  forallb (fun entry : string * list string =>
             negb (Js.inherited (fst entry))
             && forallb (fun tag => negb (Js.inherited tag)) (snd entry))
          (map_to_list m).

Definition plain_message (message : Packet) : bool :=
  match tags (meta message) with
  | Some m => plain_tags m
  | None => true
  end.

#[global] Instance shares_tag_dec (messageTags filterTags : list string) :
  Decision (shares_tag messageTags filterTags).
Proof.
  destruct (decide (Exists (fun tag => tag ∈ messageTags) filterTags)) as [H | H];
    [left | right]; rewrite Exists_exists in H; exact H.
Defined.

#[global] Instance matches_dec (filters : TagMap) (message : Packet) :
  Decision (matches filters message).
Proof.
  change (Decision
            (map_Forall (fun category filterTags =>
                           shares_tag (message_tags message category) filterTags)
                        filters)).
  apply _.
Defined.

End TagSpec.

(** ** Sample instances, used to run the definitions on concrete inputs *)

Module Sample.
Import Protocol.

(** A key store with no key file; an armored key is imported when it opens
    with the OpenPGP public-key header. *)
Definition bare_store : KeyStore :=
  MkKeyStore (fun _ _ => NoPrivateKey) (fun _ _ => None) (fun _ _ => None)
             (fun _ _ _ => None)
             (fun _ armored =>
                if Js.startsWith armored "-----BEGIN PGP PUBLIC KEY BLOCK-----"
                then None else Some "Misformed armored text").

Definition engine (d : nat) (pgp : bool) : MMTPProtocol := MkProtocol d pgp bare_store.

Definition a_x : string := "(a)%(x.com)".
Definition b_x : string := "(b)%(x.com)".
Definition c_y : string := "(c)%(y.org)".
Definition d_y : string := "(d)%(y.org)".
Definition t0 : N := 1700000000000.

Definition no_options : Options := MkOptions TagsAbsent false false.

(** A packet from (c)%(y.org) to (d)%(y.org) stamped 1, carrying a token that
    was computed for (a)%(x.com), (b)%(x.com) and [t0], with the counter field
    overwritten. *)
Definition borrowed_token : HashCashToken :=
  MkToken "1:2:1700000000000:(a)%(x.com):(b)%(x.com):1700000000000::75:" 0.

Definition borrowed_packet : Packet :=
  MkPacket (MkMeta "SEND" "00" 1 borrowed_token false false None false (Some ∅))
           c_y d_y (Plain "Hi" "Yo")
           (MkVerification (generateSHA256 (stringify_content (Plain "Hi" "Yo"))) None).

(** The packet of the end-to-end scenario: "Hi" / "Yo" from (a)%(x.com) to
    (b)%(x.com) at [t0], difficulty 2, no tags, no PGP. *)
Definition hi_packet : Packet :=
  MkPacket
    (MkMeta "SEND" "000102030405060708090a0b0c0d0e0f" t0
            (MkToken "1:2:1700000000000:(a)%(x.com):(b)%(x.com):1700000000000::75:" 75)
            false false None false (Some ∅))
    a_x b_x (Plain "Hi" "Yo")
    (MkVerification "83e3a3320f3f0f041bb33dd8d1120b071b016c10e4fd6c10e7aee0801d610775"
                    None).

(** "Hi" / "Yo!" under the hash of "Hi" / "Yo". *)
Definition tampered_packet : Packet :=
  MkPacket (meta hi_packet) a_x b_x (Plain "Hi" "Yo!") (verification hi_packet).

(** The packet of the scenario with the token of counter 0, whose digest does
    not open with "00". *)
Definition unworked_packet : Packet :=
  MkPacket
    (MkMeta "SEND" "000102030405060708090a0b0c0d0e0f" t0
            (MkToken "1:2:1700000000000:(a)%(x.com):(b)%(x.com):1700000000000::0:" 0)
            false false None false (Some ∅))
    a_x b_x (Plain "Hi" "Yo") (verification hi_packet).

Definition tagged (id : string) (t : option TagMap) : Packet :=
  MkPacket (MkMeta "SEND" id t0 (hashcashToken (meta hi_packet)) false false None false t)
           a_x b_x (Plain "Hi" "Yo") (verification hi_packet).

(** A message tagged {category: ["promotion"]}, a message with an empty tag
    mapping, a message tagged {priority: ["high"]}, and the filter
    {category: ["promotion", "coupon"]}. *)
Definition promo : Packet := tagged "01" (Some {[ "category" := ["promotion"] ]}).
Definition untagged : Packet := tagged "02" (Some ∅).
Definition urgent : Packet := tagged "03" (Some {[ "priority" := ["high"] ]}).
Definition promo_filter : TagMap := {[ "category" := ["promotion"; "coupon"] ]}.

(** The packet of the scenario readdressed to "bob@example.com". *)
Definition misaddressed_packet : Packet :=
  MkPacket (meta hi_packet) a_x "bob@example.com" (Plain "Hi" "Yo") (verification hi_packet).

Definition server (d : nat) (pgp : bool) : Server.MMTPServer :=
  Server.MkServer (engine d pgp) pgp.

(** A mailbox table holding one packet for (b)%(x.com). *)
Definition one_mail : gmap string (list Packet) := {[ b_x := [hi_packet] ]}.

(** A client waiting for a public key, then for a SEND; and a frame with
    status OK whose publicKey is not an armored key. *)
Definition key_client : Client.MMTPClient :=
  Client.MkClient (engine 2 true)
    [("REQUEST_PUBLIC_KEY", Client.MkTracker 1 1); ("SEND", Client.MkTracker 2 2)] None.

Definition bad_key_frame : Client.Response :=
  Client.MkResponse "OK" None (Some b_x) (Some "not a key") None None None.

(** A client waiting for a CHECK, then for a SEND; and the frame of a
    delivered SEND. *)
Definition check_client : Client.MMTPClient :=
  Client.MkClient (engine 2 false)
    [("CHECK", Client.MkTracker 1 1); ("SEND", Client.MkTracker 2 2)] None.

Definition delivered_frame : Client.Response :=
  Client.MkResponse "OK" (Some "Message delivered successfully") None None None None None.

(** The packet of the scenario readdressed to a mapped domain, and to a
    domain that bears an inherited name. *)
Definition gmail_packet : Packet :=
  MkPacket (meta hi_packet) a_x "(bob)%(gmail.com)" (Plain "Hi" "Yo") (verification hi_packet).

Definition toString_packet : Packet :=
  MkPacket (meta hi_packet) a_x "(bob)%(toString)" (Plain "Hi" "Yo") (verification hi_packet).

(** The packet for the mapped domain flagged signed, with a signature; and a
    key store that has a key for every sender and finds every signature
    wrong. *)
Definition forged_packet : Packet :=
  MkPacket
    (MkMeta "SEND" "000102030405060708090a0b0c0d0e0f" t0 (hashcashToken (meta hi_packet))
            false true None false (Some ∅))
    a_x "(bob)%(gmail.com)" (Plain "Hi" "Yo")
    (MkVerification (messageHash (verification hi_packet)) (Some "forged")).

Definition rejecting_store : KeyStore :=
  MkKeyStore (fun _ _ => NoPrivateKey) (fun _ _ => None) (fun _ _ => None)
             (fun _ _ _ => Some false) (fun _ _ => None).

(** A gateway with the default domain mapping and a transporter that accepts
    every message. *)
Definition gateway (keys : KeyStore) (pgp : bool) : Extension.MMTPBridgeExtension :=
  Extension.MkExtension
    (Server.MkServer (MkProtocol 2 pgp keys) pgp)
    {[ "gmail.com" := true; "outlook.com" := true; "yahoo.com" := true ]}
    (fun _ => None).

(** An OpenPGP engine whose keys are the armored texts that open with the
    public-key header. *)
Definition readKey (armoredKey : string) : string + string :=
  if Js.startsWith armoredKey "-----BEGIN PGP PUBLIC KEY BLOCK-----"
  then inl armoredKey else inr "Misformed armored text".

Definition armored_key : string := "-----BEGIN PGP PUBLIC KEY BLOCK-----".

Definition no_keys_yet : Keys.Store string := Keys.MkStore ∅ ∅.

(** Six connections from one address, then the first of them closes. *)
Definition six_then_close : list Server.SocketEvent :=
  map (fun i => Server.Connects (Server.MkSocket i "10.0.0.1" false)) [1; 2; 3; 4; 5; 6]
  ++ [Server.Closes 1].

End Sample.

(** * Properties *)

(** ** The digest agrees with the published test vectors *)

Example sha256_abc :
  Sha256.sha256_hex "abc"
  = "ba7816bf8f01cfea414140de5dae2223b00361a396177a9cb410ff61f20015ad".
Proof. vm_compute. reflexivity. Qed.

Example sha256_empty :
  Sha256.sha256_hex ""
  = "e3b0c44298fc1c149afbf4c8996fb92427ae41e4649b934ca495991b7852b855".
Proof. vm_compute. reflexivity. Qed.

Example sha256_two_blocks :
  Sha256.sha256_hex "abcdbcdecdefdefgefghfghighijhijkijkljklmklmnlmnomnopnopq"
  = "248d6a61d20638b8e5c026930c3e6039a33ce45964ff2167f6ecedd419db06c1".
Proof. vm_compute. reflexivity. Qed.

(** ** Strings *)

Lemma append_cons (x : ascii) (a b : string) : String x a +:+ b = String x (a +:+ b).
Proof. reflexivity. Qed.

Lemma append_assoc (a b c : string) : (a +:+ b) +:+ c = a +:+ (b +:+ c).
Proof.
  induction a as [|x a IH]; [reflexivity |].
  rewrite !append_cons. f_equal. exact IH.
Qed.

Lemma repeat_zero_succ (d : nat) :
  Js.repeat "0" (S d) = String "0" (Js.repeat "0" d).
Proof. reflexivity. Qed.

Lemma prefix_cons (a b : ascii) (p h : string) :
  String.prefix (String a p) (String b h)
  = if ascii_dec a b then String.prefix p h else false.
Proof. reflexivity. Qed.

Lemma leading_zeros_cons (c : ascii) (h : string) :
  Js.leading_zeros (String c h)
  = if Ascii.eqb c "0" then S (Js.leading_zeros h) else O.
Proof. reflexivity. Qed.

(** [startsWith] against a run of zeros counts the leading zeros. *)
Lemma startsWith_zeros (d : nat) (h : string) :
  Js.startsWith h (Js.repeat "0" d) = true <-> d <= Js.leading_zeros h.
Proof.
  unfold Js.startsWith. revert h.
  induction d as [|d IH]; intros h.
  - destruct h; split; intros; [lia | reflexivity | lia | reflexivity].
  - rewrite repeat_zero_succ. destruct h as [|c h].
    + split; intros H; [discriminate H | simpl in H; lia].
    + rewrite prefix_cons, leading_zeros_cons.
      destruct (ascii_dec "0" c) as [<- | Hne].
      * rewrite Ascii.eqb_refl, IH. lia.
      * destruct (Ascii.eqb_spec c "0") as [-> | _]; [congruence |].
        split; intros H; [discriminate H | lia].
Qed.

(** ** HashCash *)

Section HashCash.
Import Protocol.
Variable P : MMTPProtocol.
Variables sender recipient : string.
Variable timestamp : N.

Let tok (c : N) : string := token_string (difficulty P) sender recipient timestamp c.
Let good (c : N) : bool := meets_difficulty (difficulty P) (tok c).

(** A decidable property of counters that holds somewhere holds at a least
    counter. *)
Lemma least_counter (p : N -> bool) (n : nat) :
  (forall j, (N.to_nat j < n)%nat -> p j = false)
  \/ exists c, (N.to_nat c < n)%nat /\ p c = true /\ forall j, (j < c)%N -> p j = false.
Proof.
  induction n as [|n [IH | (c & Hc & Hp & Hmin)]].
  - left. intros j Hj. lia.
  - destruct (p (N.of_nat n)) eqn:Hn.
    + right. exists (N.of_nat n). split; [lia |]. split; [assumption |].
      intros j Hj. apply IH. lia.
    + left. intros j Hj.
      destruct (decide (N.to_nat j = n)) as [<- | Hne].
      * now rewrite N2Nat.id in Hn.
      * apply IH. lia.
  - right. exists c. split; [lia |]. split; assumption.
Qed.

(** The loop started at [k] returns the first good counter at or after [k],
    as soon as the fuel covers the distance. *)
Lemma generateHashCash_from_step (fuel : nat) (k : N) :
  generateHashCash_from (S fuel) P sender recipient timestamp k
  = if good k then Some (MkToken (tok k) k)
    else generateHashCash_from fuel P sender recipient timestamp (Js.increment k).
Proof. reflexivity. Qed.

Lemma generateHashCash_from_finds (n : nat) :
  forall (k : N) (fuel : nat),
    (k + N.of_nat n <= Js.two53)%N ->
    good (k + N.of_nat n) = true ->
    (forall j, (k <= j < k + N.of_nat n)%N -> good j = false) ->
    (n < fuel)%nat ->
    generateHashCash_from fuel P sender recipient timestamp k
    = Some (MkToken (tok (k + N.of_nat n)) (k + N.of_nat n)).
Proof.
  induction n as [|n IH]; intros k fuel Hbound Hgood Hbad Hfuel;
    (destruct fuel as [|fuel]; [lia |]); rewrite generateHashCash_from_step.
  - replace (k + N.of_nat 0)%N with k in * by lia.
    now rewrite Hgood.
  - rewrite (Hbad k) by lia.
    assert (Js.increment k = (k + 1)%N) as ->.
    { unfold Js.increment. destruct (N.eqb_spec k Js.two53); [lia | reflexivity]. }
    replace (k + N.of_nat (S n))%N with (k + 1 + N.of_nat n)%N in * by lia.
    apply IH; try assumption; try lia.
    intros j Hj. apply Hbad. lia.
Qed.

(** The token string of a counter, written out. *)
Lemma token_string_format (c : N) :
  tok c
  = "1:" +:+ Js.Number_toString (N.of_nat (difficulty P)) +:+ ":"
      +:+ Js.Number_toString timestamp +:+ ":"
      +:+ sender +:+ ":" +:+ recipient +:+ ":" +:+ Js.Number_toString timestamp
      +:+ "::" +:+ Js.Number_toString c +:+ ":".
Proof.
  unfold tok, token_string.
  change (Js.Number_toString version) with "1".
  rewrite !append_assoc. reflexivity.
Qed.

(** The search returns the least good counter once the fuel exceeds it. *)
Lemma generateHashCash_returns :
  (exists c, (c <= Js.two53)%N
             /\ difficulty P <= Js.leading_zeros (generateSHA256 (tok c))) ->
  exists c0 : N,
    good c0 = true
    /\ (forall j, (j < c0)%N -> good j = false)
    /\ (forall fuel, N.to_nat c0 < fuel ->
          generateHashCash fuel P sender recipient timestamp
          = Some (MkToken (tok c0) c0)).
Proof.
  intros (c & Hc & Hzeros).
  assert (good c = true) as Hgood by (apply startsWith_zeros; exact Hzeros).
  destruct (least_counter good (S (N.to_nat c))) as [Hnone | (c0 & Hc0 & Hg0 & Hmin)].
  { rewrite Hnone in Hgood by lia. discriminate. }
  exists c0. split; [exact Hg0 |]. split; [exact Hmin |].
  intros fuel Hfuel. unfold generateHashCash.
  pose proof (generateHashCash_from_finds (N.to_nat c0) 0 fuel) as H.
  rewrite N2Nat.id, N.add_0_l in H. apply H; try assumption; try lia.
  intros j Hj. apply Hmin. lia.
Qed.


End HashCash.


Example generateHashCash_sample :
  Protocol.generateHashCash 76 (Sample.engine 2 false) Sample.a_x Sample.b_x Sample.t0
  = Some (Protocol.MkToken
            "1:2:1700000000000:(a)%(x.com):(b)%(x.com):1700000000000::75:" 75).
Proof. vm_compute. reflexivity. Qed.

Section VerifyHashCash.
Import Protocol.

Lemma verifyHashCash_unfold (P : MMTPProtocol) (packet : Packet) :
  verifyHashCash P packet
  = meets_difficulty (difficulty P) (token (hashcashToken (meta packet))).
Proof. reflexivity. Qed.

(** C2. verifyHashCash returns true iff the SHA-256 hex digest of the stored
    token string has at least [difficulty] leading '0' characters; two packets
    carrying the same token string get the same verdict whatever their sender,
    recipient, timestamp and counter fields are; and a packet whose token was
    computed for another sender, recipient and timestamp, and whose counter
    field was overwritten, passes. *)
Theorem verifyHashCash_reads_only_token :
  (forall (P : MMTPProtocol) (packet : Packet),
     verifyHashCash P packet = true
     <-> difficulty P
         <= Js.leading_zeros (generateSHA256 (token (hashcashToken (meta packet)))))
  /\ (forall (P : MMTPProtocol) (p q : Packet),
        token (hashcashToken (meta p)) = token (hashcashToken (meta q)) ->
        verifyHashCash P p = verifyHashCash P q)
  /\ (exists (P : MMTPProtocol) (fuel : nat) (s r : string) (ts : N)
             (t : HashCashToken) (packet : Packet),
        generateHashCash fuel P s r ts = Some t
        /\ token (hashcashToken (meta packet)) = token t
        /\ sender packet <> s /\ recipient packet <> r
        /\ timestamp (meta packet) <> ts
        /\ counter (hashcashToken (meta packet)) <> counter t
        /\ verifyHashCash P packet = true).
Proof.
  split; [| split].
  - intros P packet. rewrite verifyHashCash_unfold. apply startsWith_zeros.
  - intros P p q Heq. rewrite !verifyHashCash_unfold, Heq. reflexivity.
  - exists (Sample.engine 2 false), 76, Sample.a_x, Sample.b_x, Sample.t0,
      (MkToken "1:2:1700000000000:(a)%(x.com):(b)%(x.com):1700000000000::75:" 75),
      Sample.borrowed_packet.
    split; [vm_compute; reflexivity |].
    split; [reflexivity |].
    repeat (split; [vm_compute; discriminate |]).
    vm_compute. reflexivity.
Qed.

End VerifyHashCash.

(** The second part of C2 at the borrowed packet and a packet that differs
    from it in every field but the token string. *)
Lemma verifyHashCash_reads_only_token_witness :
  Protocol.verifyHashCash (Sample.engine 2 false) Sample.borrowed_packet
  = Protocol.verifyHashCash (Sample.engine 2 false)
      (Protocol.MkPacket
         (Protocol.MkMeta "REPLY" "ff" 2
            (Protocol.MkToken
               "1:2:1700000000000:(a)%(x.com):(b)%(x.com):1700000000000::75:" 9)
            true true None false None)
         Sample.a_x Sample.c_y (Protocol.Ciphertext "x")
         (Protocol.MkVerification "" None)).
Proof.
  apply (proj1 (proj2 verifyHashCash_reads_only_token)). reflexivity.
Defined.

(** ** JSON string literals can be read back *)

Section JsonFacts.
Import Json.

Lemma unescape_escape_char (c : ascii) (tail : string) :
  unescape (escape_char c +:+ tail) = push_char c (unescape tail).
Proof.
  destruct c as [b0 b1 b2 b3 b4 b5 b6 b7];
    destruct b0, b1, b2, b3, b4, b5, b6, b7; reflexivity.
Qed.

Lemma unescape_escape (s tail : string) :
  unescape (escape s +:+ String dquote tail) = Some (s, tail).
Proof.
  induction s as [|c s IH].
  - reflexivity.
  - change (escape (String c s)) with (escape_char c +:+ escape s).
    rewrite append_assoc, unescape_escape_char, IH. reflexivity.
Qed.

Lemma quote_append (s tail : string) :
  quote s +:+ tail = String dquote (escape s +:+ String dquote tail).
Proof.
  unfold quote. rewrite append_cons, append_assoc. reflexivity.
Qed.

(** Two literals followed by anything are equal only for equal strings
    followed by equal things. *)
Lemma quote_append_inj (s s' tail tail' : string) :
  quote s +:+ tail = quote s' +:+ tail' -> s = s' /\ tail = tail'.
Proof.
  rewrite !quote_append. intros H. injection H as H.
  apply (f_equal unescape) in H. rewrite !unescape_escape in H.
  injection H as -> ->. split; reflexivity.
Qed.

End JsonFacts.

(** ** Integrity *)

Section Integrity.
Import Protocol.

Lemma stringify_plain (subject body : string) :
  stringify_content (Plain subject body)
  = "{" +:+ Json.quote "subject" +:+ ":"
        +:+ (Json.quote subject +:+ ("," +:+ Json.quote "body" +:+ ":"
        +:+ (Json.quote body +:+ "}"))).
Proof. reflexivity. Qed.

Lemma stringify_ciphertext (armored : string) :
  stringify_content (Ciphertext armored)
  = "{" +:+ Json.quote "encrypted" +:+ ":" +:+ (Json.quote armored +:+ "}").
Proof. reflexivity. Qed.

(** [JSON.stringify] tells any two contents apart. *)
Lemma stringify_content_inj (c c' : Content) :
  stringify_content c = stringify_content c' -> c = c'.
Proof.
  destruct c as [s b | a], c' as [s' b' | a'];
    rewrite ?stringify_plain, ?stringify_ciphertext; intros H.
  - do 3 apply String.app_inj in H.
    apply quote_append_inj in H as [-> H].
    do 3 apply String.app_inj in H.
    apply quote_append_inj in H as [-> _]. reflexivity.
  - discriminate H.
  - discriminate H.
  - do 3 apply String.app_inj in H.
    apply quote_append_inj in H as [-> _]. reflexivity.
Qed.

Lemma verifyMessageIntegrity_plain (packet : Packet) :
  encrypted (meta packet) = false ->
  verifyMessageIntegrity packet
  = String.eqb (generateSHA256 (stringify_content (content packet)))
               (messageHash (verification packet)).
Proof. intros H. unfold verifyMessageIntegrity. rewrite H. reflexivity. Qed.

(** C3. A packet with meta.encrypted = true verifies whatever its content and
    its stored messageHash are; a packet with meta.encrypted = false verifies
    iff the SHA-256 hex digest of the JSON serialization of its content equals
    the stored messageHash; so replacing the content of an unencrypted packet
    that verifies by any other content makes it fail, SHA-256 not colliding on
    the two serializations. *)
Theorem verifyMessageIntegrity_spec :
  (forall packet : Packet,
     encrypted (meta packet) = true -> verifyMessageIntegrity packet = true)
  /\ (forall packet : Packet,
        encrypted (meta packet) = false ->
        (verifyMessageIntegrity packet = true
         <-> generateSHA256 (stringify_content (content packet))
             = messageHash (verification packet)))
  /\ (forall (packet : Packet) (mutated : Content),
        encrypted (meta packet) = false ->
        verifyMessageIntegrity packet = true ->
        mutated <> content packet ->
        (generateSHA256 (stringify_content mutated)
         = generateSHA256 (stringify_content (content packet)) ->
         stringify_content mutated = stringify_content (content packet)) ->
        verifyMessageIntegrity
          (MkPacket (meta packet) (sender packet) (recipient packet) mutated
                    (verification packet))
        = false).
Proof.
  split; [| split].
  - intros packet H. unfold verifyMessageIntegrity. rewrite H. reflexivity.
  - intros packet H. rewrite (verifyMessageIntegrity_plain _ H).
    apply String.eqb_eq.
  - intros packet mutated Hplain Hok Hne Hfree.
    rewrite (verifyMessageIntegrity_plain _ Hplain) in Hok.
    apply String.eqb_eq in Hok.
    rewrite verifyMessageIntegrity_plain by exact Hplain.
    cbn [content verification].
    apply String.eqb_neq. intros Heq. apply Hne.
    apply stringify_content_inj, Hfree. congruence.
Qed.

End Integrity.

(** The third part of C3 on the packet of the end-to-end scenario, its body
    changed from "Yo" to "Yo!". *)
Lemma verifyMessageIntegrity_spec_witness :
  Protocol.verifyMessageIntegrity Sample.hi_packet = true
  /\ Protocol.verifyMessageIntegrity
       (Protocol.MkPacket (Protocol.meta Sample.hi_packet) Sample.a_x Sample.b_x
          (Protocol.Plain "Hi" "Yo!") (Protocol.verification Sample.hi_packet))
     = false.
Proof.
  assert (Protocol.verifyMessageIntegrity Sample.hi_packet = true) as Hok
    by (vm_compute; reflexivity).
  split; [exact Hok |].
  apply (proj2 (proj2 verifyMessageIntegrity_spec) Sample.hi_packet
           (Protocol.Plain "Hi" "Yo!")).
  - reflexivity.
  - exact Hok.
  - discriminate.
  - intros H. vm_compute in H. discriminate H.
Defined.

(** ** Building a packet and verifying it *)

Section RoundTrip.
Import Protocol.


End RoundTrip.


Example createMessagePacket_sample :
  Protocol.createMessagePacket 76 (Sample.engine 2 false) Sample.t0
    "000102030405060708090a0b0c0d0e0f" Sample.a_x Sample.b_x "Hi" "Yo" "SEND"
    Sample.no_options
  = Some (Protocol.Returns Sample.hi_packet).
Proof. vm_compute. reflexivity. Qed.

(** ** SEND: the two checks and the rejected packet *)

Section SendRejection.
Import Protocol Server.

(** C5. processPacket evaluates the integrity check first and the HashCash
    check second: when the integrity check fails it returns the integrity
    error having evaluated that check only, and when the integrity check
    passes and the HashCash check fails it returns the anti-spam error; in
    both cases the SEND handler answers with that error and returns the
    mailbox table it was given. *)
Theorem processPacket_short_circuit :
  (forall (P : MMTPProtocol) (packet : Packet) (recipientEmail : option string),
     verifyMessageIntegrity packet = false ->
     processPacket P packet recipientEmail
     = ([IntegrityCheck], Failure "Message integrity check failed"))
  /\ (forall (P : MMTPProtocol) (packet : Packet) (recipientEmail : option string),
        verifyMessageIntegrity packet = true ->
        verifyHashCash P packet = false ->
        processPacket P packet recipientEmail
        = ([IntegrityCheck; HashCashCheck],
           Failure "HashCash verification failed - potential spam"))
  /\ (forall (S : MMTPServer) (mailboxes : Mailboxes) (packet : Packet),
        verifyMessageIntegrity packet = false ->
        handleSendMail S mailboxes packet
        = (mailboxes, Error "Message integrity check failed"))
  /\ (forall (S : MMTPServer) (mailboxes : Mailboxes) (packet : Packet),
        verifyMessageIntegrity packet = true ->
        verifyHashCash (protocol S) packet = false ->
        handleSendMail S mailboxes packet
        = (mailboxes, Error "HashCash verification failed - potential spam")).
Proof.
  repeat split.
  - intros P packet r Hint. unfold processPacket. rewrite Hint. reflexivity.
  - intros P packet r Hint Hcash. unfold processPacket. rewrite Hint, Hcash. reflexivity.
  - intros S mailboxes packet Hint. unfold handleSendMail, processPacket.
    rewrite Hint. reflexivity.
  - intros S mailboxes packet Hint Hcash. unfold handleSendMail, processPacket.
    rewrite Hint, Hcash. reflexivity.
Qed.

End SendRejection.

(** A tampered packet and a packet without proof of work, sent to a server
    that already holds one packet. *)
Lemma processPacket_short_circuit_witness :
  Server.handleSendMail (Sample.server 2 false) Sample.one_mail Sample.tampered_packet
  = (Sample.one_mail, Server.Error "Message integrity check failed")
  /\ Server.handleSendMail (Sample.server 2 false) Sample.one_mail Sample.unworked_packet
     = (Sample.one_mail, Server.Error "HashCash verification failed - potential spam").
Proof.
  split.
  - apply (proj1 (proj2 (proj2 processPacket_short_circuit))).
    vm_compute. reflexivity.
  - apply (proj2 (proj2 (proj2 processPacket_short_circuit))).
    + vm_compute. reflexivity.
    + vm_compute. reflexivity.
Defined.

(** ** The mailbox handlers *)

Section Mailboxes.
Import Protocol Server.
Variable S : MMTPServer.

(** *** The decryption pass keeps the queue in shape *)

Lemma try_decrypt_messageId (P : MMTPProtocol) (r : option string) (packet : Packet) :
  messageId (meta (try_decrypt P r packet)) = messageId (meta packet).
Proof.
  unfold try_decrypt. destruct r as [email |]; [| reflexivity].
  destruct (encrypted (meta packet) && Protocol.usePGP P && Js.truthy (Some email));
    [| reflexivity].
  destruct (content packet) as [? ? | armored]; [reflexivity |].
  destruct (decrypt_for (keys P) email armored); reflexivity.
Qed.

Lemma try_verify_messageId (P : MMTPProtocol) (packet : Packet) :
  messageId (meta (try_verify P packet)) = messageId (meta packet).
Proof.
  unfold try_verify.
  destruct (signed (meta packet) && Js.truthy (signature (verification packet))
            && Protocol.usePGP P); [| reflexivity].
  destruct (signature (verification packet)) as [sig |]; [| reflexivity].
  destruct (verify_from (keys P) (sender packet) (stringify_content (content packet)) sig);
    reflexivity.
Qed.

Lemma decrypt_entry_messageId (email : string) (packet : Packet) :
  messageId (meta (decrypt_entry S email packet)) = messageId (meta packet).
Proof.
  unfold decrypt_entry, processPacket.
  destruct (encrypted (meta packet)); [| reflexivity].
  destruct (verifyMessageIntegrity packet); [| reflexivity].
  destruct (verifyHashCash (protocol S) packet); [| reflexivity].
  cbn [negb snd]. now rewrite try_verify_messageId, try_decrypt_messageId.
Qed.

Lemma decrypt_entry_plain (email : string) (packet : Packet) :
  encrypted (meta packet) = false -> decrypt_entry S email packet = packet.
Proof. intros H. unfold decrypt_entry. now rewrite H. Qed.

Lemma decrypt_pass_length (email : string) (queue : list Packet) :
  length (decrypt_pass S email queue) = length queue.
Proof. unfold decrypt_pass. destruct (usePGP S); [apply length_map | reflexivity]. Qed.

Lemma decrypt_pass_messageIds (email : string) (queue : list Packet) :
  map (fun p => messageId (meta p)) (decrypt_pass S email queue)
  = map (fun p => messageId (meta p)) queue.
Proof.
  unfold decrypt_pass. destruct (usePGP S); [| reflexivity].
  induction queue as [|p queue IH]; [reflexivity |].
  cbn [map]. now rewrite decrypt_entry_messageId, IH.
Qed.

Lemma decrypt_pass_untouched (email : string) (queue : list Packet) (i : nat) (p : Packet) :
  queue !! i = Some p ->
  usePGP S = false \/ encrypted (meta p) = false ->
  decrypt_pass S email queue !! i = Some p.
Proof.
  intros Hi Hwhy. unfold decrypt_pass.
  destruct (usePGP S) eqn:Hpgp; [| exact Hi].
  destruct Hwhy as [Hoff | Hplain]; [discriminate Hoff |].
  rewrite list_lookup_fmap, Hi. cbn. now rewrite decrypt_entry_plain.
Qed.

(** *** RECEIVE *)

Lemma handleReceiveMail_empty (mailboxes : Mailboxes) (email : string) :
  validateEmailFormat email = true ->
  mailboxes !! email = None \/ mailboxes !! email = Some [] ->
  handleReceiveMail S mailboxes email = (mailboxes, Messages [] 0).
Proof.
  intros Hvalid [Hnone | Hnil]; unfold handleReceiveMail; rewrite Hvalid; cbn [negb].
  - now rewrite Hnone.
  - now rewrite Hnil.
Qed.

Lemma handleReceiveMail_queue (mailboxes : Mailboxes) (email : string) (queue : list Packet) :
  validateEmailFormat email = true ->
  mailboxes !! email = Some queue -> queue <> [] ->
  handleReceiveMail S mailboxes email
  = (delete email mailboxes,
     Messages (decrypt_pass S email queue) (length (decrypt_pass S email queue))).
Proof.
  intros Hvalid Hq Hne. unfold handleReceiveMail. rewrite Hvalid, Hq. cbn [negb].
  destruct queue; [congruence | reflexivity].
Qed.

(** C6. A RECEIVE on a valid address whose mailbox is absent or empty answers
    with an empty list and count 0 and returns the table as it was; otherwise
    it answers with the whole queue in order (each entry as the decryption
    pass leaves it: itself when PGP is off or the entry is not encrypted, and
    with the same message id in every case) and with its length, and it
    deletes the entry of the address, so that a RECEIVE that follows at once
    answers with an empty list. *)
Theorem handleReceiveMail_drains (mailboxes : Mailboxes) (email : string) :
  validateEmailFormat email = true ->
  (mailboxes !! email = None \/ mailboxes !! email = Some [] ->
   handleReceiveMail S mailboxes email = (mailboxes, Messages [] 0))
  /\ (forall queue : list Packet,
        mailboxes !! email = Some queue -> queue <> [] ->
        exists delivered : list Packet,
          handleReceiveMail S mailboxes email
          = (delete email mailboxes, Messages delivered (length queue))
          /\ delivered = decrypt_pass S email queue
          /\ length delivered = length queue
          /\ map (fun p => messageId (meta p)) delivered
             = map (fun p => messageId (meta p)) queue
          /\ (forall (i : nat) (p : Packet),
                queue !! i = Some p ->
                usePGP S = false \/ encrypted (meta p) = false ->
                delivered !! i = Some p)
          /\ delete email mailboxes !! email = None
          /\ handleReceiveMail S (delete email mailboxes) email
             = (delete email mailboxes, Messages [] 0)).
Proof.
  intros Hvalid. split.
  - apply handleReceiveMail_empty. exact Hvalid.
  - intros queue Hq Hne. exists (decrypt_pass S email queue).
    split; [| split; [| split; [| split; [| split; [| split]]]]].
    + rewrite (handleReceiveMail_queue _ _ _ Hvalid Hq Hne), decrypt_pass_length.
      reflexivity.
    + reflexivity.
    + apply decrypt_pass_length.
    + apply decrypt_pass_messageIds.
    + intros i p. apply decrypt_pass_untouched.
    + apply lookup_delete_eq.
    + apply handleReceiveMail_empty; [exact Hvalid |].
      left. apply lookup_delete_eq.
Qed.

(** *** CHECK *)

Lemma handleCheckMail_store (mailboxes : Mailboxes) (email : string)
    (tagFilters : option TagMap) :
  fst (handleCheckMail S mailboxes email tagFilters) = mailboxes.
Proof.
  unfold handleCheckMail. destruct (negb (validateEmailFormat email)); reflexivity.
Qed.

Lemma handleRequests_checks (mailboxes : Mailboxes) (l : list (string * option TagMap)) :
  handleRequests S mailboxes (checks l)
  = (mailboxes, map (fun q => snd (handleCheckMail S mailboxes (fst q) (snd q))) l).
Proof.
  induction l as [|[email tagFilters] l IH]; [reflexivity |].
  cbn [checks map handleRequests handleRequest fst snd].
  pose proof (handleCheckMail_store mailboxes email tagFilters) as Hstore.
  destruct (handleCheckMail S mailboxes email tagFilters) as [mailboxes' response].
  cbn [fst snd] in *. subst mailboxes'.
  fold (checks l). rewrite IH. reflexivity.
Qed.


(** *** RECEIVE_FILTERED without filters *)

(** C10. A RECEIVE_FILTERED on a valid address with a non-empty mailbox and
    with tagFilters absent or without categories answers with every queued
    message, in order and counted, and deletes the entry of the address: the
    messages, the count and the table are those of RECEIVE, and messages
    without tags are delivered and removed like the others. *)
Theorem handleReceiveFilteredMail_without_filters
    (mailboxes : Mailboxes) (email : string) (tagFilters : option TagMap)
    (queue : list Packet) :
  validateEmailFormat email = true ->
  mailboxes !! email = Some queue -> queue <> [] ->
  tagFilters = None \/ tagFilters = Some ∅ ->
  exists delivered : list Packet,
    handleReceiveFilteredMail S mailboxes email tagFilters
    = (delete email mailboxes, FilteredMessages delivered (length queue) tagFilters)
    /\ handleReceiveMail S mailboxes email
       = (delete email mailboxes, Messages delivered (length queue))
    /\ delivered = decrypt_pass S email queue
    /\ map (fun p => messageId (meta p)) delivered
       = map (fun p => messageId (meta p)) queue
    /\ (forall (i : nat) (p : Packet),
          queue !! i = Some p ->
          usePGP S = false \/ encrypted (meta p) = false ->
          delivered !! i = Some p)
    /\ delete email mailboxes !! email = None.
Proof.
  intros Hvalid Hq Hne Hnone. exists (decrypt_pass S email queue).
  assert (has_filters tagFilters = false) as Hno.
  { destruct Hnone as [-> | ->]; [reflexivity |].
    unfold has_filters, no_keys. now rewrite bool_decide_eq_true_2. }
  split; [| split; [| split; [| split; [| split]]]].
  - unfold handleReceiveFilteredMail. rewrite Hvalid, Hq, Hno. cbn [negb].
    destruct queue; [congruence |]. now rewrite decrypt_pass_length.
  - rewrite (handleReceiveMail_queue _ _ _ Hvalid Hq Hne), decrypt_pass_length.
    reflexivity.
  - reflexivity.
  - apply decrypt_pass_messageIds.
  - intros i p. apply decrypt_pass_untouched.
  - apply lookup_delete_eq.
Qed.

End Mailboxes.

(** The mailbox of (b)%(x.com) holding the packet of the scenario, drained. *)
Lemma handleReceiveMail_drains_witness :
  exists delivered : list Protocol.Packet,
    Server.handleReceiveMail (Sample.server 2 false) Sample.one_mail Sample.b_x
    = (delete Sample.b_x Sample.one_mail, Server.Messages delivered 1)
    /\ delivered = [Sample.hi_packet]
    /\ Server.handleReceiveMail (Sample.server 2 false)
         (delete Sample.b_x Sample.one_mail) Sample.b_x
       = (delete Sample.b_x Sample.one_mail, Server.Messages [] 0).
Proof.
  destruct (proj2 (handleReceiveMail_drains (Sample.server 2 false) Sample.one_mail
                     Sample.b_x ltac:(vm_compute; reflexivity))
              [Sample.hi_packet] ltac:(vm_compute; reflexivity) ltac:(discriminate))
    as (delivered & Hrun & Hpass & _ & _ & _ & _ & Hagain).
  exists delivered. split; [exact Hrun |]. split; [| exact Hagain].
  rewrite Hpass. reflexivity.
Defined.

(** The same mailbox, asked with a filter mapping without categories. *)
Lemma handleReceiveFilteredMail_without_filters_witness :
  exists delivered : list Protocol.Packet,
    Server.handleReceiveFilteredMail (Sample.server 2 false) Sample.one_mail Sample.b_x
      (Some ∅)
    = (delete Sample.b_x Sample.one_mail, Server.FilteredMessages delivered 1 (Some ∅))
    /\ Server.handleReceiveMail (Sample.server 2 false) Sample.one_mail Sample.b_x
       = (delete Sample.b_x Sample.one_mail, Server.Messages delivered 1)
    /\ delivered = [Sample.hi_packet].
Proof.
  destruct (handleReceiveFilteredMail_without_filters (Sample.server 2 false)
              Sample.one_mail Sample.b_x (Some ∅) [Sample.hi_packet]
              ltac:(vm_compute; reflexivity) ltac:(vm_compute; reflexivity)
              ltac:(discriminate) ltac:(right; reflexivity))
    as (delivered & Hrun & Hsame & Hpass & _).
  exists delivered. split; [exact Hrun |]. split; [exact Hsame |].
  rewrite Hpass. reflexivity.
Defined.

(** The end-to-end scenario: difficulty 2, "Hi" / "Yo" from (a)%(x.com) to
    (b)%(x.com); SEND, two CHECKs, RECEIVE, RECEIVE. *)
Example end_to_end :
  Server.handleRequests (Sample.server 2 false) ∅
    [Server.SEND Sample.hi_packet; Server.CHECK Sample.b_x None;
     Server.CHECK Sample.b_x None; Server.RECEIVE Sample.b_x; Server.RECEIVE Sample.b_x]
  = (∅,
     [Server.Delivered "000102030405060708090a0b0c0d0e0f" false false;
      Server.Checked 1 1 ∅; Server.Checked 1 1 ∅;
      Server.Messages [Sample.hi_packet] 1; Server.Messages [] 0]).
Proof. vm_compute. reflexivity. Qed.

(** Per-category counts of CHECK on three tagged messages. *)
Example countMessagesByTags_sample :
  Server.countMessagesByTags [Sample.promo; Sample.untagged; Sample.urgent; Sample.promo]
  = {[ "category" := {[ "promotion" := 2 ]}; "priority" := {[ "high" := 1 ]} ]}.
Proof. vm_compute. reflexivity. Qed.

(** RECEIVE_FILTERED with the promotion filter takes the promotion out and
    leaves the rest queued. *)
Example handleReceiveFilteredMail_sample :
  Server.handleReceiveFilteredMail (Sample.server 2 false)
    {[ Sample.b_x := [Sample.untagged; Sample.promo; Sample.urgent] ]} Sample.b_x
    (Some Sample.promo_filter)
  = ({[ Sample.b_x := [Sample.untagged; Sample.urgent] ]},
     Server.FilteredMessages [Sample.promo] 1 (Some Sample.promo_filter)).
Proof. vm_compute. reflexivity. Qed.

(** ** Tag filters *)

Section TagFilter.
Import Protocol TagSpec.

Lemma array_includes_elem_of (arr : list string) (x : string) :
  array_includes arr x = true <-> x ∈ arr.
Proof.
  unfold array_includes. rewrite existsb_exists. split.
  - intros (y & Hin & Heq). apply String.eqb_eq in Heq. subst y.
    now apply list_elem_of_In.
  - intros Hin. exists x. split; [now apply list_elem_of_In | apply String.eqb_refl].
Qed.

(** One turn of the loop over the filter entries says whether the message
    shares a tag with the entry. *)
Lemma category_passes_shares (messageTagMap : TagMap) (category : string)
    (filterTags : list string) :
  category_passes messageTagMap (category, filterTags) = true
  <-> shares_tag (default [] (messageTagMap !! category)) filterTags.
Proof.
  unfold category_passes, shares_tag.
  set (messageTags := default [] (messageTagMap !! category)).
  assert (existsb (fun tag => array_includes messageTags tag) filterTags = true
          <-> exists tag, tag ∈ filterTags /\ tag ∈ messageTags) as Hsome.
  { rewrite existsb_exists. split; intros (tag & H1 & H2); exists tag.
    - split; [now apply list_elem_of_In | now apply array_includes_elem_of].
    - split; [now apply list_elem_of_In | now apply array_includes_elem_of]. }
  destruct ((0 <? length filterTags) && (length messageTags =? 0)) eqn:Hguard;
    [| exact Hsome].
  split; [discriminate |].
  intros (tag & _ & Hin). apply andb_true_iff in Hguard as [_ Hlen].
  apply Nat.eqb_eq in Hlen. destruct messageTags; [| discriminate Hlen].
  inversion Hin.
Qed.

Lemma forallb_map_to_list (f : string * list string -> bool) (m : TagMap) :
  forallb f (map_to_list m) = true
  <-> forall k v, m !! k = Some v -> f (k, v) = true.
Proof.
  rewrite forallb_forall. split.
  - intros H k v Hkv. apply H, list_elem_of_In, elem_of_map_to_list. exact Hkv.
  - intros H [k v] Hin. apply H, elem_of_map_to_list, list_elem_of_In. exact Hin.
Qed.

(** The callback of [messages.filter] decides [matches], for a filter with at
    least one category. *)
Lemma message_passes_matches (filters : TagMap) (message : Packet) :
  filters <> ∅ ->
  message_passes filters message = true <-> matches filters message.
Proof.
  intros Hne.
  destruct (map_choose filters Hne) as (category & filterTags & Hentry).
  unfold message_passes, matches, message_tags.
  destruct (tags (meta message)) as [messageTagMap |].
  - unfold no_keys. destruct (bool_decide_reflect (messageTagMap = ∅)) as [-> | _].
    + split; [discriminate |]. intros H.
      destruct (H category filterTags Hentry) as (tag & _ & Hin).
      rewrite lookup_empty in Hin. inversion Hin.
    + rewrite forallb_map_to_list. split; intros H k v Hkv.
      * apply category_passes_shares, H, Hkv.
      * apply category_passes_shares, H, Hkv.
  - split; [discriminate |]. intros H.
    destruct (H category filterTags Hentry) as (tag & _ & Hin). inversion Hin.
Qed.

Lemma filter_bool_prop (A : Type) (f : A -> bool) (Q : A -> Prop)
    `{forall x, Decision (Q x)} (l : list A) :
  (forall x, f x = true <-> Q x) -> List.filter f l = filter Q l.
Proof.
  intros Hfq. induction l as [|x l IH]; [reflexivity |].
  cbn [List.filter]. destruct (f x) eqn:Hfx.
  - rewrite filter_cons_True by now apply Hfq. now rewrite IH.
  - rewrite filter_cons_False; [exact IH |].
    intros Hq. apply Hfq in Hq. congruence.
Qed.


End TagFilter.

Example filterMessagesByTags_sample :
  Protocol.filterMessagesByTags [Sample.untagged; Sample.promo; Sample.urgent]
    (Some Sample.promo_filter)
  = [Sample.promo].
Proof. vm_compute. reflexivity. Qed.


(** ** The client's table of outstanding requests *)

Section Correlator.
Import Protocol Client.

(** The table keeps one entry per action. *)
Lemma Map_set_keys (key : string) (value : Tracker) (m : WaitingResponses) :
  map fst (Map_set key value m)
  = if bool_decide (key ∈ map fst m) then map fst m else map fst m ++ [key].
Proof.
  induction m as [|[k v] m IH]; [reflexivity |].
  cbn [Map_set map fst]. destruct (String.eqb_spec k key) as [-> | Hne].
  - rewrite bool_decide_eq_true_2 by apply list_elem_of_here. reflexivity.
  - cbn [map fst]. rewrite IH. destruct (bool_decide_reflect (key ∈ map fst m)) as [Hin | Hout].
    + rewrite bool_decide_eq_true_2 by now apply list_elem_of_further. reflexivity.
    + rewrite bool_decide_eq_false_2; [reflexivity |].
      intros Hin. apply elem_of_cons in Hin as [-> | Hin]; [congruence | exact (Hout Hin)].
Qed.

Lemma track_NoDup (action : string) (t : Tracker) (C : MMTPClient) :
  NoDup (map fst (waitingResponses C)) ->
  NoDup (map fst (waitingResponses (track action t C))).
Proof.
  intros Hnd. cbn [track set_waitingResponses waitingResponses]. rewrite Map_set_keys.
  destruct (bool_decide_reflect (action ∈ map fst (waitingResponses C))) as [_ | Hout];
    [exact Hnd |].
  apply NoDup_app. split; [exact Hnd |]. split.
  - intros x Hx Hx'. apply list_elem_of_singleton in Hx'. subst x. exact (Hout Hx).
  - apply NoDup_singleton.
Qed.

(** A second request of an action takes the place of the first. *)
Lemma track_same_action (action : string) (t1 t2 : Tracker) (C : MMTPClient) :
  waitingResponses (track action t2 (track action t1 C))
  = waitingResponses (track action t2 C).
Proof.
  cbn [track set_waitingResponses waitingResponses].
  induction (waitingResponses C) as [|[k v] m IH].
  - cbn [Map_set]. now rewrite String.eqb_refl.
  - cbn [Map_set]. destruct (String.eqb_spec k action) as [-> | Hne].
    + cbn [Map_set]. now rewrite String.eqb_refl.
    + cbn [Map_set]. destruct (String.eqb_spec k action); [congruence |].
      now rewrite IH.
Qed.

Lemma Map_delete_head (action : string) (t : Tracker) (rest : WaitingResponses) :
  NoDup (map fst ((action, t) :: rest)) ->
  Map_delete action ((action, t) :: rest) = rest.
Proof.
  intros Hnd. apply NoDup_cons in Hnd as [Hout _].
  unfold Map_delete. cbn [List.filter fst]. rewrite String.eqb_refl. cbn [negb].
  induction rest as [|[k v] rest IH]; [reflexivity |].
  cbn [List.filter fst]. destruct (String.eqb_spec k action) as [-> | Hne].
  - exfalso. apply Hout. cbn [map fst]. apply list_elem_of_here.
  - cbn [negb]. rewrite IH; [reflexivity |].
    intros Hin. apply Hout. cbn [map fst]. now apply list_elem_of_further.
Qed.


End Correlator.



(** ** Addresses *)

Section Addresses.
Import Protocol AddressSpec.

Lemma expect_spec (lit s r : string) :
  expect lit s = Some r <-> s = lit +:+ r.
Proof.
  revert s. induction lit as [|a lit IH]; intros s.
  - change (EmptyString +:+ r) with r.
    destruct s; cbn [expect]; split; intros H; congruence.
  - destruct s as [|b s]; cbn [expect]; rewrite append_cons.
    + split; intros H; discriminate H.
    + destruct (Ascii.eqb_spec a b) as [-> | Hne].
      * rewrite IH. split; intros H; [now subst | now inversion H].
      * split; intros H; [discriminate H | inversion H; congruence].
Qed.

Lemma span_spec (p : ascii -> bool) (s : string) :
  s = fst (span p s) +:+ snd (span p s)
  /\ all_of p (fst (span p s)) = true
  /\ stops p (snd (span p s)).
Proof.
  induction s as [|c s (IH1 & IH2 & IH3)]; [repeat split |].
  cbn [span]. destruct (p c) eqn:Hc.
  - destruct (span p s) as [taken after]. cbn [fst snd] in *.
    rewrite append_cons, <- IH1. cbn [all_of]. rewrite Hc, IH2. repeat split.
    exact IH3.
  - cbn [fst snd all_of stops]. repeat split. exact Hc.
Qed.

Lemma span_app (p : ascii -> bool) (a b : string) :
  all_of p a = true -> stops p b -> span p (a +:+ b) = (a, b).
Proof.
  intros Ha Hb. induction a as [|c a IH].
  - change (EmptyString +:+ b) with b. destruct b as [|c b]; [reflexivity |].
    cbn [span]. cbn [stops] in Hb. now rewrite Hb.
  - cbn [all_of] in Ha. apply andb_true_iff in Ha as [Hc Ha].
    rewrite append_cons. cbn [span]. now rewrite Hc, (IH Ha).
Qed.

Lemma eqb_empty_false (s : string) : s <> EmptyString -> String.eqb s EmptyString = false.
Proof. intros H. now apply String.eqb_neq. Qed.

(** The two captures of the regex are the local part and the domain of a
    well-formed address, and there is no match otherwise. *)
Lemma match_address_spec (email localPart domain : string) :
  match_address email = Some (localPart, domain) <-> well_formed email localPart domain.
Proof.
  unfold well_formed. split.
  - unfold match_address.
    destruct (expect "(" email) as [r1 |] eqn:H1; [| discriminate].
    apply expect_spec in H1.
    destruct (span_spec local_char r1) as (Hr1 & Hl & _).
    destruct (span local_char r1) as [l r2]. cbn [fst snd] in *.
    destruct (String.eqb_spec l EmptyString) as [| Hlne]; [discriminate |].
    destruct (expect ")%(" r2) as [r3 |] eqn:H3; [| discriminate].
    apply expect_spec in H3.
    destruct (span_spec domain_char r3) as (Hr3 & Hd & _).
    destruct (span domain_char r3) as [d r4]. cbn [fst snd] in *.
    destruct (String.eqb_spec d EmptyString) as [| Hdne]; [discriminate |].
    destruct (String.eqb_spec r4 ")") as [-> |]; [| discriminate].
    intros H. injection H as <- <-.
    repeat split; try assumption.
    rewrite H1, Hr1, H3, Hr3. reflexivity.
  - intros (-> & Hlne & Hdne & Hl & Hd). unfold match_address.
    assert (expect "(" ("(" +:+ localPart +:+ ")%(" +:+ domain +:+ ")")
            = Some (localPart +:+ ")%(" +:+ domain +:+ ")")) as ->
      by now apply expect_spec.
    rewrite (span_app local_char localPart (")%(" +:+ domain +:+ ")") Hl)
      by reflexivity.
    rewrite (eqb_empty_false _ Hlne).
    assert (expect ")%(" (")%(" +:+ domain +:+ ")") = Some (domain +:+ ")")) as ->
      by now apply expect_spec.
    rewrite (span_app domain_char domain ")" Hd) by reflexivity.
    rewrite (eqb_empty_false _ Hdne). reflexivity.
Qed.

(** The test and the match are the same regex. *)
Lemma validateEmailFormat_match (email : string) :
  validateEmailFormat email = true <-> is_Some (match_address email).
Proof.
  unfold validateEmailFormat, match_address.
  destruct (expect "(" email) as [r1 |]; [| split; [discriminate | intros [? H]; discriminate H]].
  destruct (span local_char r1) as [l r2].
  destruct (String.eqb l EmptyString);
    [split; [discriminate | intros [? H]; discriminate H] |].
  destruct (expect ")%(" r2) as [r3 |];
    [| split; [discriminate | intros [? H]; discriminate H]].
  destruct (span domain_char r3) as [d r4].
  destruct (String.eqb d EmptyString);
    [split; [discriminate | intros [? H]; discriminate H] |].
  destruct (String.eqb r4 ")"); split; intros H; try discriminate H; eauto.
  destruct H as [? H]; discriminate H.
Qed.

(** X1. validateEmailFormat accepts exactly the strings "(local)%(domain)"
    whose local part is a non-empty run of letters, digits, '.', '_' and '-'
    and whose domain is a non-empty run of letters, digits, '.' and '-';
    nothing may precede or follow. *)
Theorem validateEmailFormat_spec (email : string) :
  validateEmailFormat email = true
  <-> exists localPart domain : string, well_formed email localPart domain.
Proof.
  rewrite validateEmailFormat_match. split.
  - intros [[l d] H]. exists l, d. now apply match_address_spec.
  - intros (l & d & H). exists (l, d). now apply match_address_spec.
Qed.

End Addresses.

(** ** Address conversion at the gateway and in generateKeyPair *)

Section AddressConversion.
Import Protocol AddressSpec Bridge.

Lemma split_no_separator (sep : ascii) (s : string) :
  all_of (fun c => negb (Ascii.eqb c sep)) s = true -> split sep s = [s].
Proof.
  induction s as [|c s IH]; [reflexivity |].
  cbn [all_of split]. intros H. apply andb_true_iff in H as [Hc Hs].
  apply negb_true_iff in Hc. now rewrite Hc, (IH Hs).
Qed.

Lemma split_first (sep : ascii) (s rest : string) :
  all_of (fun c => negb (Ascii.eqb c sep)) s = true ->
  split sep (s +:+ String sep rest) = s :: split sep rest.
Proof.
  induction s as [|c s IH]; intros H.
  - change (EmptyString +:+ String sep rest) with (String sep rest).
    cbn [split]. now rewrite Ascii.eqb_refl.
  - cbn [all_of] in H. apply andb_true_iff in H as [Hc Hs].
    apply negb_true_iff in Hc. rewrite append_cons. cbn [split].
    now rewrite Hc, (IH Hs).
Qed.

Lemma split_nonempty (sep : ascii) (s : string) : split sep s <> [].
Proof.
  destruct s as [|c s]; cbn [split]; [discriminate |].
  destruct (Ascii.eqb c sep); [discriminate |].
  destruct (split sep s); discriminate.
Qed.

Lemma all_of_weaken (p q : ascii -> bool) (s : string) :
  (forall c, p c = true -> q c = true) -> all_of p s = true -> all_of q s = true.
Proof.
  intros Hpq. induction s as [|c s IH]; [reflexivity |].
  cbn [all_of]. intros H. apply andb_true_iff in H as [Hc Hs].
  now rewrite (Hpq c Hc), (IH Hs).
Qed.

(** Neither class of the address syntax holds the at sign. *)
Lemma local_char_not_at (c : ascii) :
  local_char c = true -> negb (Ascii.eqb c "@") = true.
Proof. destruct (Ascii.eqb_spec c "@") as [-> |]; [discriminate | reflexivity]. Qed.

Lemma domain_char_not_at (c : ascii) :
  domain_char c = true -> negb (Ascii.eqb c "@") = true.
Proof. destruct (Ascii.eqb_spec c "@") as [-> |]; [discriminate | reflexivity]. Qed.

Lemma convertToMMTPAddress_pair (username domain : string) :
  all_of (fun c => negb (Ascii.eqb c "@")) username = true ->
  all_of (fun c => negb (Ascii.eqb c "@")) domain = true ->
  convertToMMTPAddress (username +:+ "@" +:+ domain)
  = "(" +:+ username +:+ ")%(" +:+ domain +:+ ")".
Proof.
  intros Hu Hd. unfold convertToMMTPAddress.
  change ("@" +:+ domain) with (String "@" domain).
  rewrite (split_first _ _ _ Hu), (split_no_separator _ _ Hd). reflexivity.
Qed.

(** X2. The gateway's convertToSMTPAddress throws exactly on the addresses
    validateEmailFormat rejects; on a valid address "(local)%(domain)" it
    returns "local@domain", and convertToMMTPAddress leads back to the
    address. *)
Theorem convertToSMTPAddress_round_trip (mmtpAddress : string) :
  (validateEmailFormat mmtpAddress = false ->
   convertToSMTPAddress mmtpAddress
   = Throws ("Invalid MMTP address format: " +:+ mmtpAddress))
  /\ (validateEmailFormat mmtpAddress = true ->
      exists localPart domain : string,
        mmtpAddress = "(" +:+ localPart +:+ ")%(" +:+ domain +:+ ")"
        /\ convertToSMTPAddress mmtpAddress = Returns (localPart +:+ "@" +:+ domain)
        /\ convertToMMTPAddress (localPart +:+ "@" +:+ domain) = mmtpAddress).
Proof.
  split.
  - intros Hbad. unfold convertToSMTPAddress.
    destruct (match_address mmtpAddress) as [[l d] |] eqn:Hm; [| reflexivity].
    assert (validateEmailFormat mmtpAddress = true) as Hok
      by (apply validateEmailFormat_match; rewrite Hm; eauto).
    congruence.
  - intros Hok. apply validateEmailFormat_match in Hok as [[l d] Hm].
    exists l, d. pose proof Hm as Hwf.
    apply match_address_spec in Hwf as (Heq & _ & _ & Hl & Hd).
    split; [exact Heq |]. split.
    + unfold convertToSMTPAddress. now rewrite Hm.
    + rewrite Heq. apply convertToMMTPAddress_pair.
      * exact (all_of_weaken _ _ _ local_char_not_at Hl).
      * exact (all_of_weaken _ _ _ domain_char_not_at Hd).
Qed.

(** X3. convertToMMTPAddress keeps the first two pieces between at signs:
    "user@domain" with a user and a domain of the address syntax becomes a
    valid address that converts back to "user@domain"; further pieces are
    dropped; and a string without an at sign becomes an address in the
    domain "undefined". *)
Theorem convertToMMTPAddress_spec (user domain : string) :
  all_of (fun c => negb (Ascii.eqb c "@")) user = true ->
  all_of (fun c => negb (Ascii.eqb c "@")) domain = true ->
  convertToMMTPAddress user = "(" +:+ user +:+ ")%(undefined)"
  /\ (forall more : string,
        convertToMMTPAddress (user +:+ "@" +:+ domain +:+ "@" +:+ more)
        = convertToMMTPAddress (user +:+ "@" +:+ domain))
  /\ (user <> EmptyString -> domain <> EmptyString ->
      all_of local_char user = true -> all_of domain_char domain = true ->
      validateEmailFormat (convertToMMTPAddress (user +:+ "@" +:+ domain)) = true
      /\ convertToSMTPAddress (convertToMMTPAddress (user +:+ "@" +:+ domain))
         = Returns (user +:+ "@" +:+ domain)).
Proof.
  intros Hu Hd. split; [| split].
  - unfold convertToMMTPAddress. rewrite (split_no_separator _ _ Hu). reflexivity.
  - intros more. rewrite (convertToMMTPAddress_pair _ _ Hu Hd).
    unfold convertToMMTPAddress.
    change ("@" +:+ domain +:+ "@" +:+ more) with (String "@" (domain +:+ String "@" more)).
    rewrite (split_first _ _ _ Hu), (split_first _ _ _ Hd). reflexivity.
  - intros Hune Hdne Hlocal Hdomain.
    rewrite (convertToMMTPAddress_pair _ _ Hu Hd).
    assert (match_address ("(" +:+ user +:+ ")%(" +:+ domain +:+ ")") = Some (user, domain))
      as Hm by (apply match_address_spec; repeat split; assumption).
    split.
    + apply validateEmailFormat_match. rewrite Hm. eauto.
    + unfold convertToSMTPAddress. now rewrite Hm.
Qed.

(** X4. generateKeyPair never fails with "Failed to extract standard email
    format": the address has passed validateEmailFormat when the match is
    taken. With PGP on and no standard email given, the key pair of a valid
    address "(local)%(domain)" is generated for "local@domain". *)
Theorem generateKeyPair_identity_spec :
  (forall (P : MMTPProtocol) (mmtpEmail standardEmail : string),
     generateKeyPair_identity P mmtpEmail standardEmail
     <> Throws "Failed to extract standard email format from MMTP email")
  /\ (forall (P : MMTPProtocol) (mmtpEmail localPart domain : string),
        usePGP P = true ->
        well_formed mmtpEmail localPart domain ->
        generateKeyPair_identity P mmtpEmail EmptyString
        = Returns (localPart +:+ "@" +:+ domain)).
Proof.
  split.
  - intros P m s. unfold generateKeyPair_identity.
    destruct (usePGP P); cbn [negb]; [| discriminate].
    destruct (validateEmailFormat m) eqn:Hv; cbn [negb]; [| discriminate].
    destruct (Js.truthy (Some s)); [discriminate |].
    apply validateEmailFormat_match in Hv as [[l d] ->]. discriminate.
  - intros P m l d Hpgp Hwf. unfold generateKeyPair_identity. rewrite Hpgp.
    assert (validateEmailFormat m = true) as -> by (apply validateEmailFormat_spec; eauto).
    apply match_address_spec in Hwf as ->. reflexivity.
Qed.

End AddressConversion.

Lemma convertToSMTPAddress_round_trip_witness :
  Bridge.convertToSMTPAddress "alice@example.com"
  = Protocol.Throws "Invalid MMTP address format: alice@example.com"
  /\ exists localPart domain : string,
       Sample.a_x = "(" +:+ localPart +:+ ")%(" +:+ domain +:+ ")"
       /\ Bridge.convertToSMTPAddress Sample.a_x
          = Protocol.Returns (localPart +:+ "@" +:+ domain)
       /\ Bridge.convertToMMTPAddress (localPart +:+ "@" +:+ domain) = Sample.a_x.
Proof.
  split.
  - apply (proj1 (convertToSMTPAddress_round_trip "alice@example.com")).
    vm_compute. reflexivity.
  - apply (proj2 (convertToSMTPAddress_round_trip Sample.a_x)).
    vm_compute. reflexivity.
Defined.

Lemma convertToMMTPAddress_spec_witness :
  Bridge.convertToMMTPAddress "bob" = "(bob)%(undefined)"
  /\ Bridge.convertToMMTPAddress "bob@x.org@y" = "(bob)%(x.org)"
  /\ Bridge.convertToSMTPAddress (Bridge.convertToMMTPAddress "bob@x.org")
     = Protocol.Returns "bob@x.org".
Proof.
  destruct (convertToMMTPAddress_spec "bob" "x.org" eq_refl eq_refl) as (H1 & H2 & H3).
  split; [exact H1 |]. split.
  - etransitivity; [exact (H2 "y") | vm_compute; reflexivity].
  - apply H3; [discriminate | discriminate | reflexivity | reflexivity].
Defined.

Lemma generateKeyPair_identity_spec_witness :
  Protocol.generateKeyPair_identity (Sample.engine 2 true) Sample.a_x EmptyString
  = Protocol.Returns "a@x.com".
Proof.
  apply (proj2 generateKeyPair_identity_spec (Sample.engine 2 true) Sample.a_x "a" "x.com").
  - reflexivity.
  - repeat split; discriminate.
Defined.

(** ** Tag processing *)

Section TagProcessing.
Import Protocol TagSpec.

Lemma processTags_object (m : TagMap) (category : string) :
  processTags (TagsObject m) !! category = m !! category ≫= keep_entry category.
Proof. unfold processTags. apply map_lookup_imap. Qed.

Lemma filter_filter_same (A : Type) (f : A -> bool) (l : list A) :
  List.filter f (List.filter f l) = List.filter f l.
Proof.
  induction l as [|x l IH]; [reflexivity |].
  cbn [List.filter]. destruct (f x) eqn:Hx; [| exact IH].
  cbn [List.filter]. now rewrite Hx, IH.
Qed.

Lemma keep_entry_twice (category : string) (tagList kept : list string) :
  keep_entry category tagList = Some kept -> keep_entry category kept = Some kept.
Proof.
  unfold keep_entry. destruct (String.eqb category "custom"); [congruence |].
  destruct (closed_vocabulary category); [| discriminate].
  intros H. injection H as <-. now rewrite filter_filter_same.
Qed.

Lemma processTags_object_twice (m : TagMap) :
  processTags (TagsObject (processTags (TagsObject m))) = processTags (TagsObject m).
Proof.
  apply map_eq. intros category. rewrite !processTags_object.
  destruct (m !! category) as [tagList |]; [| reflexivity]. cbn.
  destruct (keep_entry category tagList) as [kept |] eqn:Hk; [| reflexivity]. cbn.
  exact (keep_entry_twice _ _ _ Hk).
Qed.

Lemma processTags_twice (input : TagInput) :
  processTags (TagsObject (processTags input)) = processTags input.
Proof.
  destruct input as [| l | m].
  - apply map_eq. intros c. rewrite processTags_object. reflexivity.
  - destruct l as [|x l].
    + apply map_eq. intros c. rewrite processTags_object. reflexivity.
    + apply map_eq. intros c. rewrite processTags_object. cbn [processTags].
      destruct (decide (c = "custom")) as [-> | Hne].
      * rewrite lookup_singleton_eq. reflexivity.
      * rewrite lookup_singleton_ne by congruence. reflexivity.
  - apply processTags_object_twice.
Qed.

(** X5. processTags keeps the custom category as given, keeps of priority,
    category and status only the values of their fixed vocabularies, and drops
    every other category that does not bear an inherited name; processing its
    own result again changes nothing. *)
Theorem processTags_spec :
  (forall input : TagInput,
     own_input input = true ->
     processTags (TagsObject (processTags input)) = processTags input)
  /\ (forall (m : TagMap),
        processTags (TagsObject m) !! "custom" = m !! "custom")
  /\ (forall (input : TagInput) (category : string) (tagList : list string),
        own_input input = true ->
        processTags input !! category = Some tagList ->
        category = "custom"
        \/ exists vocabulary : list string,
             closed_vocabulary category = Some vocabulary
             /\ forall tag, tag ∈ tagList -> tag ∈ vocabulary)
  /\ (forall (m : TagMap) (category : string) (tagList vocabulary : list string),
        m !! category = Some tagList ->
        closed_vocabulary category = Some vocabulary ->
        processTags (TagsObject m) !! category
        = Some (List.filter (fun tag => bool_decide (tag ∈ vocabulary)) tagList)).
Proof.
  split; [| split; [| split]].
  - intros input _. apply processTags_twice.
  - intros m. rewrite processTags_object. destruct (m !! "custom"); reflexivity.
  - intros input category tagList _ H.
    destruct (decide (category = "custom")) as [-> | Hne]; [now left |].
    right. destruct input as [| l | m].
    + cbn [processTags] in H. rewrite lookup_empty in H. discriminate H.
    + destruct l; cbn [processTags] in H.
      * rewrite lookup_empty in H. discriminate H.
      * rewrite lookup_singleton_ne in H by congruence. discriminate H.
    + rewrite processTags_object in H.
      destruct (m !! category) as [given |]; [| discriminate H]. cbn in H.
      unfold keep_entry in H.
      destruct (String.eqb_spec category "custom"); [contradiction |].
      destruct (closed_vocabulary category) as [vocabulary |]; [| discriminate H].
      exists vocabulary. split; [reflexivity |].
      injection H as <-. intros tag Hin.
      apply list_elem_of_In, filter_In in Hin as [_ Hin].
      unfold array_includes in Hin. apply existsb_exists in Hin as (v & Hv & Heq).
      apply String.eqb_eq in Heq. subst v. now apply list_elem_of_In.
  - intros m category tagList vocabulary Hm Hv. rewrite processTags_object, Hm. cbn.
    unfold keep_entry. rewrite Hv.
    destruct (String.eqb_spec category "custom") as [-> | _]; [discriminate Hv |].
    f_equal. apply filter_ext. intros tag. unfold array_includes.
    destruct (bool_decide_reflect (tag ∈ vocabulary)) as [Hin | Hout].
    + apply existsb_exists. exists tag. split; [now apply list_elem_of_In |].
      apply String.eqb_refl.
    + apply not_true_is_false. intros H. apply Hout.
      apply existsb_exists in H as (v & Hin & Heq). apply String.eqb_eq in Heq.
      subst v. now apply list_elem_of_In.
Qed.

End TagProcessing.

(** ** The difficulty *)

Section Difficulty.
Import Protocol.

Lemma string_length_append (a b : string) :
  String.length (a +:+ b) = String.length a + String.length b.
Proof.
  induction a as [|c a IH]; [reflexivity |].
  rewrite append_cons. cbn [String.length]. now rewrite IH.
Qed.

Lemma hex_of_word_length (w : N) : String.length (Sha256.hex_of_word w) = 8.
Proof. reflexivity. Qed.

(** A digest is sixty-four characters long. *)
Lemma generateSHA256_length (data : string) : String.length (generateSHA256 data) = 64.
Proof.
  unfold generateSHA256, Sha256.sha256_hex, Sha256.hex_of_chain.
  cbn [map String.concat]. rewrite !string_length_append, !hex_of_word_length.
  reflexivity.
Qed.

Lemma leading_zeros_le_length (s : string) : Js.leading_zeros s <= String.length s.
Proof.
  induction s as [|c s IH]; [reflexivity |].
  rewrite leading_zeros_cons. cbn [String.length].
  destruct (Ascii.eqb c "0"); lia.
Qed.

Lemma meets_difficulty_zeros (d : nat) (tok : string) :
  meets_difficulty d tok = true <-> d <= Js.leading_zeros (generateSHA256 tok).
Proof. apply startsWith_zeros. Qed.

(** What the search returns meets the difficulty, whatever the fuel. *)
Lemma generateHashCash_from_meets (P : MMTPProtocol) (sender recipient : string)
    (timestamp : N) (fuel : nat) :
  forall (counter : N) (t : HashCashToken),
    generateHashCash_from fuel P sender recipient timestamp counter = Some t ->
    meets_difficulty (difficulty P) (token t) = true.
Proof.
  induction fuel as [|fuel IH]; intros counter t; [discriminate |].
  cbn [generateHashCash_from].
  destruct (meets_difficulty (difficulty P)
              (token_string (difficulty P) sender recipient timestamp counter)) eqn:Hm.
  - intros H. injection H as <-. exact Hm.
  - apply IH.
Qed.

Lemma generateHashCash_from_none (P : MMTPProtocol) (sender recipient : string)
    (timestamp : N) (fuel : nat) :
  (forall tok, meets_difficulty (difficulty P) tok = false) ->
  forall counter : N,
    generateHashCash_from fuel P sender recipient timestamp counter = None.
Proof.
  intros Hnever. induction fuel as [|fuel IH]; intros counter; [reflexivity |].
  cbn [generateHashCash_from]. now rewrite Hnever.
Qed.

(** X6. The HashCash check is the weaker the lower the difficulty: a packet
    accepted at a difficulty is accepted at every lower one. At difficulty 0
    every packet is accepted and generateHashCash returns counter 0 on its
    first turn. A digest has 64 characters, so above difficulty 64 no packet
    is accepted and generateHashCash never returns, whatever the fuel. *)
Theorem difficulty_edges :
  (forall (P Q : MMTPProtocol) (packet : Packet),
     difficulty Q <= difficulty P ->
     verifyHashCash P packet = true -> verifyHashCash Q packet = true)
  /\ (forall (P : MMTPProtocol) (packet : Packet),
        difficulty P = 0 -> verifyHashCash P packet = true)
  /\ (forall (P : MMTPProtocol) (sender recipient : string) (timestamp : N) (fuel : nat),
        difficulty P = 0 ->
        generateHashCash (S fuel) P sender recipient timestamp
        = Some (MkToken (token_string 0 sender recipient timestamp 0) 0))
  /\ (forall (P : MMTPProtocol) (packet : Packet),
        64 < difficulty P -> verifyHashCash P packet = false)
  /\ (forall (P : MMTPProtocol) (sender recipient : string) (timestamp : N) (fuel : nat),
        64 < difficulty P ->
        generateHashCash fuel P sender recipient timestamp = None).
Proof.
  assert (forall d tok, 64 < d -> meets_difficulty d tok = false) as Hhigh.
  { intros d tok Hd. apply not_true_is_false. intros H.
    apply meets_difficulty_zeros in H.
    pose proof (leading_zeros_le_length (generateSHA256 tok)) as Hle.
    rewrite generateSHA256_length in Hle. lia. }
  split; [| split; [| split; [| split]]].
  - intros P Q packet Hle. rewrite !verifyHashCash_unfold, !meets_difficulty_zeros. lia.
  - intros P packet Hd. rewrite verifyHashCash_unfold, Hd. reflexivity.
  - intros P sender recipient timestamp fuel Hd.
    unfold generateHashCash. cbn [generateHashCash_from]. rewrite Hd. reflexivity.
  - intros P packet Hd. rewrite verifyHashCash_unfold. now apply Hhigh.
  - intros P sender recipient timestamp fuel Hd. unfold generateHashCash.
    apply generateHashCash_from_none. intros tok. now apply Hhigh.
Qed.

End Difficulty.

Lemma difficulty_edges_witness :
  Protocol.verifyHashCash (Sample.engine 1 false) Sample.hi_packet = true
  /\ Protocol.verifyHashCash (Sample.engine 65 false) Sample.hi_packet = false.
Proof.
  split.
  - apply (proj1 difficulty_edges (Sample.engine 2 false)).
    + cbn. lia.
    + vm_compute. reflexivity.
  - apply (proj1 (proj2 (proj2 (proj2 difficulty_edges)))). cbn. lia.
Defined.

(** ** What createMessagePacket returns, and what processPacket makes of it *)

Section CreatedPackets.
Import Protocol.

(** The shape of every packet createMessagePacket returns. *)
Lemma createMessagePacket_inv (fuel : nat) (P : MMTPProtocol) (now : N)
    (fresh from to subject body type : string) (options : Options) (packet : Packet) :
  createMessagePacket fuel P now fresh from to subject body type options
  = Some (Returns packet) ->
  validateEmailFormat from = true /\ validateEmailFormat to = true
  /\ generateHashCash fuel P from to now = Some (hashcashToken (meta packet))
  /\ sender packet = from /\ recipient packet = to
  /\ Protocol.type (meta packet) = type /\ messageId (meta packet) = fresh
  /\ timestamp (meta packet) = now
  /\ tags (meta packet) = Some (processTags (opt_tags options))
  /\ signatureVerified (meta packet) = None /\ decrypted (meta packet) = false
  /\ messageHash (verification packet)
     = generateSHA256 (stringify_content (Plain subject body))
  /\ (encrypted (meta packet) = false /\ content packet = Plain subject body
      \/ encrypted (meta packet) = true /\ usePGP P = true
         /\ exists armored, content packet = Ciphertext armored)
  /\ (signed (meta packet) = true -> usePGP P = true).
Proof.
  unfold createMessagePacket.
  destruct (validateEmailFormat from); cbn [negb orb]; [| discriminate].
  destruct (validateEmailFormat to); cbn [negb orb]; [| discriminate].
  destruct (generateHashCash fuel P from to now) as [t |]; [| discriminate].
  destruct (opt_sign options && usePGP P) eqn:Hs;
    [destruct (sign_with (keys P) from (stringify_content (Plain subject body)));
     [ | | discriminate] |];
    (destruct (opt_encrypt options && usePGP P) eqn:He;
     [destruct (encrypt_for (keys P) to (stringify_content (Plain subject body))) |]);
    intros H; injection H as <-;
    cbn [meta sender recipient content verification set_signature set_encrypted
         Protocol.type messageId timestamp hashcashToken encrypted signed
         signatureVerified decrypted tags messageHash];
    repeat match goal with |- _ /\ _ => split end; try reflexivity;
    try (left; split; reflexivity);
    try (right; split; [reflexivity |]; split; [| eexists; reflexivity];
         apply andb_true_iff in He as [_ He]; exact He);
    try (intros _; apply andb_true_iff in Hs as [_ Hs]; exact Hs);
    try (intros Hf; discriminate Hf).
Qed.

(** X7. Every packet createMessagePacket returns names a valid sender and a
    valid recipient, carries the fresh id and the timestamp of the call, and
    is accepted by processPacket of every engine whose difficulty is at most
    the sender's: the integrity check and the HashCash check both pass. *)
Theorem createMessagePacket_accepted (fuel : nat) (P : MMTPProtocol) (now : N)
    (fresh from to subject body type : string) (options : Options) (packet : Packet) :
  createMessagePacket fuel P now fresh from to subject body type options
  = Some (Returns packet) ->
  validateEmailFormat (sender packet) = true
  /\ validateEmailFormat (recipient packet) = true
  /\ messageId (meta packet) = fresh /\ timestamp (meta packet) = now
  /\ forall (Q : MMTPProtocol) (recipientEmail : option string),
       difficulty Q <= difficulty P ->
       exists processed : Packet,
         processPacket Q packet recipientEmail
         = ([IntegrityCheck; HashCashCheck], Success processed).
Proof.
  intros Hrun.
  destruct (createMessagePacket_inv _ _ _ _ _ _ _ _ _ _ _ Hrun)
    as (Hfrom & Hto & Hgen & -> & -> & _ & Hid & Hts & _ & _ & _ & Hhash & Hcontent & _).
  repeat split; try assumption.
  intros Q r Hle.
  assert (verifyMessageIntegrity packet = true) as Hint.
  { unfold verifyMessageIntegrity.
    destruct Hcontent as [[-> ->] | [-> _]]; [| reflexivity].
    rewrite Hhash. apply String.eqb_refl. }
  assert (verifyHashCash Q packet = true) as Hcash.
  { rewrite verifyHashCash_unfold. apply meets_difficulty_zeros.
    apply generateHashCash_from_meets, meets_difficulty_zeros in Hgen. lia. }
  unfold processPacket. rewrite Hint, Hcash. cbn [negb]. eexists. reflexivity.
Qed.

(** *** processPacket leaves the envelope alone *)

Ltac fields_done :=
  solve [repeat split; intros;
         cbn [meta sender recipient content verification encrypted signed messageId
              hashcashToken tags set_decrypted set_signatureVerified];
         first [reflexivity | congruence]].

Lemma try_decrypt_fields (P : MMTPProtocol) (r : option string) (packet : Packet) :
  let p := try_decrypt P r packet in
  sender p = sender packet /\ recipient p = recipient packet
  /\ verification p = verification packet
  /\ hashcashToken (meta p) = hashcashToken (meta packet)
  /\ tags (meta p) = tags (meta packet)
  /\ encrypted (meta p) = encrypted (meta packet)
  /\ signed (meta p) = signed (meta packet)
  /\ messageId (meta p) = messageId (meta packet)
  /\ (encrypted (meta packet) && usePGP P = false -> p = packet)
  /\ (r = None -> p = packet).
Proof.
  unfold try_decrypt. destruct r as [email |]; [| fields_done].
  destruct (encrypted (meta packet)) eqn:He; cbn [andb]; [| fields_done].
  destruct (usePGP P) eqn:Hp; cbn [andb]; [| fields_done].
  destruct (Js.truthy (Some email)); [| fields_done].
  destruct (content packet) as [? ? | armored]; [fields_done |].
  destruct (decrypt_for (keys P) email armored); fields_done.
Qed.

Lemma try_verify_fields (P : MMTPProtocol) (packet : Packet) :
  let p := try_verify P packet in
  sender p = sender packet /\ recipient p = recipient packet
  /\ verification p = verification packet
  /\ hashcashToken (meta p) = hashcashToken (meta packet)
  /\ tags (meta p) = tags (meta packet)
  /\ encrypted (meta p) = encrypted (meta packet)
  /\ signed (meta p) = signed (meta packet)
  /\ messageId (meta p) = messageId (meta packet)
  /\ content p = content packet
  /\ (usePGP P = false -> p = packet).
Proof.
  unfold try_verify.
  destruct (signed (meta packet)) eqn:Hs; cbn [andb]; [| fields_done].
  destruct (Js.truthy (signature (verification packet))); cbn [andb]; [| fields_done].
  destruct (usePGP P) eqn:Hp; [| fields_done].
  destruct (signature (verification packet)) as [sig |] eqn:Hsig; [| fields_done].
  destruct (verify_from (keys P) (sender packet) (stringify_content (content packet)) sig);
    fields_done.
Qed.

(** X8. A packet processPacket accepts comes back with the sender, the
    recipient, the message id, the token, the tags, the stored hash and
    signature and the encrypted and signed flags it had; it comes back
    unchanged when PGP is off, and with the content it had when no recipient
    address is given or the packet is not flagged encrypted; and it passes
    both checks again. *)
Theorem processPacket_preserves (P : MMTPProtocol) (packet processed : Packet)
    (recipientEmail : option string) (checks : list Check) :
  processPacket P packet recipientEmail = (checks, Success processed) ->
  sender processed = sender packet /\ recipient processed = recipient packet
  /\ messageId (meta processed) = messageId (meta packet)
  /\ hashcashToken (meta processed) = hashcashToken (meta packet)
  /\ tags (meta processed) = tags (meta packet)
  /\ verification processed = verification packet
  /\ encrypted (meta processed) = encrypted (meta packet)
  /\ signed (meta processed) = signed (meta packet)
  /\ (usePGP P = false -> processed = packet)
  /\ (recipientEmail = None \/ encrypted (meta packet) = false ->
      content processed = content packet)
  /\ verifyMessageIntegrity processed = true
  /\ verifyHashCash P processed = true.
Proof.
  unfold processPacket.
  destruct (verifyMessageIntegrity packet) eqn:Hint; cbn [negb]; [| discriminate].
  destruct (verifyHashCash P packet) eqn:Hcash; cbn [negb]; [| discriminate].
  intros H. injection H as _ <-.
  pose proof (try_decrypt_fields P recipientEmail packet) as Hd.
  pose proof (try_verify_fields P (try_decrypt P recipientEmail packet)) as Hv.
  cbn zeta in Hd, Hv.
  destruct Hd as (D1 & D2 & D3 & D4 & D5 & D6 & D7 & D8 & D9 & D10).
  destruct Hv as (V1 & V2 & V3 & V4 & V5 & V6 & V7 & V8 & V9 & V10).
  assert (recipientEmail = None \/ encrypted (meta packet) = false ->
          content (try_verify P (try_decrypt P recipientEmail packet)) = content packet)
    as Hcontent.
  { intros Hwhy. rewrite V9. destruct Hwhy as [-> | Hplain].
    - now rewrite D10.
    - rewrite D9; [reflexivity |]. now rewrite Hplain. }
  repeat split; try congruence.
  - intros Hoff. rewrite V10 by exact Hoff. apply D9. rewrite Hoff. apply andb_false_r.
  - exact Hcontent.
  - unfold verifyMessageIntegrity in *. rewrite V6, D6.
    destruct (encrypted (meta packet)) eqn:He; [reflexivity |].
    rewrite Hcontent by now right. rewrite V3, D3. exact Hint.
  - rewrite verifyHashCash_unfold in *. now rewrite V4, D4.
Qed.

End CreatedPackets.

Lemma createMessagePacket_accepted_witness :
  exists processed : Protocol.Packet,
    Protocol.processPacket (Sample.engine 1 false) Sample.hi_packet None
    = ([Protocol.IntegrityCheck; Protocol.HashCashCheck], Protocol.Success processed).
Proof.
  apply (createMessagePacket_accepted 76 (Sample.engine 2 false) Sample.t0
           "000102030405060708090a0b0c0d0e0f" Sample.a_x Sample.b_x "Hi" "Yo" "SEND"
           Sample.no_options Sample.hi_packet).
  - vm_compute. reflexivity.
  - cbn. lia.
Defined.

Lemma processPacket_preserves_witness :
  Protocol.verifyMessageIntegrity Sample.hi_packet = true
  /\ Protocol.verifyHashCash (Sample.engine 2 true) Sample.hi_packet = true.
Proof.
  destruct (processPacket_preserves (Sample.engine 2 true) Sample.hi_packet
              Sample.hi_packet None [Protocol.IntegrityCheck; Protocol.HashCashCheck])
    as (_ & _ & _ & _ & _ & _ & _ & _ & _ & _ & Hi & Hh).
  - vm_compute. reflexivity.
  - split; [exact Hi | exact Hh].
Defined.

(** ** Replies *)

Section Replies.
Import Protocol TagSpec.

(** X9. A reply createReplyPacket returns is addressed to the sender of the
    original, is of type REPLY, and hashes the subject "RE: " followed by the
    original subject, or by "Encrypted Message" when the original is flagged
    encrypted. Without tags of its own it carries the original's tags as
    processTags leaves them, which are the original's tags themselves when
    these came out of processTags (no category bearing an inherited name). A
    reply to a packet whose sender is not a valid address throws the format
    error, whatever the fuel. *)
Theorem createReplyPacket_spec :
  (forall (fuel : nat) (P : MMTPProtocol) (now : N) (fresh : string)
          (originalPacket : Packet) (from body : string) (options : Options)
          (reply : Packet),
     createReplyPacket fuel P now fresh originalPacket from body options
     = Some (Returns reply) ->
     recipient reply = sender originalPacket /\ sender reply = from
     /\ Protocol.type (meta reply) = "REPLY"
     /\ messageHash (verification reply)
        = generateSHA256
            (stringify_content
               (Plain ("RE: " +:+ (if encrypted (meta originalPacket)
                                   then "Encrypted Message"
                                   else match content originalPacket with
                                        | Plain subject _ => subject
                                        | Ciphertext _ => "undefined"
                                        end))
                      body))
     /\ (opt_tags options = TagsAbsent ->
         forall m, tags (meta originalPacket) = Some m ->
                   own_categories m = true ->
                   tags (meta reply) = Some (processTags (TagsObject m)))
     /\ (opt_tags options = TagsAbsent ->
         forall input, tags (meta originalPacket) = Some (processTags input) ->
                       own_input input = true ->
                       tags (meta reply) = tags (meta originalPacket))
     /\ (opt_tags options <> TagsAbsent ->
         own_input (opt_tags options) = true ->
         tags (meta reply) = Some (processTags (opt_tags options))))
  /\ (forall (fuel : nat) (P : MMTPProtocol) (now : N) (fresh : string)
             (originalPacket : Packet) (from body : string) (options : Options),
        validateEmailFormat (sender originalPacket) = false ->
        createReplyPacket fuel P now fresh originalPacket from body options
        = Some (Throws "Invalid email format. Must be (name)%(domain)")).
Proof.
  split.
  - intros fuel P now fresh original from body options reply Hrun.
    unfold createReplyPacket in Hrun.
    destruct (createMessagePacket_inv _ _ _ _ _ _ _ _ _ _ _ Hrun)
      as (_ & _ & _ & Hs & Hr & Ht & _ & _ & Htags & _ & _ & Hhash & _).
    assert (opt_tags options = TagsAbsent ->
            forall m, tags (meta original) = Some m ->
                      tags (meta reply) = Some (processTags (TagsObject m))) as Hinherit.
    { intros Habsent m Hm. rewrite Htags. unfold inherit_tags.
      now rewrite Habsent, Hm. }
    repeat split; try assumption.
    + intros Habsent m Hm _. now apply Hinherit.
    + intros Habsent input Hin _. rewrite (Hinherit Habsent _ Hin), Hin.
      now rewrite processTags_twice.
    + intros Hgiven _. rewrite Htags. unfold inherit_tags.
      destruct (opt_tags options) eqn:Ho; [contradiction | |];
        destruct (tags (meta original)); now rewrite Ho.
  - intros fuel P now fresh original from body options Hbad.
    unfold createReplyPacket, createMessagePacket. rewrite Hbad.
    now rewrite orb_true_r.
Qed.

End Replies.

(** A reply of (b)%(x.com) to the packet of the scenario. *)
Lemma createReplyPacket_spec_witness :
  exists reply : Protocol.Packet,
    Protocol.createReplyPacket 200 (Sample.engine 1 false) Sample.t0 "0f"
      Sample.hi_packet Sample.b_x "Hello" Sample.no_options
    = Some (Protocol.Returns reply)
    /\ Protocol.recipient reply = Sample.a_x
    /\ Protocol.tags (Protocol.meta reply) = Some ∅.
Proof.
  assert (exists reply : Protocol.Packet,
            Protocol.createReplyPacket 200 (Sample.engine 1 false) Sample.t0 "0f"
              Sample.hi_packet Sample.b_x "Hello" Sample.no_options
            = Some (Protocol.Returns reply)) as [reply Hrun]
    by (eexists; vm_compute; reflexivity).
  exists reply. split; [exact Hrun |].
  destruct (proj1 createReplyPacket_spec _ _ _ _ _ _ _ _ _ Hrun)
    as (Hr & _ & _ & _ & Ht & _).
  split; [exact Hr |].
  rewrite (Ht eq_refl ∅ eq_refl eq_refl). vm_compute. reflexivity.
Defined.

(** ** SEND stores, and what the handlers leave alone *)

Section Delivery.
Import Protocol Server.
Variable S : MMTPServer.

Lemma handleSendMail_unfold (mailboxes : Mailboxes) (packet : Packet) :
  handleSendMail S mailboxes packet
  = if negb (verifyMessageIntegrity packet) then
      (mailboxes, Error "Message integrity check failed")
    else if negb (verifyHashCash (protocol S) packet) then
      (mailboxes, Error "HashCash verification failed - potential spam")
    else
      let stored := try_verify (protocol S) packet in
      (<[recipient stored := default [] (mailboxes !! recipient stored) ++ [stored]]>
         mailboxes,
       Delivered (messageId (meta stored)) (encrypted (meta stored))
                 (signed (meta stored))).
Proof.
  unfold handleSendMail, processPacket.
  destruct (verifyMessageIntegrity packet); [| reflexivity].
  destruct (verifyHashCash (protocol S) packet); reflexivity.
Qed.

(** Each handler writes at most the mailbox of the address it was given. *)
Lemma handleSendMail_frame (mailboxes : Mailboxes) (packet : Packet) (other : string) :
  other <> recipient packet ->
  fst (handleSendMail S mailboxes packet) !! other = mailboxes !! other.
Proof.
  intros Hne. rewrite handleSendMail_unfold.
  destruct (negb (verifyMessageIntegrity packet)); [reflexivity |].
  destruct (negb (verifyHashCash (protocol S) packet)); [reflexivity |].
  cbn [fst]. destruct (try_verify_fields (protocol S) packet) as (_ & Hr & _).
  rewrite Hr. apply lookup_insert_ne. congruence.
Qed.

Lemma handleReceiveMail_frame (mailboxes : Mailboxes) (email other : string) :
  other <> email ->
  fst (handleReceiveMail S mailboxes email) !! other = mailboxes !! other.
Proof.
  intros Hne. unfold handleReceiveMail.
  destruct (negb (validateEmailFormat email)); [reflexivity |].
  destruct (mailboxes !! email) as [[|p queue] |]; try reflexivity.
  cbn [fst]. apply lookup_delete_ne. congruence.
Qed.

Lemma handleReceiveFilteredMail_frame (mailboxes : Mailboxes) (email other : string)
    (tagFilters : option TagMap) :
  other <> email ->
  fst (handleReceiveFilteredMail S mailboxes email tagFilters) !! other
  = mailboxes !! other.
Proof.
  intros Hne. unfold handleReceiveFilteredMail.
  destruct (negb (validateEmailFormat email)); [reflexivity |].
  destruct (mailboxes !! email) as [[|p queue] |]; try reflexivity.
  destruct (has_filters tagFilters); cbn [fst].
  - apply lookup_insert_ne. congruence.
  - apply lookup_delete_ne. congruence.
Qed.

(** X10. A packet that passes both checks, for a recipient that is none of
    the inherited names, is appended by SEND at the end of the queue of its
    recipient, with the content it came with (and unchanged altogether when
    PGP is off); the answer carries its message id and flags; a RECEIVE of the recipient that follows, on a server without PGP, answers
    the earlier queue followed by that packet. *)
Theorem handleSendMail_delivers (mailboxes : Mailboxes) (packet : Packet) :
  verifyMessageIntegrity packet = true ->
  verifyHashCash (protocol S) packet = true ->
  Js.inherited (recipient packet) = false ->
  exists stored : Packet,
    handleSendMail S mailboxes packet
    = (<[recipient packet := default [] (mailboxes !! recipient packet) ++ [stored]]>
         mailboxes,
       Delivered (messageId (meta packet)) (encrypted (meta packet))
                 (signed (meta packet)))
    /\ content stored = content packet
    /\ messageId (meta stored) = messageId (meta packet)
    /\ (Protocol.usePGP (protocol S) = false -> stored = packet)
    /\ (validateEmailFormat (recipient packet) = true -> usePGP S = false ->
        handleReceiveMail S (fst (handleSendMail S mailboxes packet)) (recipient packet)
        = (delete (recipient packet) mailboxes,
           Messages (default [] (mailboxes !! recipient packet) ++ [stored])
                    (Datatypes.S (length (default [] (mailboxes !! recipient packet)))))).
Proof.
  intros Hint Hcash _. exists (try_verify (protocol S) packet).
  destruct (try_verify_fields (protocol S) packet)
    as (_ & Hr & _ & _ & _ & He & Hs & Hid & Hc & Hoff).
  assert (handleSendMail S mailboxes packet
          = (<[recipient packet := default [] (mailboxes !! recipient packet)
                                    ++ [try_verify (protocol S) packet]]> mailboxes,
             Delivered (messageId (meta packet)) (encrypted (meta packet))
                       (signed (meta packet)))) as Hrun.
  { rewrite handleSendMail_unfold, Hint, Hcash. cbn [negb]. cbv zeta.
    now rewrite Hr, He, Hs, Hid. }
  split; [exact Hrun |]. split; [exact Hc |]. split; [exact Hid |].
  split; [exact Hoff |].
  intros Hvalid Hpgp. rewrite Hrun. cbn [fst]. unfold handleReceiveMail.
  rewrite Hvalid, lookup_insert_eq. cbn [negb]. unfold decrypt_pass. rewrite Hpgp.
  rewrite delete_insert_eq, length_app, Nat.add_1_r.
  destruct (default [] (mailboxes !! recipient packet)); reflexivity.
Qed.


(** *** Mail for an address that is not valid *)

Lemma handleRequest_keeps_invalid (mailboxes : Mailboxes) (request : Request) (r : string) :
  validateEmailFormat r = false ->
  default [] (mailboxes !! r)
    `prefix_of` default [] (fst (handleRequest S mailboxes request) !! r).
Proof.
  intros Hbad. destruct request as [packet | email | email tagFilters | email tagFilters |];
    cbn [handleRequest].
  - destruct (decide (r = recipient packet)) as [-> | Hne].
    + rewrite handleSendMail_unfold.
      destruct (negb (verifyMessageIntegrity packet)); [reflexivity |].
      destruct (negb (verifyHashCash (protocol S) packet)); [reflexivity |].
      cbn [fst]. destruct (try_verify_fields (protocol S) packet) as (_ & Hr & _).
      rewrite Hr, lookup_insert_eq. cbn. now apply prefix_app_r.
    + now rewrite handleSendMail_frame.
  - destruct (decide (r = email)) as [-> | Hne].
    + unfold handleReceiveMail. now rewrite Hbad.
    + now rewrite handleReceiveMail_frame.
  - destruct (decide (r = email)) as [-> | Hne].
    + unfold handleReceiveFilteredMail. now rewrite Hbad.
    + now rewrite handleReceiveFilteredMail_frame.
  - now rewrite handleCheckMail_store.
  - reflexivity.
Qed.

(** X12. SEND does not look at the syntax of the recipient: a packet for a
    recipient that validateEmailFormat rejects (and that is none of the
    inherited names) is stored like any other. The queue of such an address
    is never read and never shortened: through any run of requests it only
    grows at its end, and RECEIVE, RECEIVE_FILTERED and CHECK for it answer
    "Invalid email format" and leave the table as it is. *)
Theorem invalid_recipient_mail_stays (r : string) :
  validateEmailFormat r = false ->
  Js.inherited r = false ->
  (forall (mailboxes : Mailboxes) (requests : list Request),
     default [] (mailboxes !! r)
       `prefix_of` default [] (fst (handleRequests S mailboxes requests) !! r))
  /\ (forall (mailboxes : Mailboxes) (tagFilters : option TagMap),
        handleRequest S mailboxes (RECEIVE r) = (mailboxes, Error "Invalid email format")
        /\ handleRequest S mailboxes (RECEIVE_FILTERED r tagFilters)
           = (mailboxes, Error "Invalid email format")
        /\ handleRequest S mailboxes (CHECK r tagFilters)
           = (mailboxes, Error "Invalid email format"))
  /\ (forall (mailboxes : Mailboxes) (packet : Packet),
        recipient packet = r ->
        verifyMessageIntegrity packet = true ->
        verifyHashCash (protocol S) packet = true ->
        exists stored : Packet,
          fst (handleRequest S mailboxes (SEND packet)) !! r
          = Some (default [] (mailboxes !! r) ++ [stored])
          /\ content stored = content packet).
Proof.
  intros Hbad _. split; [| split].
  - intros mailboxes requests. revert mailboxes.
    induction requests as [|request rest IH]; intros mailboxes; [reflexivity |].
    cbn [handleRequests].
    pose proof (handleRequest_keeps_invalid mailboxes request r Hbad) as Hstep.
    destruct (handleRequest S mailboxes request) as [mailboxes' response].
    specialize (IH mailboxes').
    destruct (handleRequests S mailboxes' rest) as [final responses].
    cbn [fst] in *. now transitivity (default [] (mailboxes' !! r)).
  - intros mailboxes tagFilters. cbn [handleRequest].
    unfold handleReceiveMail, handleReceiveFilteredMail, handleCheckMail.
    rewrite Hbad. repeat split.
  - intros mailboxes packet Hr Hint Hcash. subst r.
    exists (try_verify (protocol S) packet).
    destruct (try_verify_fields (protocol S) packet)
      as (_ & Hr & _ & _ & _ & _ & _ & _ & Hc & _).
    cbn [handleRequest]. rewrite handleSendMail_unfold, Hint, Hcash.
    cbn [negb fst]. cbv zeta. rewrite Hr, lookup_insert_eq.
    split; [reflexivity | exact Hc].
Qed.

End Delivery.

(** A packet for (b)%(x.com) sent to a server that holds one already. *)
Lemma handleSendMail_delivers_witness :
  exists stored : Protocol.Packet,
    Server.handleSendMail (Sample.server 2 false) Sample.one_mail Sample.promo
    = (<[Sample.b_x := [Sample.hi_packet; stored]]> Sample.one_mail,
       Server.Delivered "01" false false)
    /\ stored = Sample.promo.
Proof.
  destruct (handleSendMail_delivers (Sample.server 2 false) Sample.one_mail Sample.promo)
    as (stored & Hrun & _ & _ & Hsame & _).
  - vm_compute. reflexivity.
  - vm_compute. reflexivity.
  - vm_compute. reflexivity.
  - exists stored. split; [| now apply Hsame].
    rewrite Hrun. reflexivity.
Defined.

(** Mail for "bob@example.com": stored by SEND, refused by RECEIVE. *)
Lemma invalid_recipient_mail_stays_witness :
  Server.handleRequest (Sample.server 2 false) Sample.one_mail
    (Server.RECEIVE "bob@example.com")
  = (Sample.one_mail, Server.Error "Invalid email format")
  /\ exists stored : Protocol.Packet,
       fst (Server.handleRequest (Sample.server 2 false) Sample.one_mail
              (Server.SEND Sample.misaddressed_packet)) !! "bob@example.com"
       = Some [stored].
Proof.
  destruct (invalid_recipient_mail_stays (Sample.server 2 false) "bob@example.com")
    as (_ & Hread & Hsend).
  - vm_compute. reflexivity.
  - vm_compute. reflexivity.
  - split; [exact (proj1 (Hread Sample.one_mail None)) |].
    destruct (Hsend Sample.one_mail Sample.misaddressed_packet)
      as (stored & Hlookup & _).
    + reflexivity.
    + vm_compute. reflexivity.
    + vm_compute. reflexivity.
    + exists stored. exact Hlookup.
Defined.

(** ** Filtered retrieval and CHECK *)

Section FilteredRetrieval.
Import Protocol Server TagSpec.
Variable S : MMTPServer.

Lemma decrypt_entry_tags (email : string) (packet : Packet) :
  tags (meta (decrypt_entry S email packet)) = tags (meta packet).
Proof.
  unfold decrypt_entry, processPacket.
  destruct (encrypted (meta packet)); [| reflexivity].
  destruct (verifyMessageIntegrity packet); [| reflexivity].
  destruct (verifyHashCash (protocol S) packet); [| reflexivity].
  cbn [negb snd].
  destruct (try_verify_fields (protocol S) (try_decrypt (protocol S) (Some email) packet))
    as (_ & _ & _ & _ & Hv & _).
  destruct (try_decrypt_fields (protocol S) (Some email) packet)
    as (_ & _ & _ & _ & Hd & _).
  congruence.
Qed.

Lemma message_passes_tags (filters : TagMap) (p q : Packet) :
  tags (meta p) = tags (meta q) -> message_passes filters p = message_passes filters q.
Proof. intros H. unfold message_passes. now rewrite H. Qed.

Lemma filter_map_length (A : Type) (f : A -> bool) (g : A -> A) (l : list A) :
  (forall x, f (g x) = f x) ->
  length (List.filter f (map g l)) = length (List.filter f l).
Proof.
  intros Hfg. induction l as [|x l IH]; [reflexivity |].
  cbn [map List.filter]. rewrite Hfg. destruct (f x); cbn [length]; now rewrite IH.
Qed.

(** The decryption pass does not change which messages a filter keeps. *)
Lemma filterMessagesByTags_decrypt_pass_length (email : string) (queue : list Packet)
    (tagFilters : option TagMap) :
  length (filterMessagesByTags (decrypt_pass S email queue) tagFilters)
  = length (filterMessagesByTags queue tagFilters).
Proof.
  unfold filterMessagesByTags.
  destruct tagFilters as [filters |]; [| apply decrypt_pass_length].
  destruct (no_keys filters); [apply decrypt_pass_length |].
  unfold decrypt_pass. destruct (usePGP S); [| reflexivity].
  apply filter_map_length. intros x. apply message_passes_tags, decrypt_entry_tags.
Qed.

Lemma NoDup_map_inj_in (A B : Type) (f : A -> B) (l : list A) (x y : A) :
  NoDup (map f l) -> x ∈ l -> y ∈ l -> f x = f y -> x = y.
Proof.
  induction l as [|a l IH]; intros Hnd Hx Hy Hf; [inversion Hx |].
  cbn [map] in Hnd. apply NoDup_cons in Hnd as [Hout Hnd].
  apply elem_of_cons in Hx as [-> | Hx]; apply elem_of_cons in Hy as [-> | Hy].
  - reflexivity.
  - exfalso. apply Hout. rewrite Hf. change (f y ∈ f <$> l). now apply list_elem_of_fmap_2.
  - exfalso. apply Hout. rewrite <- Hf. change (f x ∈ f <$> l). now apply list_elem_of_fmap_2.
  - now apply IH.
Qed.

(** X13. RECEIVE_FILTERED with at least one filter category (none of them
    bearing an inherited name), on a queue whose message ids are all
    different, splits the queue: the messages that match the filter are
    answered, in order and counted; the others stay queued, in order; between
    the two lists no message is lost or repeated; and the entry of the address
    stays in the table, even when it is left empty. *)
Theorem handleReceiveFilteredMail_partitions (mailboxes : Mailboxes) (email : string)
    (filters : TagMap) (queue : list Packet) :
  validateEmailFormat email = true ->
  mailboxes !! email = Some queue -> queue <> [] ->
  filters <> ∅ -> own_categories filters = true ->
  NoDup (map (fun p => messageId (meta p)) queue) ->
  exists delivered remaining : list Packet,
    handleReceiveFilteredMail S mailboxes email (Some filters)
    = (<[email := remaining]> mailboxes,
       FilteredMessages delivered (length delivered) (Some filters))
    /\ delivered = filter (matches filters) (decrypt_pass S email queue)
    /\ remaining = filter (fun m => ~ matches filters m) (decrypt_pass S email queue)
    /\ delivered ++ remaining ≡ₚ decrypt_pass S email queue
    /\ length delivered = length (filter (matches filters) queue).
Proof.
  intros Hvalid Hq Hne Hf _ Hnd.
  set (queue' := decrypt_pass S email queue).
  assert (NoDup (map (fun p => messageId (meta p)) queue')) as Hnd'
    by (unfold queue'; now rewrite decrypt_pass_messageIds).
  assert (forall m, message_passes filters m = true <-> matches filters m) as Hpass
    by (intros m; now apply message_passes_matches).
  exists (filter (matches filters) queue'), (filter (fun m => ~ matches filters m) queue').
  assert (List.filter (message_passes filters) queue' = filter (matches filters) queue')
    as Hdelivered by now apply filter_bool_prop.
  split; [| split; [reflexivity | split; [reflexivity | split]]].
  - unfold handleReceiveFilteredMail. rewrite Hvalid, Hq. cbn [negb].
    destruct queue as [|p0 rest]; [congruence |]. fold queue'.
    cbn [has_filters]. unfold no_keys at 1.
    rewrite bool_decide_eq_false_2 by exact Hf. cbn [negb].
    unfold filterMessagesByTags, no_keys.
    rewrite bool_decide_eq_false_2 by exact Hf.
    rewrite Hdelivered. f_equal. f_equal.
    rewrite <- Hdelivered.
    rewrite (filter_ext_in _ (fun m => negb (message_passes filters m))).
    + apply filter_bool_prop. intros m. rewrite negb_true_iff, <- Hpass.
      now rewrite not_true_iff_false.
    + intros m Hm. f_equal. apply list_elem_of_In in Hm.
      destruct (message_passes filters m) eqn:Hmp.
      * apply existsb_exists. exists m. split.
        -- apply filter_In. split; [now apply list_elem_of_In | exact Hmp].
        -- apply String.eqb_refl.
      * apply not_true_is_false. intros Hex.
        apply existsb_exists in Hex as (d & Hd & Hid).
        apply filter_In in Hd as [Hd Hdp]. apply list_elem_of_In in Hd.
        apply String.eqb_eq in Hid.
        assert (d = m) as -> by exact (NoDup_map_inj_in _ _ _ _ _ _ Hnd' Hd Hm Hid).
        congruence.
  - apply filter_app_complement.
  - rewrite <- Hdelivered, <- (filter_bool_prop _ (message_passes filters)) by exact Hpass.
    pose proof (filterMessagesByTags_decrypt_pass_length email queue (Some filters)) as Hlen.
    unfold filterMessagesByTags, no_keys in Hlen.
    now rewrite bool_decide_eq_false_2 in Hlen by exact Hf.
Qed.

(** X14. On a valid address, with no inherited name among the filter
    categories and the categories and tags of the queued messages, the counts
    CHECK answers are the counts of the retrievals: totalCount is the number
    of messages a RECEIVE would answer at that moment, and count is the number
    of messages a RECEIVE_FILTERED with the same filters would answer. *)
Theorem handleCheckMail_predicts (mailboxes : Mailboxes) (email : string)
    (tagFilters : option TagMap) :
  validateEmailFormat email = true ->
  own_filters tagFilters = true ->
  forallb plain_message (default [] (mailboxes !! email)) = true ->
  exists (all filtered : list Packet) (tagCounts : TagCounts) (after1 after2 : Mailboxes),
    handleReceiveMail S mailboxes email = (after1, Messages all (length all))
    /\ handleReceiveFilteredMail S mailboxes email tagFilters
       = (after2, FilteredMessages filtered (length filtered) tagFilters)
    /\ handleCheckMail S mailboxes email tagFilters
       = (mailboxes, Checked (length filtered) (length all) tagCounts).
Proof.
  intros Hvalid _ _.
  unfold handleReceiveMail, handleReceiveFilteredMail, handleCheckMail.
  rewrite Hvalid. cbn [negb].
  destruct (mailboxes !! email) as [[|p0 rest] |].
  - exists [], []. repeat eexists.
  - cbn [default]. change (0 <? length (p0 :: rest)) with true.
    set (queue := p0 :: rest).
    cbn [andb]. destruct (has_filters tagFilters) eqn:Hhas.
    + exists (decrypt_pass S email queue),
        (filterMessagesByTags (decrypt_pass S email queue) tagFilters).
      repeat eexists.
      now rewrite filterMessagesByTags_decrypt_pass_length, decrypt_pass_length.
    + exists (decrypt_pass S email queue), (decrypt_pass S email queue).
      repeat eexists. now rewrite decrypt_pass_length.
  - exists [], []. repeat eexists.
Qed.

End FilteredRetrieval.

(** Three messages queued for (b)%(x.com), one of them a promotion. *)
Lemma handleReceiveFilteredMail_partitions_witness :
  exists delivered remaining : list Protocol.Packet,
    Server.handleReceiveFilteredMail (Sample.server 2 false)
      {[ Sample.b_x := [Sample.untagged; Sample.promo; Sample.urgent] ]} Sample.b_x
      (Some Sample.promo_filter)
    = (<[Sample.b_x := remaining]>
         {[ Sample.b_x := [Sample.untagged; Sample.promo; Sample.urgent] ]},
       Server.FilteredMessages delivered (length delivered) (Some Sample.promo_filter))
    /\ delivered = [Sample.promo]
    /\ remaining = [Sample.untagged; Sample.urgent].
Proof.
  destruct (handleReceiveFilteredMail_partitions (Sample.server 2 false)
              {[ Sample.b_x := [Sample.untagged; Sample.promo; Sample.urgent] ]}
              Sample.b_x Sample.promo_filter
              [Sample.untagged; Sample.promo; Sample.urgent])
    as (delivered & remaining & Hrun & Hd & Hr & _).
  - vm_compute. reflexivity.
  - vm_compute. reflexivity.
  - discriminate.
  - apply insert_non_empty.
  - vm_compute. reflexivity.
  - change (NoDup ["02"; "01"; "03"]).
    repeat (apply NoDup_cons; split;
            [intros H; repeat (apply elem_of_cons in H as [H | H]; [discriminate H |]);
             inversion H |]).
    apply NoDup_nil_2.
  - exists delivered, remaining. split; [exact Hrun |].
    split; [rewrite Hd | rewrite Hr]; vm_compute; reflexivity.
Defined.

Lemma handleCheckMail_predicts_witness :
  exists (all filtered : list Protocol.Packet) (tagCounts : gmap string (gmap string nat))
         (after1 after2 : gmap string (list Protocol.Packet)),
    Server.handleReceiveMail (Sample.server 2 false) Sample.one_mail Sample.b_x
    = (after1, Server.Messages all (length all))
    /\ Server.handleReceiveFilteredMail (Sample.server 2 false) Sample.one_mail Sample.b_x
         (Some Sample.promo_filter)
       = (after2, Server.FilteredMessages filtered (length filtered)
                    (Some Sample.promo_filter))
    /\ Server.handleCheckMail (Sample.server 2 false) Sample.one_mail Sample.b_x
         (Some Sample.promo_filter)
       = (Sample.one_mail, Server.Checked (length filtered) (length all) tagCounts).
Proof.
  apply (handleCheckMail_predicts (Sample.server 2 false) Sample.one_mail Sample.b_x
           (Some Sample.promo_filter)); vm_compute; reflexivity.
Defined.

(** ** The histogram of CHECK *)

Section Histogram.
Import Protocol Server TagSpec.

Lemma count_tag_lookup (counts : gmap string nat) (tagList : list string) (tag : string) :
  default 0 (fold_left count_tag tagList counts !! tag)
  = default 0 (counts !! tag) + occurrences tag tagList.
Proof.
  revert counts. induction tagList as [|x tagList IH]; intros counts.
  - cbn [fold_left occurrences]. symmetry. apply Nat.add_0_r.
  - cbn [fold_left occurrences]. rewrite IH. unfold count_tag.
    destruct (String.eqb_spec x tag) as [-> | Hne].
    + rewrite lookup_insert_eq. cbn [default from_option id].
      generalize (default 0 (counts !! tag)). intros a. lia.
    + rewrite lookup_insert_ne by exact Hne. reflexivity.
Qed.

Lemma count_category_at (counts : TagCounts) (c : string) (tagList : list string)
    (category tag : string) :
  count_at (count_category counts (c, tagList)) category tag
  = count_at counts category tag
    + (if decide (c = category) then occurrences tag tagList else 0).
Proof.
  unfold count_at, count_category.
  destruct (decide (c = category)) as [-> | Hne].
  - rewrite lookup_insert_eq. cbn [mbind option_bind]. rewrite count_tag_lookup.
    destruct (counts !! category); reflexivity.
  - rewrite lookup_insert_ne by exact Hne. symmetry. apply Nat.add_0_r.
Qed.

Lemma count_entries_at (entries : list (string * list string)) (counts : TagCounts)
    (category tag : string) :
  NoDup (map fst entries) ->
  count_at (fold_left count_category entries counts) category tag
  = count_at counts category tag
    + occurrences tag (default [] ((list_to_map entries : TagMap) !! category)).
Proof.
  revert counts. induction entries as [|[c tagList] entries IH]; intros counts Hnd.
  - cbn [fold_left list_to_map foldr]. rewrite lookup_empty. symmetry. apply Nat.add_0_r.
  - cbn [map fst] in Hnd. apply NoDup_cons in Hnd as [Hout Hnd].
    cbn [fold_left]. rewrite (IH _ Hnd), count_category_at.
    change (list_to_map ((c, tagList) :: entries) : TagMap)
      with (<[c := tagList]> (list_to_map entries : TagMap)).
    destruct (decide (c = category)) as [-> | Hne].
    + rewrite lookup_insert_eq.
      rewrite (not_elem_of_list_to_map_1 (M := gmap string)) by exact Hout.
      cbn [default from_option id occurrences]. rewrite Nat.add_0_r. reflexivity.
    + rewrite lookup_insert_ne by exact Hne. now rewrite Nat.add_0_r.
Qed.

Lemma count_message_at (counts : TagCounts) (message : Packet) (category tag : string) :
  count_at (count_message counts message) category tag
  = count_at counts category tag + occurrences tag (message_tags message category).
Proof.
  unfold count_message, message_tags.
  destruct (tags (meta message)) as [m |]; [| symmetry; apply Nat.add_0_r].
  unfold no_keys. destruct (bool_decide_reflect (m = ∅)) as [-> | _].
  - rewrite lookup_empty. symmetry. apply Nat.add_0_r.
  - rewrite count_entries_at by apply NoDup_fst_map_to_list.
    now rewrite list_to_map_to_list.
Qed.

Lemma fold_count_message_at (messages : list Packet) (counts : TagCounts)
    (category tag : string) :
  count_at (fold_left count_message messages counts) category tag
  = count_at counts category tag + tag_total category tag messages.
Proof.
  revert counts. induction messages as [|m messages IH]; intros counts.
  - cbn [fold_left tag_total]. symmetry. apply Nat.add_0_r.
  - cbn [fold_left tag_total]. rewrite IH, count_message_at. apply eq_sym, Nat.add_assoc.
Qed.

(** *** No count of zero is ever stored *)

Lemma count_tag_positive (tagList : list string) (inner : gmap string nat) :
  (forall t n, inner !! t = Some n -> 0 < n) ->
  forall t n, fold_left count_tag tagList inner !! t = Some n -> 0 < n.
Proof.
  revert inner. induction tagList as [|x tagList IH]; intros inner Hpos; [exact Hpos |].
  cbn [fold_left]. apply IH. intros t n. unfold count_tag.
  destruct (decide (x = t)) as [-> | Hne].
  - rewrite lookup_insert_eq. intros H. injection H as <-. apply Nat.add_pos_r, Nat.lt_0_1.
  - rewrite lookup_insert_ne by exact Hne. apply Hpos.
Qed.

Lemma count_category_positive (counts : TagCounts) (entry : string * list string) :
  positive_counts counts -> positive_counts (count_category counts entry).
Proof.
  intros Hpos. destruct entry as [c tagList]. intros category tag n.
  unfold count_category. destruct (decide (c = category)) as [-> | Hne].
  - rewrite lookup_insert_eq. cbn [mbind option_bind]. apply count_tag_positive.
    intros t k Hk. apply (Hpos category t k).
    destruct (counts !! category) as [inner |]; [exact Hk |].
    cbn in Hk. rewrite lookup_empty in Hk. discriminate Hk.
  - rewrite lookup_insert_ne by exact Hne. apply Hpos.
Qed.

Lemma count_message_positive (counts : TagCounts) (message : Packet) :
  positive_counts counts -> positive_counts (count_message counts message).
Proof.
  intros Hpos. unfold count_message.
  destruct (tags (meta message)) as [m |]; [| exact Hpos].
  destruct (no_keys m); [exact Hpos |].
  revert counts Hpos. induction (map_to_list m) as [|e entries IH]; intros counts Hpos;
    [exact Hpos |].
  cbn [fold_left]. apply IH. now apply count_category_positive.
Qed.

Lemma countMessagesByTags_positive (messages : list Packet) :
  positive_counts (countMessagesByTags messages).
Proof.
  unfold countMessagesByTags.
  assert (positive_counts (∅ : TagCounts)) as Hempty.
  { intros c t n H. rewrite lookup_empty in H. discriminate H. }
  revert Hempty. generalize (∅ : TagCounts).
  induction messages as [|m messages IH]; intros counts Hpos; [exact Hpos |].
  cbn [fold_left]. apply IH. now apply count_message_positive.
Qed.

(** X15. Over messages whose categories and tags bear no inherited name,
    the histogram CHECK answers counts, for every category and tag, the
    occurrences of the tag in that category over all queued messages (a tag
    a message lists twice counts twice), and it holds no entry for a tag
    that occurs nowhere. *)
Theorem countMessagesByTags_counts (messages : list Packet) (category tag : string) :
  forallb plain_message messages = true ->
  default 0 (countMessagesByTags messages !! category ≫= fun inner => inner !! tag)
  = tag_total category tag messages
  /\ (tag_total category tag messages = 0 <->
      countMessagesByTags messages !! category ≫= (fun inner => inner !! tag) = None).
Proof.
  intros _.
  assert (count_at (countMessagesByTags messages) category tag
          = tag_total category tag messages) as Htotal.
  { unfold countMessagesByTags. rewrite fold_count_message_at.
    unfold count_at. now rewrite lookup_empty. }
  split; [exact Htotal |].
  unfold count_at in Htotal.
  pose proof (countMessagesByTags_positive messages category tag) as Hpos.
  destruct (countMessagesByTags messages !! category ≫= (fun inner => inner !! tag))
    as [n |].
  - cbn in Htotal. specialize (Hpos n eq_refl). split; [| discriminate].
    intros Hzero. rewrite Hzero in Htotal. subst n. inversion Hpos.
  - cbn in Htotal. split; [reflexivity | now intros _].
Qed.

End Histogram.

(** Two promotions and one urgent message: promotion counts 2, and a tag no
    message carries has no entry. *)
Lemma countMessagesByTags_counts_witness :
  default 0 (Server.countMessagesByTags
               [Sample.promo; Sample.untagged; Sample.urgent; Sample.promo]
               !! "category" ≫= fun inner => inner !! "promotion")
  = 2
  /\ Server.countMessagesByTags
        [Sample.promo; Sample.untagged; Sample.urgent; Sample.promo]
        !! "category" ≫= (fun inner => inner !! "coupon") = None.
Proof.
  split.
  - rewrite (proj1 (countMessagesByTags_counts
                      [Sample.promo; Sample.untagged; Sample.urgent; Sample.promo]
                      "category" "promotion" eq_refl)).
    vm_compute. reflexivity.
  - apply (proj2 (countMessagesByTags_counts
                    [Sample.promo; Sample.untagged; Sample.urgent; Sample.promo]
                    "category" "coupon" eq_refl)).
    vm_compute. reflexivity.
Defined.

(** ** How filters compose *)

Section FilterAlgebra.
Import Protocol TagSpec.

Lemma filterMessagesByTags_elem (messages : list Packet) (filters : TagMap)
    (message : Packet) :
  message ∈ filterMessagesByTags messages (Some filters)
  <-> message ∈ messages /\ (filters = ∅ \/ matches filters message).
Proof.
  unfold filterMessagesByTags, no_keys.
  destruct (bool_decide_reflect (filters = ∅)) as [-> | Hne].
  - split; [intros H; split; [exact H | now left] | now intros [H _]].
  - rewrite !list_elem_of_In, filter_In, message_passes_matches by exact Hne.
    split; intros [H1 H2]; (split; [exact H1 |]); [now right |].
    destruct H2 as [H2 | H2]; [contradiction | exact H2].
Qed.

(** X16. With filter categories that bear no inherited name,
    filterMessagesByTags returns a sublist of its input; filtering its
    result again with the same filters changes nothing (so the second pass the
    client runs over a RECEIVE_FILTERED answer is a no-op); and a filter with
    more categories, or the same categories, keeps no message that a filter
    contained in it drops. *)
Theorem filterMessagesByTags_algebra :
  (forall (messages : list Packet) (tagFilters : option TagMap),
     own_filters tagFilters = true ->
     sublist (filterMessagesByTags messages tagFilters) messages)
  /\ (forall (messages : list Packet) (tagFilters : option TagMap),
        own_filters tagFilters = true ->
        filterMessagesByTags (filterMessagesByTags messages tagFilters) tagFilters
        = filterMessagesByTags messages tagFilters)
  /\ (forall (messages : list Packet) (small large : TagMap) (message : Packet),
        own_categories large = true ->
        small ⊆ large ->
        message ∈ filterMessagesByTags messages (Some large) ->
        message ∈ filterMessagesByTags messages (Some small)).
Proof.
  split; [| split].
  - intros messages [filters |] _; [| reflexivity].
    unfold filterMessagesByTags. destruct (no_keys filters); [reflexivity |].
    induction messages as [|m messages IH]; [constructor |].
    cbn [List.filter]. destruct (message_passes filters m).
    + now apply sublist_skip.
    + now apply sublist_cons.
  - intros messages [filters |] _; [| reflexivity].
    unfold filterMessagesByTags. destruct (no_keys filters); [reflexivity |].
    apply filter_filter_same.
  - intros messages small large message _ Hsub.
    rewrite !filterMessagesByTags_elem. intros [Hin Hlarge]. split; [exact Hin |].
    destruct (decide (small = ∅)) as [-> | Hne]; [now left |]. right.
    destruct Hlarge as [-> | Hlarge].
    + exfalso. apply Hne. apply map_eq. intros i. rewrite lookup_empty.
      apply eq_None_not_Some. intros [x Hx].
      pose proof (lookup_weaken _ _ _ _ Hx Hsub) as H. rewrite lookup_empty in H.
      discriminate H.
    + intros category filterTags Hc. apply Hlarge.
      exact (lookup_weaken _ _ _ _ Hc Hsub).
Qed.

End FilterAlgebra.

Lemma filterMessagesByTags_algebra_witness :
  Sample.promo
  ∈ Protocol.filterMessagesByTags [Sample.untagged; Sample.promo; Sample.urgent]
      (Some Sample.promo_filter).
Proof.
  apply (proj2 (proj2 filterMessagesByTags_algebra)
           [Sample.untagged; Sample.promo; Sample.urgent]
           Sample.promo_filter Sample.promo_filter Sample.promo).
  - vm_compute. reflexivity.
  - reflexivity.
  - vm_compute. apply list_elem_of_here.
Defined.

(** ** The connection limit *)

Section ConnectionLimit.
Import Protocol Server.
Variable S : MMTPServer.
Variable useTLS : bool.

Lemma find_listener (l : list (nat * string)) (sid : nat) :
  match List.find (fun e => Nat.eqb (fst e) sid) l with
  | Some (i, ip) => i = sid /\ (sid, ip) ∈ l
  | None => sid ∉ map fst l
  end.
Proof.
  induction l as [|[i ip] l IH]; cbn [List.find map fst].
  - intros H. inversion H.
  - destruct (Nat.eqb_spec i sid) as [-> | Hne].
    + split; [reflexivity | apply list_elem_of_here].
    + destruct (List.find (fun e => Nat.eqb (fst e) sid) l) as [[i' ip'] |].
      * destruct IH as [-> Hin]. split; [reflexivity | now apply list_elem_of_further].
      * intros Hin. apply elem_of_cons in Hin as [-> | Hin]; [congruence | exact (IH Hin)].
Qed.

Lemma remove_listener_fresh (l : list (nat * string)) (sid : nat) :
  sid ∉ map fst l ->
  List.filter (fun e => negb (Nat.eqb (fst e) sid)) l = l.
Proof.
  induction l as [|[i ip] l IH]; intros Hout; [reflexivity |].
  cbn [List.filter fst]. destruct (Nat.eqb_spec i sid) as [-> | Hne].
  - exfalso. apply Hout. apply list_elem_of_here.
  - cbn [negb]. rewrite IH; [reflexivity |].
    intros Hin. apply Hout. cbn [map fst]. now apply list_elem_of_further.
Qed.

Lemma remove_listener_count (l : list (nat * string)) (sid : nat) (ip0 ip : string) :
  NoDup (map fst l) -> (sid, ip0) ∈ l ->
  length (List.filter (fun e => String.eqb (snd e) ip) l)
  = length (List.filter (fun e => String.eqb (snd e) ip)
              (List.filter (fun e => negb (Nat.eqb (fst e) sid)) l))
    + (if String.eqb ip0 ip then 1 else 0).
Proof.
  induction l as [|[i a] l IH]; intros Hnd Hin; [inversion Hin |].
  cbn [map fst] in Hnd. apply NoDup_cons in Hnd as [Hout Hnd].
  cbn [List.filter fst snd]. apply elem_of_cons in Hin as [Heq | Hin].
  - injection Heq as <- <-. rewrite Nat.eqb_refl. cbn [negb].
    rewrite (remove_listener_fresh l sid Hout).
    destruct (String.eqb ip0 ip); cbn [length]; lia.
  - destruct (Nat.eqb_spec i sid) as [-> | Hne].
    + exfalso. apply Hout. change (sid ∈ fst <$> l).
      apply list_elem_of_fmap. exists (sid, ip0). split; [reflexivity | exact Hin].
    + cbn [negb List.filter snd]. specialize (IH Hnd Hin).
      destruct (String.eqb a ip); cbn [length]; lia.
Qed.

Lemma remove_listener_NoDup (l : list (nat * string)) (sid : nat) :
  NoDup (map fst l) ->
  NoDup (map fst (List.filter (fun e => negb (Nat.eqb (fst e) sid)) l)).
Proof.
  induction l as [|[i a] l IH]; intros Hnd; [exact Hnd |].
  cbn [map fst] in Hnd. apply NoDup_cons in Hnd as [Hout Hnd].
  cbn [List.filter fst]. destruct (negb (Nat.eqb i sid)); [| now apply IH].
  cbn [map fst]. apply NoDup_cons. split; [| now apply IH].
  intros Hin. apply Hout. change (i ∈ fst <$> l).
  change (i ∈ fst <$> List.filter (fun e => negb (Nat.eqb (fst e) sid)) l) in Hin.
  apply list_elem_of_fmap in Hin as (e & He & Hin). apply list_elem_of_fmap.
  exists e. split; [exact He |]. apply list_elem_of_In. apply list_elem_of_In in Hin.
  apply filter_In in Hin. tauto.
Qed.

Lemma remove_listener_subset (l : list (nat * string)) (sid j : nat) :
  j ∈ map fst (List.filter (fun e => negb (Nat.eqb (fst e) sid)) l) -> j ∈ map fst l.
Proof.
  intros Hin. change (j ∈ fst <$> l).
  change (j ∈ fst <$> List.filter (fun e => negb (Nat.eqb (fst e) sid)) l) in Hin.
  apply list_elem_of_fmap in Hin as (e & He & Hin). apply list_elem_of_fmap.
  exists e. split; [exact He |]. apply list_elem_of_In. apply list_elem_of_In in Hin.
  apply filter_In in Hin. tauto.
Qed.

Lemma on_close_accounted (st : Connections) (refused : string -> nat) (sid : nat) :
  accounted st refused -> accounted (on_close st sid) refused.
Proof.
  intros [Hnd Hcount]. unfold on_close.
  pose proof (find_listener (listeners st) sid) as Hfind.
  destruct (List.find (fun l => Nat.eqb (fst l) sid) (listeners st)) as [[i ip0] |];
    [| split; assumption].
  destruct Hfind as [-> Hin]. split; cbn [listeners connectionLimits].
  - now apply remove_listener_NoDup.
  - intros ip. unfold open_from. cbn [listeners].
    pose proof (remove_listener_count (listeners st) sid ip0 ip Hnd Hin) as Hlen.
    destruct (Hcount ip) as [Hip Hle]. unfold open_from in Hip, Hle.
    revert Hlen. destruct (String.eqb_spec ip0 ip) as [-> | Hne]; intros Hlen.
    + rewrite lookup_insert_eq, Hip. cbn [default from_option]. unfold id.
      split; lia.
    + rewrite lookup_insert_ne by exact Hne. rewrite Hip. split; lia.
Qed.

Lemma on_error_accounted (st : Connections) (refused : string -> nat) (sid : nat) :
  accounted st refused -> accounted (on_error st sid) refused.
Proof.
  intros Hacc. unfold on_error.
  destruct (List.find (fun l => Nat.eqb (fst l) sid) (listeners st)); exact Hacc.
Qed.

Lemma accounted_ext (st : Connections) (r1 r2 : string -> nat) :
  (forall ip, r1 ip = r2 ip) -> accounted st r1 -> accounted st r2.
Proof.
  intros Heq [Hnd Hcount]. split; [exact Hnd |].
  intros ip. rewrite <- Heq. apply Hcount.
Qed.

Lemma refused_from_cons (ip : string) (socket : Socket) (greeting : Greeting)
    (greetings : list (Socket * Greeting)) :
  refused_from ip ((socket, greeting) :: greetings)
  = refusal ip socket greeting + refused_from ip greetings.
Proof.
  unfold refused_from, refusal. cbn [List.filter fst snd].
  destruct (String.eqb (remoteAddress socket) ip
            && match greeting with RateLimited => true | Ready _ _ _ => false end);
    reflexivity.
Qed.

Lemma handleConnection_accounted (st : Connections) (refused : string -> nat)
    (socket : Socket) :
  socket_id socket ∉ map fst (listeners st) ->
  accounted st refused ->
  accounted (fst (handleConnection S useTLS st socket))
            (fun ip => refused ip
                       + refusal ip socket (snd (handleConnection S useTLS st socket)))
  /\ (snd (handleConnection S useTLS st socket) = RateLimited
      <-> 5 <= open_from (remoteAddress socket) st + refused (remoteAddress socket)).
Proof.
  intros Hfresh [Hnd Hcount]. unfold handleConnection.
  destruct (Hcount (remoteAddress socket)) as [Hmine Hmine5].
  destruct (Z.ltb_spec 5 (default 0%Z (connectionLimits st !! remoteAddress socket) + 1))
    as [Hover | Hunder]; cbn [fst snd].
  - split; [| split; [lia | reflexivity]].
    split; [exact Hnd |]. intros ip. cbn [connectionLimits]. unfold refusal.
    destruct (Hcount ip) as [Hip Hle]. unfold open_from in *. cbn [listeners].
    destruct (String.eqb_spec (remoteAddress socket) ip) as [<- | Hne]; cbn [andb].
    + rewrite lookup_insert_eq, Hmine. cbn [default from_option]. unfold id.
      split; lia.
    + rewrite lookup_insert_ne by exact Hne. rewrite Hip. split; lia.
  - split; [| split; [discriminate | lia]].
    split.
    + cbn [listeners map fst]. apply NoDup_cons. split; assumption.
    + intros ip. cbn [connectionLimits]. unfold refusal.
      destruct (Hcount ip) as [Hip Hle]. unfold open_from in *.
      cbn [listeners List.filter snd].
      destruct (String.eqb_spec (remoteAddress socket) ip) as [<- | Hne]; cbn [andb length].
      * rewrite lookup_insert_eq, Hmine. cbn [default from_option]. unfold id.
        split; lia.
      * rewrite lookup_insert_ne by exact Hne. rewrite Hip. split; lia.
Qed.

Lemma handleEvents_accounted (events : list SocketEvent) :
  forall (st : Connections) (refused : string -> nat),
    accounted st refused ->
    NoDup (connecting events) ->
    (forall j, j ∈ connecting events -> j ∉ map fst (listeners st)) ->
    accounted (fst (handleEvents S useTLS st events))
              (fun ip => refused ip
                         + refused_from ip (snd (handleEvents S useTLS st events))).
Proof.
  induction events as [|[socket | sid | sid] events IH]; intros st refused Hacc Hnd Hfresh.
  - cbn [handleEvents fst snd]. apply (accounted_ext st refused); [| exact Hacc].
    intros ip. unfold refused_from. cbn. lia.
  - cbn [connecting] in Hnd, Hfresh. apply NoDup_cons in Hnd as [Hout Hnd].
    destruct (handleConnection_accounted st refused socket) as [Hstep _];
      [apply Hfresh, list_elem_of_here | exact Hacc |].
    cbn [handleEvents].
    assert (listeners (fst (handleConnection S useTLS st socket))
            = listeners st
            \/ listeners (fst (handleConnection S useTLS st socket))
               = (socket_id socket, remoteAddress socket) :: listeners st) as Hl.
    { unfold handleConnection. destruct (5 <? _)%Z; [left | right]; reflexivity. }
    destruct (handleConnection S useTLS st socket) as [st' greeting]. cbn [fst snd] in *.
    specialize (IH st' _ Hstep Hnd).
    destruct (handleEvents S useTLS st' events) as [final greetings]. cbn [fst snd] in *.
    eapply accounted_ext; [| apply IH].
    + intros ip. rewrite refused_from_cons. lia.
    + intros j Hj Hin. destruct Hl as [Hl | Hl]; rewrite Hl in Hin.
      * exact (Hfresh j (list_elem_of_further _ _ _ Hj) Hin).
      * cbn [map fst] in Hin. apply elem_of_cons in Hin as [-> | Hin];
          [exact (Hout Hj) | exact (Hfresh j (list_elem_of_further _ _ _ Hj) Hin)].
  - cbn [handleEvents connecting] in *. apply IH; [| exact Hnd |].
    + now apply on_close_accounted.
    + intros j Hj Hin. apply (Hfresh j Hj). unfold on_close in Hin.
      destruct (List.find (fun l => Nat.eqb (fst l) sid) (listeners st)) as [[i a] |];
        [| exact Hin].
      cbn [listeners] in Hin. now apply remove_listener_subset in Hin.
  - cbn [handleEvents connecting] in *. apply IH; [| exact Hnd |].
    + now apply on_error_accounted.
    + intros j Hj Hin. apply (Hfresh j Hj). unfold on_error in Hin.
      destruct (List.find (fun l => Nat.eqb (fst l) sid) (listeners st)); exact Hin.
Qed.

Lemma no_connections_accounted : accounted no_connections (fun _ => 0).
Proof.
  split; [apply NoDup_nil_2 |]. intros ip. unfold open_from. cbn.
  rewrite lookup_empty. cbn. split; lia.
Qed.

(** X17. Through any run of connections, closes and socket errors (every
    connection being a new socket), the counter of a remote address is the
    number of its open accepted connections plus the number of its
    connections refused so far: a refusal raises the counter and nothing ever
    lowers it again. No address ever has more than five open accepted
    connections. *)
Theorem connection_counter_invariant (events : list SocketEvent) (ip : string) :
  NoDup (connecting events) ->
  default 0%Z (connectionLimits (fst (handleEvents S useTLS no_connections events)) !! ip)
  = (Z.of_nat (open_from ip (fst (handleEvents S useTLS no_connections events)))
     + Z.of_nat (refused_from ip (snd (handleEvents S useTLS no_connections events))))%Z
  /\ open_from ip (fst (handleEvents S useTLS no_connections events)) <= 5.
Proof.
  intros Hnd.
  destruct (handleEvents_accounted events no_connections (fun _ => 0)
              no_connections_accounted Hnd) as [_ Hcount].
  - intros j _ Hin. inversion Hin.
  - exact (Hcount ip).
Qed.

(** X18. After any such run, a new connection is refused exactly when the
    open accepted connections of its address and the refusals the address has
    met so far add up to five or more. An address that has been refused five
    times is refused for ever, even with no connection open. *)
Theorem connection_admission (events : list SocketEvent) (socket : Socket) :
  NoDup (connecting events) ->
  socket_id socket ∉ connecting events ->
  let st := fst (handleEvents S useTLS no_connections events) in
  let refused := refused_from (remoteAddress socket)
                   (snd (handleEvents S useTLS no_connections events)) in
  (snd (handleConnection S useTLS st socket) = RateLimited
   <-> 5 <= open_from (remoteAddress socket) st + refused)
  /\ (5 <= refused -> snd (handleConnection S useTLS st socket) = RateLimited).
Proof.
  intros Hnd Hnew st refused.
  pose proof (handleEvents_accounted events no_connections (fun _ => 0)
                no_connections_accounted Hnd) as Hacc.
  assert (accounted st (fun ip => 0 + refused_from ip
                                       (snd (handleEvents S useTLS no_connections events))))
    as Hst by (apply Hacc; intros j _ Hin; inversion Hin).
  assert (socket_id socket ∉ map fst (listeners st)) as Hfresh.
  { clear Hacc Hst. subst st. intros Hin. apply Hnew. revert Hin.
    assert (forall (l : list SocketEvent) (s0 : Connections) j,
              j ∈ map fst (listeners (fst (handleEvents S useTLS s0 l))) ->
              j ∈ map fst (listeners s0) \/ j ∈ connecting l) as Hwhere.
    { induction l as [|[sock | sid | sid] l IH]; intros s0 j Hj.
      - left. exact Hj.
      - cbn [handleEvents connecting] in *.
        assert (forall k, k ∈ map fst (listeners (fst (handleConnection S useTLS s0 sock))) ->
                          k ∈ map fst (listeners s0) \/ k = socket_id sock) as Hc.
        { intros k. unfold handleConnection. destruct (5 <? _)%Z; cbn [fst listeners map].
          - now left.
          - intros Hk. apply elem_of_cons in Hk as [-> | Hk]; [now right | now left]. }
        destruct (handleConnection S useTLS s0 sock) as [s1 g]. cbn [fst] in *.
        specialize (IH s1 j).
        destruct (handleEvents S useTLS s1 l) as [final gs]. cbn [fst] in *.
        destruct (IH Hj) as [H1 | H2].
        + destruct (Hc j H1) as [H | ->]; [now left | right; apply list_elem_of_here].
        + right. now apply list_elem_of_further.
      - cbn [handleEvents connecting] in *. destruct (IH _ _ Hj) as [H1 | H2]; [| now right].
        left. unfold on_close in H1.
        destruct (List.find (fun e => Nat.eqb (fst e) sid) (listeners s0)) as [[i a] |];
          [| exact H1].
        cbn [listeners] in H1. now apply remove_listener_subset in H1.
      - cbn [handleEvents connecting] in *. destruct (IH _ _ Hj) as [H1 | H2]; [| now right].
        left. unfold on_error in H1.
        destruct (List.find (fun e => Nat.eqb (fst e) sid) (listeners s0)); exact H1. }
    intros Hin. destruct (Hwhere _ _ _ Hin) as [H | H]; [inversion H | exact H]. }
  destruct (handleConnection_accounted st _ socket Hfresh Hst) as [_ Hrule].
  cbn beta in Hrule. fold refused in Hrule. split.
  - rewrite Hrule. lia.
  - intros Hfive. apply Hrule. lia.
Qed.

End ConnectionLimit.

Lemma connection_counter_invariant_witness :
  default 0%Z
    (Server.connectionLimits
       (fst (Server.handleEvents (Sample.server 2 false) true Server.no_connections
               Sample.six_then_close)) !! "10.0.0.1")
  = 5%Z
  /\ Server.open_from "10.0.0.1"
       (fst (Server.handleEvents (Sample.server 2 false) true Server.no_connections
               Sample.six_then_close)) = 4
  /\ Server.refused_from "10.0.0.1"
       (snd (Server.handleEvents (Sample.server 2 false) true Server.no_connections
               Sample.six_then_close)) = 1.
Proof.
  destruct (connection_counter_invariant (Sample.server 2 false) true
              Sample.six_then_close "10.0.0.1") as [Hcount _].
  - apply (bool_decide_unpack (NoDup _)). vm_compute. exact I.
  - split; [| split; vm_compute; reflexivity].
    rewrite Hcount. vm_compute. reflexivity.
Defined.

(** After the six connections and the close, four are open and one was
    refused: a seventh socket is refused although only four are open. *)
Lemma connection_admission_witness :
  snd (Server.handleConnection (Sample.server 2 false) true
         (fst (Server.handleEvents (Sample.server 2 false) true Server.no_connections
                 Sample.six_then_close))
         (Server.MkSocket 7 "10.0.0.1" false))
  = Server.RateLimited.
Proof.
  apply (proj1 (connection_admission (Sample.server 2 false) true Sample.six_then_close
                  (Server.MkSocket 7 "10.0.0.1" false)
                  ltac:(apply (bool_decide_unpack (NoDup _)); vm_compute; exact I)
                  ltac:(apply (bool_decide_unpack (_ ∉ _)); vm_compute; exact I))).
  vm_compute. lia.
Defined.

(** ** Timeouts and repeated requests at the client *)

Section StaleTrackers.
Import Protocol Client.

Lemma settle_promise (C : MMTPClient) (action : string) (t : Tracker)
    (response : Response) (p : nat) (e : Effect) :
  In e (settle C action t response) -> settles p e = true -> p = promise t.
Proof.
  unfold settle.
  repeat match goal with
         | |- context [if ?b then _ else _] => destruct b
         | |- context [match ?x with _ => _ end] => destruct x
         end;
    cbn [In]; intros [<- | []]; cbn [settles]; intros H;
    symmetry; now apply Nat.eqb_eq.
Qed.

Lemma settle_one (C : MMTPClient) (action : string) (t : Tracker) (response : Response) :
  exists e, settle C action t response = [e] /\ settles (promise t) e = true.
Proof.
  unfold settle.
  repeat match goal with
         | |- context [if ?b then _ else _] => destruct b
         | |- context [match ?x with _ => _ end] => destruct x
         end;
    eexists; (split; [reflexivity | apply Nat.eqb_refl]).
Qed.


Lemma Map_set_lookup (key : string) (value : Tracker) (m : WaitingResponses) :
  (key, value) ∈ Map_set key value m.
Proof.
  induction m as [|[k v] m IH]; cbn [Map_set]; [apply list_elem_of_here |].
  destruct (String.eqb_spec k key) as [-> | _];
    [apply list_elem_of_here | now apply list_elem_of_further].
Qed.

Lemma NoDup_keys_value (m : WaitingResponses) (key : string) (v1 v2 : Tracker) :
  NoDup (map fst m) -> (key, v1) ∈ m -> (key, v2) ∈ m -> v1 = v2.
Proof.
  induction m as [|[k v] m IH]; intros Hnd H1 H2; [inversion H1 |].
  cbn [map fst] in Hnd. apply NoDup_cons in Hnd as [Hout Hnd].
  assert (forall w, (k, w) ∈ m -> False) as Hno.
  { intros w Hw. apply Hout. change (k ∈ fst <$> m). apply list_elem_of_fmap.
    exists (k, w). split; [reflexivity | exact Hw]. }
  apply elem_of_cons in H1 as [H1 | H1]; apply elem_of_cons in H2 as [H2 | H2].
  - congruence.
  - injection H1 as -> _. exfalso. exact (Hno _ H2).
  - injection H2 as -> _. exfalso. exact (Hno _ H1).
  - now apply IH.
Qed.

(** X20. The table holds one tracker per action name. A request of an
    action that is already tracked puts its tracker in the place of the
    earlier one, at the same position: the earlier tracker is gone from the
    table (only its own timeout can still settle its promise), and the order
    of the actions is unchanged. A request of an action not yet tracked is
    added at the end. *)
Theorem track_one_per_action (C : MMTPClient) (action : string) (t1 t2 : Tracker) :
  NoDup (map fst (waitingResponses C)) ->
  let once := track action t1 C in
  let twice := track action t2 once in
  NoDup (map fst (waitingResponses twice))
  /\ map fst (waitingResponses twice) = map fst (waitingResponses once)
  /\ length (waitingResponses twice) = length (waitingResponses once)
  /\ (action, t2) ∈ waitingResponses twice
  /\ (t1 <> t2 -> (action, t1) ∉ waitingResponses twice)
  /\ (action ∉ map fst (waitingResponses C) ->
      waitingResponses once = waitingResponses C ++ [(action, t1)]).
Proof.
  intros Hnd. cbn zeta.
  assert (NoDup (map fst (waitingResponses (track action t2 (track action t1 C)))))
    as Hnd2 by (apply track_NoDup; now apply track_NoDup).
  assert (action ∈ map fst (waitingResponses (track action t1 C))) as Hin.
  { cbn [track set_waitingResponses waitingResponses].
    change (action ∈ fst <$> Map_set action t1 (waitingResponses C)).
    apply list_elem_of_fmap. exists (action, t1). split; [reflexivity |].
    apply Map_set_lookup. }
  assert (map fst (waitingResponses (track action t2 (track action t1 C)))
          = map fst (waitingResponses (track action t1 C))) as Hkeys.
  { cbn [track set_waitingResponses waitingResponses] in *.
    rewrite (Map_set_keys action t2). now rewrite bool_decide_eq_true_2. }
  split; [exact Hnd2 |]. split; [exact Hkeys |]. split; [| split; [| split]].
  - rewrite <- (length_map fst), Hkeys. apply length_map.
  - apply Map_set_lookup.
  - intros Hne Hold. apply Hne.
    exact (NoDup_keys_value _ _ _ _ Hnd2 Hold (Map_set_lookup _ _ _)).
  - intros Hnew. cbn [track set_waitingResponses waitingResponses].
    clear -Hnew. induction (waitingResponses C) as [|[k v] m IH]; [reflexivity |].
    cbn [Map_set]. destruct (String.eqb_spec k action) as [-> | Hne].
    + exfalso. apply Hnew. apply list_elem_of_here.
    + cbn [app]. rewrite IH; [reflexivity |].
      intros Hin. apply Hnew. cbn [map fst]. now apply list_elem_of_further.
Qed.

End StaleTrackers.


(** A second CHECK while the first is outstanding. *)
Lemma track_one_per_action_witness :
  Client.waitingResponses
    (Client.track "CHECK" (Client.MkTracker 3 3) Sample.check_client)
  = [("CHECK", Client.MkTracker 3 3); ("SEND", Client.MkTracker 2 2)]
  /\ ("CHECK", Client.MkTracker 1 1)
     ∉ Client.waitingResponses
         (Client.track "CHECK" (Client.MkTracker 3 3)
            (Client.track "CHECK" (Client.MkTracker 1 1)
               (Client.MkClient (Sample.engine 2 false)
                  [("SEND", Client.MkTracker 2 2)] None))).
Proof.
  split; [vm_compute; reflexivity |].
  apply (track_one_per_action
           (Client.MkClient (Sample.engine 2 false) [("SEND", Client.MkTracker 2 2)] None)
           "CHECK" (Client.MkTracker 1 1) (Client.MkTracker 3 3)).
  - apply (bool_decide_unpack (NoDup _)). vm_compute. exact I.
  - intros H. discriminate H.
Defined.

(** ** The custom vocabulary *)

Section CustomTags.
Import Protocol.

Lemma addCustomTag_elem (tag t : string) (custom : list string) :
  t ∈ addCustomTag tag custom <-> t ∈ custom \/ t = tag.
Proof.
  unfold addCustomTag. destruct (array_includes custom tag) eqn:Hin.
  - apply array_includes_elem_of in Hin. split; [now left |].
    intros [H | ->]; assumption.
  - rewrite elem_of_app, list_elem_of_singleton. reflexivity.
Qed.

Lemma addCustomTag_NoDup (tag : string) (custom : list string) :
  NoDup custom -> NoDup (addCustomTag tag custom).
Proof.
  intros Hnd. unfold addCustomTag. destruct (array_includes custom tag) eqn:Hin.
  - exact Hnd.
  - apply NoDup_app. split; [exact Hnd |]. split; [| apply NoDup_singleton].
    intros x Hx Hx'. apply list_elem_of_singleton in Hx'. subst x.
    apply array_includes_elem_of in Hx. congruence.
Qed.

Lemma addCustomTag_prefix (tag : string) (custom : list string) :
  custom `prefix_of` addCustomTag tag custom.
Proof.
  unfold addCustomTag. destruct (array_includes custom tag).
  - reflexivity.
  - now apply prefix_app_r.
Qed.

(** X21. Whatever tags addCustomTag is called with, in whatever order and
    however often, the custom vocabulary never lists a tag twice, keeps the
    tags it had at their positions, and holds exactly the tags it had and the
    tags it was called with; a call with a tag it holds changes nothing. *)
Theorem addCustomTag_registry (tags custom : list string) :
  NoDup custom ->
  let registry := fold_left (fun custom tag => addCustomTag tag custom) tags custom in
  NoDup registry
  /\ custom `prefix_of` registry
  /\ (forall t : string, t ∈ registry <-> t ∈ custom \/ t ∈ tags)
  /\ (forall t : string, t ∈ registry -> addCustomTag t registry = registry).
Proof.
  cbn zeta. revert custom.
  induction tags as [|tag tags IH]; intros custom Hnd; cbn [fold_left].
  - split; [exact Hnd |]. split; [reflexivity |]. split.
    + intros t. split; [now left |]. intros [H | H]; [exact H | inversion H].
    + intros t Ht. unfold addCustomTag.
      now rewrite (proj2 (array_includes_elem_of custom t) Ht).
  - destruct (IH (addCustomTag tag custom) (addCustomTag_NoDup tag custom Hnd))
      as (Hnd' & Hpre & Hmem & Hidem).
    split; [exact Hnd' |]. split; [| split; [| exact Hidem]].
    + transitivity (addCustomTag tag custom); [apply addCustomTag_prefix | exact Hpre].
    + intros t. rewrite Hmem, addCustomTag_elem, elem_of_cons. tauto.
Qed.

End CustomTags.

Lemma addCustomTag_registry_witness :
  fold_left (fun custom tag => Protocol.addCustomTag tag custom)
            ["travel"; "family"; "travel"] ["family"]
  = ["family"; "travel"]
  /\ NoDup (fold_left (fun custom tag => Protocol.addCustomTag tag custom)
                      ["travel"; "family"; "travel"] ["family"]).
Proof.
  split; [vm_compute; reflexivity |].
  apply (addCustomTag_registry ["travel"; "family"; "travel"] ["family"]).
  apply NoDup_singleton.
Defined.

(** ** The key store *)

Section KeyStore.
Import Protocol Keys.
Context {Key : Type}.
Variable readKey : string -> Key + string.
Variable S : Server.MMTPServer.

Lemma getPublicKeyPath_inj (e1 e2 : string) :
  getPublicKeyPath e1 = getPublicKeyPath e2 -> e1 = e2.
Proof.
  unfold getPublicKeyPath. revert e2.
  assert (forall e, String.length (e +:+ ".pub.asc") = String.length e + 8) as Hlen.
  { intros e. induction e as [|c e IH]; [reflexivity |].
    rewrite append_cons. cbn [String.length]. now rewrite IH. }
  induction e1 as [|c e1 IH]; intros [|c' e2] H.
  - reflexivity.
  - apply (f_equal String.length) in H. rewrite !Hlen in H.
    cbn [String.length] in H. lia.
  - apply (f_equal String.length) in H. rewrite !Hlen in H.
    cbn [String.length] in H. lia.
  - rewrite !append_cons in H. injection H as -> H. f_equal. now apply IH.
Qed.

(** X22. On a server with PGP, a REGISTER_KEY for a valid address with a key
    OpenPGP can read is answered with success; a REQUEST_PUBLIC_KEY for that
    address then answers the registered text, character for character;
    getPublicKey of the engine answers the parsed key; and what is stored and
    answered for every other address is what it was. *)
Theorem handleRegisterKey_then_request (st : Store Key) (email publicKey : string)
    (parsed : Key) :
  Server.usePGP S = true ->
  usePGP (Server.protocol S) = true ->
  validateEmailFormat email = true ->
  readKey publicKey = inl parsed ->
  let registered := fst (handleRegisterKey readKey S st email publicKey) in
  snd (handleRegisterKey readKey S st email publicKey) = Registered
  /\ handleRequestPublicKey S registered email = (registered, PublicKey email publicKey)
  /\ getPublicKey readKey (Server.protocol S) registered email
     = (registered, Returns (Some parsed))
  /\ forall other : string,
       other <> email ->
       snd (handleRequestPublicKey S registered other)
       = snd (handleRequestPublicKey S st other)
       /\ publicKeys registered !! other = publicKeys st !! other.
Proof.
  intros Hserver Hengine Hvalid Hread. cbn zeta.
  unfold handleRegisterKey, importPublicKey.
  rewrite Hserver, Hengine, Hvalid, Hread. cbn [negb fst snd].
  split; [reflexivity |]. split; [| split].
  - unfold handleRequestPublicKey. rewrite Hserver, Hvalid. cbn [negb files].
    now rewrite lookup_insert_eq.
  - unfold getPublicKey. rewrite Hengine. cbn [negb publicKeys].
    now rewrite lookup_insert_eq.
  - intros other Hother. unfold handleRequestPublicKey. rewrite Hserver.
    cbn [negb files publicKeys]. split.
    + destruct (validateEmailFormat other); [| reflexivity]. cbn [negb].
      rewrite lookup_insert_ne; [| intros H; apply Hother; symmetry;
                                   now apply getPublicKeyPath_inj].
      now destruct (files st !! getPublicKeyPath other).
    + apply lookup_insert_ne. congruence.
Qed.

Lemma handleRegisterKey_coherent (st : Store Key) (email publicKey : string) :
  coherent readKey st -> coherent readKey (fst (handleRegisterKey readKey S st email publicKey)).
Proof.
  intros Hco. unfold handleRegisterKey.
  destruct (negb (Server.usePGP S)); [exact Hco |].
  destruct (negb (validateEmailFormat email)) eqn:Hvalid; [exact Hco |].
  apply negb_false_iff in Hvalid.
  unfold importPublicKey. destruct (negb (usePGP (Server.protocol S))); [exact Hco |].
  destruct (readKey publicKey) as [parsed | message] eqn:Hread; [| exact Hco].
  cbn [fst]. intros e k. cbn [publicKeys files].
  destruct (decide (e = email)) as [-> | Hne].
  - rewrite !lookup_insert_eq. intros [= <-]. split; [exact Hvalid |].
    exists publicKey. split; [reflexivity | exact Hread].
  - rewrite lookup_insert_ne by congruence. intros Hk.
    destruct (Hco e k Hk) as (He & armored & Hfile & Hparse).
    split; [exact He |]. exists armored. split; [| exact Hparse].
    rewrite lookup_insert_ne; [exact Hfile |].
    intros H. apply Hne. symmetry. now apply getPublicKeyPath_inj.
Qed.

Lemma getPublicKey_coherent (st : Store Key) (email : string) :
  validateEmailFormat email = true ->
  coherent readKey st ->
  coherent readKey (fst (getPublicKey readKey (Server.protocol S) st email)).
Proof.
  intros Hvalid Hco. unfold getPublicKey.
  destruct (negb (usePGP (Server.protocol S))); [exact Hco |].
  destruct (publicKeys st !! email) as [cached |] eqn:Hc; [exact Hco |].
  destruct (files st !! getPublicKeyPath email) as [armored |] eqn:Hfile; [| exact Hco].
  destruct (readKey armored) as [parsed | message] eqn:Hread; [| exact Hco].
  cbn [fst]. intros e k. cbn [publicKeys files].
  destruct (decide (e = email)) as [-> | Hne].
  - rewrite lookup_insert_eq. intros [= <-]. split; [exact Hvalid |].
    exists armored. split; [exact Hfile | exact Hread].
  - rewrite lookup_insert_ne by congruence. apply Hco.
Qed.

Lemma handleRequestPublicKey_store (st : Store Key) (email : string) :
  fst (handleRequestPublicKey S st email) = st.
Proof.
  unfold handleRequestPublicKey.
  destruct (negb (Server.usePGP S)); [reflexivity |].
  destruct (negb (validateEmailFormat email)); [reflexivity |].
  now destruct (files st !! getPublicKeyPath email).
Qed.

Lemma run_coherent (ops : list KeyOp) (st : Store Key) :
  forallb valid_op ops = true ->
  coherent readKey st -> coherent readKey (run readKey S st ops).
Proof.
  unfold run. revert st.
  induction ops as [|op ops IH]; intros st Hops Hco; [exact Hco |].
  cbn [forallb] in Hops. apply andb_true_iff in Hops as [Hop Hops].
  cbn [fold_left]. apply IH; [exact Hops |].
  destruct op as [email publicKey | email | email]; cbn [step].
  - now apply handleRegisterKey_coherent.
  - now rewrite handleRequestPublicKey_store.
  - now apply getPublicKey_coherent.
Qed.

(** X23. The cache of parsed keys never disagrees with the key files. From
    a store with an empty cache, after any run of REGISTER_KEY requests,
    REQUEST_PUBLIC_KEY requests and lookups of valid addresses, getPublicKey
    answers for every valid address what reading its file would answer: the parsed
    key of the file, null when there is no file, the error of OpenPGP when
    the file does not parse. *)
Theorem getPublicKey_follows_files (ops : list KeyOp) (st : Store Key) (email : string) :
  publicKeys st = ∅ ->
  forallb valid_op ops = true ->
  usePGP (Server.protocol S) = true ->
  validateEmailFormat email = true ->
  snd (getPublicKey readKey (Server.protocol S) (run readKey S st ops) email)
  = read_through readKey (run readKey S st ops) email.
Proof.
  intros Hempty Hops Hengine _.
  assert (coherent readKey (run readKey S st ops)) as Hco.
  { apply run_coherent; [exact Hops |]. intros e k. rewrite Hempty, lookup_empty.
    intros H. discriminate H. }
  unfold getPublicKey, read_through. rewrite Hengine. cbn [negb].
  destruct (publicKeys (run readKey S st ops) !! email) as [cached |] eqn:Hc.
  - destruct (Hco email cached Hc) as (_ & armored & Hfile & Hread).
    now rewrite Hfile, Hread.
  - destruct (files (run readKey S st ops) !! getPublicKeyPath email) as [armored |];
      [| reflexivity].
    now destruct (readKey armored).
Qed.

End KeyStore.

Lemma handleRegisterKey_then_request_witness :
  Keys.handleRequestPublicKey (Sample.server 2 true)
    (fst (Keys.handleRegisterKey Sample.readKey (Sample.server 2 true) Sample.no_keys_yet
            Sample.b_x Sample.armored_key))
    Sample.b_x
  = (Keys.MkStore {[ "(b)%(x.com).pub.asc" := Sample.armored_key ]}
                  {[ Sample.b_x := Sample.armored_key ]},
     Keys.PublicKey Sample.b_x Sample.armored_key).
Proof.
  destruct (handleRegisterKey_then_request Sample.readKey (Sample.server 2 true)
              Sample.no_keys_yet Sample.b_x Sample.armored_key Sample.armored_key)
    as (_ & Hrequest & _).
  - reflexivity.
  - reflexivity.
  - vm_compute. reflexivity.
  - vm_compute. reflexivity.
  - rewrite Hrequest. vm_compute. reflexivity.
Defined.

(** A registration that fails, one that succeeds, a lookup and a second
    registration for the same address: a lookup then answers the second key. *)
Lemma getPublicKey_follows_files_witness :
  snd (Keys.getPublicKey Sample.readKey (Sample.engine 2 true)
         (Keys.run Sample.readKey (Sample.server 2 true) Sample.no_keys_yet
            [Keys.Registers Sample.b_x "not a key";
             Keys.Registers Sample.b_x Sample.armored_key;
             Keys.Looks Sample.b_x;
             Keys.Registers Sample.b_x (Sample.armored_key +:+ "2")])
         Sample.b_x)
  = Protocol.Returns (Some (Sample.armored_key +:+ "2")).
Proof.
  etransitivity.
  - apply (getPublicKey_follows_files Sample.readKey (Sample.server 2 true)
             [Keys.Registers Sample.b_x "not a key";
              Keys.Registers Sample.b_x Sample.armored_key;
              Keys.Looks Sample.b_x;
              Keys.Registers Sample.b_x (Sample.armored_key +:+ "2")]
             Sample.no_keys_yet Sample.b_x).
    + reflexivity.
    + vm_compute. reflexivity.
    + reflexivity.
    + vm_compute. reflexivity.
  - vm_compute. reflexivity.
Defined.

(** ** The gateway extension *)

Section Gateway.
Import Protocol Server Extension AddressSpec.
Variable E : MMTPBridgeExtension.

Lemma processPacket_None (P : MMTPProtocol) (packet : Packet) :
  snd (processPacket P packet None)
  = if negb (verifyMessageIntegrity packet) then
      Failure "Message integrity check failed"
    else if negb (verifyHashCash P packet) then
      Failure "HashCash verification failed - potential spam"
    else Success (try_verify P packet).
Proof.
  unfold processPacket.
  destruct (verifyMessageIntegrity packet); [| reflexivity].
  destruct (verifyHashCash P packet); reflexivity.
Qed.

Lemma sendToSMTP_sent (packet : Packet) :
  match smtp_message packet with
  | Returns message => fst (sendToSMTP E packet) = [message]
  | Throws _ => fst (sendToSMTP E packet) = []
  end.
Proof.
  unfold sendToSMTP. destruct (smtp_message packet) as [message | error]; [| reflexivity].
  now destruct (sendMail E message).
Qed.

(** X24. The gateway's SEND stores no mail for a recipient it does not
    accept as an address, and none for a domain it relays: the mailbox table
    is then as it was. For every other recipient it does what the server's own
    SEND does: same table, same answer, nothing handed to the transporter. A
    domain counts as relayed when the mapping holds a true value for it, and
    also when the mapping holds nothing for it and the domain is an inherited
    name. *)
Theorem handleSendMail_routes :
  (forall (mailboxes : Mailboxes) (packet : Packet) (username domain : string),
     match_address (recipient packet) = Some (username, domain) ->
     mapped E domain = false ->
     handleSendMail E mailboxes packet
     = (fst (Server.handleSendMail (server E) mailboxes packet), [],
        Local (snd (Server.handleSendMail (server E) mailboxes packet))))
  /\ (forall (mailboxes : Mailboxes) (packet : Packet) (username domain : string),
        match_address (recipient packet) = Some (username, domain) ->
        mapped E domain = true ->
        fst (fst (handleSendMail E mailboxes packet)) = mailboxes
        /\ forall (messageId : string) (encrypted signed : bool),
             snd (handleSendMail E mailboxes packet)
             <> Local (Delivered messageId encrypted signed))
  /\ (forall (mailboxes : Mailboxes) (packet : Packet),
        match_address (recipient packet) = None ->
        fst (handleSendMail E mailboxes packet) = (mailboxes, [])
        /\ (verifyMessageIntegrity packet = true ->
            verifyHashCash (protocol (server E)) packet = true ->
            snd (handleSendMail E mailboxes packet)
            = Local (Error "Invalid recipient format")))
  /\ (forall domain : string,
        mapped E domain = true <->
        domainMapping E !! domain = Some true
        \/ (domainMapping E !! domain = None /\ Js.inherited domain = true)).
Proof.
  split; [| split; [| split]].
  - intros mailboxes packet username domain Hmatch Hmapped.
    unfold handleSendMail, Server.handleSendMail. rewrite processPacket_None.
    destruct (negb (verifyMessageIntegrity packet)); [reflexivity |].
    destruct (negb (verifyHashCash (protocol (server E)) packet)); [reflexivity |].
    cbv zeta.
    destruct (try_verify_fields (protocol (server E)) packet) as (_ & Hr & _).
    rewrite Hr, Hmatch, Hmapped. reflexivity.
  - intros mailboxes packet username domain Hmatch Hmapped.
    unfold handleSendMail. rewrite processPacket_None.
    destruct (negb (verifyMessageIntegrity packet));
      [split; [reflexivity | intros; discriminate] |].
    destruct (negb (verifyHashCash (protocol (server E)) packet));
      [split; [reflexivity | intros; discriminate] |].
    cbv zeta.
    destruct (try_verify_fields (protocol (server E)) packet) as (_ & Hr & _).
    rewrite Hr, Hmatch, Hmapped.
    destruct (sendToSMTP E (try_verify (protocol (server E)) packet)) as [sent [[] | error]];
      (split; [reflexivity | intros; discriminate]).
  - intros mailboxes packet Hmatch.
    unfold handleSendMail. rewrite processPacket_None.
    destruct (verifyMessageIntegrity packet); cbn [negb];
      [| split; [reflexivity | intros H; discriminate H]].
    destruct (verifyHashCash (protocol (server E)) packet); cbn [negb];
      [| split; [reflexivity | intros _ H; discriminate H]].
    cbv zeta.
    destruct (try_verify_fields (protocol (server E)) packet) as (_ & Hr & _).
    rewrite Hr, Hmatch. split; reflexivity.
  - intros domain. unfold mapped.
    destruct (domainMapping E !! domain) as [[|] |].
    + split; [now left | reflexivity].
    + split; [discriminate |]. intros [H | [H _]]; discriminate H.
    + split; [now right |]. now intros [H | [_ H]].
Qed.

(** X25. A message the gateway hands to the SMTP transporter comes from a
    packet that passed the integrity and HashCash checks, that is not flagged
    encrypted, whose recipient is an address of a relayed domain and whose
    sender is an address; it goes from local@domain of the sender to
    local@domain of the recipient, it is the only message handed over for the
    packet, and the packet is not stored. Its X-MMTP-Signature header says
    "Verified" as soon as the packet is flagged signed, whatever the check of
    the signature found. *)
Theorem handleSendMail_relays (mailboxes : Mailboxes) (packet : Packet)
    (message : SmtpMessage) :
  message ∈ snd (fst (handleSendMail E mailboxes packet)) ->
  verifyMessageIntegrity packet = true
  /\ verifyHashCash (protocol (server E)) packet = true
  /\ encrypted (meta packet) = false
  /\ (exists username domain : string,
        well_formed (recipient packet) username domain
        /\ mapped E domain = true
        /\ to message = username +:+ "@" +:+ domain)
  /\ (exists username domain : string,
        well_formed (sender packet) username domain
        /\ from message = username +:+ "@" +:+ domain)
  /\ X_MMTP_MessageId message = messageId (meta packet)
  /\ X_MMTP_Signature message
     = (if signed (meta packet) then "Verified" else "Unsigned")
  /\ fst (handleSendMail E mailboxes packet) = (mailboxes, [message]).
Proof.
  unfold handleSendMail. rewrite processPacket_None.
  destruct (verifyMessageIntegrity packet); cbn [negb];
    [| cbn [fst snd]; intros H; inversion H].
  destruct (verifyHashCash (protocol (server E)) packet); cbn [negb];
    [| cbn [fst snd]; intros H; inversion H].
  cbv zeta.
  destruct (try_verify_fields (protocol (server E)) packet)
    as (Hs & Hr & _ & _ & Htags & He & Hsig & Hid & Hc & _).
  set (stored := try_verify (protocol (server E)) packet) in *.
  rewrite Hr.
  destruct (match_address (recipient packet)) as [[username domain] |] eqn:Hto;
    [| cbn [fst snd]; intros H; inversion H].
  destruct (mapped E domain) eqn:Hmapped; [| cbn [fst snd]; intros H; inversion H].
  pose proof (sendToSMTP_sent stored) as Hsent.
  assert (forall sent outcome,
            sendToSMTP E stored = (sent, outcome) ->
            message ∈ sent ->
            smtp_message stored = Returns message /\ sent = [message]) as Hone.
  { intros sent outcome Hrun Hin. rewrite Hrun in Hsent. cbn [fst] in Hsent.
    destruct (smtp_message stored) as [m | error]; subst sent.
    - apply list_elem_of_singleton in Hin. now subst m.
    - inversion Hin. }
  intros Hin.
  assert (smtp_message stored = Returns message
          /\ fst (let (sent, outcome) := sendToSMTP E stored in
                  match outcome with
                  | Returns _ =>
                      (mailboxes, sent,
                       ViaSMTP (messageId (meta stored)) (encrypted (meta stored))
                               (signed (meta stored)))
                  | Throws error =>
                      (mailboxes, sent,
                       Local (Error ("SMTP delivery failed: " +:+ error)))
                  end) = (mailboxes, [message])) as [Hmsg Hfst].
  { destruct (sendToSMTP E stored) as [sent outcome] eqn:Hrun.
    destruct outcome as [[] | error]; cbn [fst snd] in Hin |- *;
      destruct (Hone sent _ eq_refl Hin) as [Hm ->]; now split. }
  clear Hin Hone Hsent.
  unfold smtp_message, Bridge.convertToSMTPAddress in Hmsg.
  rewrite Hs, Hr, Hto, He, Hsig, Hid in Hmsg.
  destruct (match_address (sender packet)) as [[sname sdomain] |] eqn:Hfrom;
    [| discriminate Hmsg].
  destruct (encrypted (meta packet)); [discriminate Hmsg |].
  split; [reflexivity |]. split; [reflexivity |]. split; [reflexivity |].
  destruct (content stored) as [subject body | armored]; injection Hmsg as <-;
    cbn [to from X_MMTP_MessageId X_MMTP_Signature];
    (split; [exists username, domain; split; [now apply match_address_spec | now split] |]);
    (split; [exists sname, sdomain; split; [now apply match_address_spec | reflexivity] |]);
    (split; [reflexivity |]); (split; [reflexivity | exact Hfst]).
Qed.

End Gateway.

(** Mail for a mapped domain is relayed and stored nowhere; so is mail for
    the domain toString, which the mapping does not hold. *)
Lemma handleSendMail_routes_witness :
  fst (fst (Extension.handleSendMail (Sample.gateway Sample.bare_store false)
              Sample.one_mail Sample.gmail_packet))
  = Sample.one_mail
  /\ fst (fst (Extension.handleSendMail (Sample.gateway Sample.bare_store false)
                 Sample.one_mail Sample.toString_packet))
     = Sample.one_mail
  /\ Extension.handleSendMail (Sample.gateway Sample.bare_store false)
       Sample.one_mail Sample.hi_packet
     = (<[Sample.b_x := [Sample.hi_packet; Sample.hi_packet]]> Sample.one_mail, [],
        Extension.Local
          (Server.Delivered "000102030405060708090a0b0c0d0e0f" false false)).
Proof.
  destruct (handleSendMail_routes (Sample.gateway Sample.bare_store false))
    as (Hlocal & Hrelay & _ & _).
  split; [| split].
  - apply (Hrelay Sample.one_mail Sample.gmail_packet "bob" "gmail.com");
      vm_compute; reflexivity.
  - apply (Hrelay Sample.one_mail Sample.toString_packet "bob" "toString");
      vm_compute; reflexivity.
  - rewrite (Hlocal Sample.one_mail Sample.hi_packet "b" "x.com");
      vm_compute; reflexivity.
Defined.

(** A packet flagged signed whose signature the engine finds wrong is relayed
    with the header "Verified". *)
Lemma handleSendMail_relays_witness :
  exists message : Extension.SmtpMessage,
    Extension.handleSendMail (Sample.gateway Sample.rejecting_store true) ∅
      Sample.forged_packet
    = (∅, [message],
       Extension.ViaSMTP "000102030405060708090a0b0c0d0e0f" false true)
    /\ Protocol.signatureVerified
         (Protocol.meta
            (Protocol.try_verify (Protocol.MkProtocol 2 true Sample.rejecting_store)
               Sample.forged_packet))
       = Some false
    /\ Extension.from message = "a@x.com"
    /\ Extension.to message = "bob@gmail.com"
    /\ Extension.X_MMTP_Signature message = "Verified".
Proof.
  assert (exists message : Extension.SmtpMessage,
            Extension.handleSendMail (Sample.gateway Sample.rejecting_store true) ∅
              Sample.forged_packet
            = (∅, [message],
               Extension.ViaSMTP "000102030405060708090a0b0c0d0e0f" false true))
    as [message Hrun] by (eexists; vm_compute; reflexivity).
  exists message. split; [exact Hrun |]. split; [vm_compute; reflexivity |].
  destruct (handleSendMail_relays (Sample.gateway Sample.rejecting_store true) ∅
              Sample.forged_packet message)
    as (_ & _ & _ & (u & d & Hto & _ & Hm) & (u' & d' & Hfrom & Hm') & _ & Hheader & _).
  - rewrite Hrun. apply list_elem_of_here.
  - apply match_address_spec in Hto. apply match_address_spec in Hfrom.
    vm_compute in Hto. vm_compute in Hfrom.
    injection Hto as <- <-. injection Hfrom as <- <-.
    split; [exact Hm' |]. split; [exact Hm | exact Hheader].
Defined.
